(** * Verification of [src/git-source-provider.ts]

    A shallow embedding of the source synchroniser of the checkout action:
    [getSource], [cleanup], [getGitCommandManager], [prepareExistingDirectory],
    [configureAuthToken] and [removeGitConfig].

    The collaborators the file imports ([fs], [fs-helper], [@actions/io],
    [@actions/core], [git-command-manager], [github-api-helper], [ref-helper],
    [state-helper]) are parameters of the development: every call to one of
    them is answered by an environment acting on an abstract world, it may
    raise, and it is recorded, with its arguments and its outcome, in the
    list of events of the run. *)

From Stdlib Require Import String Ascii List Bool Arith NArith ZArith Lia.
Import ListNotations.

Local Open Scope list_scope.
Local Open Scope string_scope.

(* ===================================================================== *)
(** * JavaScript strings

    A JavaScript string is modelled by the sequence of bytes of its UTF-8
    encoding, which is what [Buffer.from(s, 'utf8')] yields.  Searching for a
    well-formed string inside a well-formed string gives the same
    occurrences on bytes as on UTF-16 code units. *)
(* ===================================================================== *)

Module JS.

(** [s.indexOf(p)] as an offset, [None] standing for [-1]. *)
Fixpoint indexOfFrom (p s : string) (i : nat) : option nat :=
  if prefix p s then Some i
  else match s with
       | EmptyString => None
       | String _ s' => indexOfFrom p s' (S i)
       end.

(** [s.lastIndexOf(p)]. *)
Fixpoint lastIndexOfFrom (p s : string) (i : nat) : option nat :=
  match s with
  | EmptyString => if prefix p s then Some i else None
  | String _ s' =>
      match lastIndexOfFrom p s' (S i) with
      | Some j => Some j
      | None => if prefix p s then Some i else None
      end
  end.

Definition toIndex (o : option nat) : Z :=
  match o with
  | Some i => Z.of_nat i
  | None => (-1)%Z
  end.

Definition indexOf (s p : string) : Z := toIndex (indexOfFrom p s 0).
Definition lastIndexOf (s p : string) : Z := toIndex (lastIndexOfFrom p s 0).

(** Number of offsets of [s] at which [p] occurs. *)
Fixpoint occurrences (p s : string) : nat :=
  (if prefix p s then 1 else 0) +
  match s with
  | EmptyString => 0
  | String _ s' => occurrences p s'
  end.

(** [GetSubstitution] of ECMAScript for a string pattern: there are no
    captures, so only [$$], [$&], [$`] and [$'] are special in the
    replacement text. *)
Fixpoint getSubstitution (matched before after replacement : string) : string :=
  match replacement with
  | EmptyString => EmptyString
  | String a r =>
      if Ascii.eqb a "$" then
        match r with
        | EmptyString => String a EmptyString
        | String c r' =>
            if Ascii.eqb c "$" then
              String "$" (getSubstitution matched before after r')
            else if Ascii.eqb c "&" then
              matched ++ getSubstitution matched before after r'
            else if Ascii.eqb c "`" then
              before ++ getSubstitution matched before after r'
            else if Ascii.eqb c "'" then
              after ++ getSubstitution matched before after r'
            else String a (String c (getSubstitution matched before after r'))
        end
      else String a (getSubstitution matched before after r)
  end.

(** [s.replace(p, r)] for a string pattern [p]: the first occurrence only. *)
Definition replace (s p r : string) : string :=
  match indexOfFrom p s 0 with
  | None => s
  | Some i =>
      let before := substring 0 i s in
      let after := substring (i + String.length p) (String.length s - (i + String.length p)) s in
      before ++ getSubstitution p before after r ++ after
  end.

(** The 64 digits of RFC 4648. *)
Definition alphabet : string :=
  "ABCDEFGHIJKLMNOPQRSTUVWXYZabcdefghijklmnopqrstuvwxyz0123456789+/".

Definition digit (n : N) : ascii :=
  match get (N.to_nat n) alphabet with
  | Some c => c
  | None => "="%char
  end.

(** [Buffer.from(s, 'utf8').toString('base64')]. *)
Fixpoint base64 (s : string) : string :=
  match s with
  | EmptyString => EmptyString
  | String a EmptyString =>
      let x := N_of_ascii a in
      String (digit (x / 4))
        (String (digit ((x mod 4) * 16)) "==")
  | String a (String b EmptyString) =>
      let x := N_of_ascii a in
      let y := N_of_ascii b in
      String (digit (x / 4))
        (String (digit ((x mod 4) * 16 + y / 16))
           (String (digit ((y mod 16) * 4)) "="))
  | String a (String b (String c rest)) =>
      let x := N_of_ascii a in
      let y := N_of_ascii b in
      let z := N_of_ascii c in
      String (digit (x / 4))
        (String (digit ((x mod 4) * 16 + y / 16))
           (String (digit ((y mod 16) * 4 + z / 64))
              (String (digit (z mod 64)) (base64 rest))))
  end.

(** A string in which [$] does not occur. *)
Fixpoint dollarFree (s : string) : bool :=
  match s with
  | EmptyString => true
  | String a r => negb (Ascii.eqb a "$") && dollarFree r
  end.

End JS.


(** [a || b] on a possibly undefined string [a]: [a] when it is truthy, that
    is defined and not empty, and [b] otherwise. *)
Definition JS_or (a : option string) (b : string) : string :=
  match a with
  | Some s => if String.eqb s EmptyString then b else s
  | None => b
  end.

(** [a ?? b], the reading the specification gives of the expression above:
    [a] when it is defined, and [b] otherwise. *)
Definition JS_nullish (a : option string) (b : string) : string :=
  match a with
  | Some s => s
  | None => b
  end.

(* ===================================================================== *)
(** * Data model *)
(* ===================================================================== *)

(** [ISourceSettings], lines 15-26. *)
Record ISourceSettings : Type := {
  repositoryPath : string;
  repositoryOwner : string;
  repositoryName : string;
  ref : string;
  commit : string;
  clean : bool;
  fetchDepth : Z;
  lfs : bool;
  authToken : string;
  persistCredentials : bool
}.

(** [ICheckoutInfo] of [ref-helper]: a ref and a start point that may be
    left undefined. *)
Module ICheckoutInfo.
Record t : Type := { ref : string; startPoint : option string }.
End ICheckoutInfo.

(** What a run can raise: an error constructed by this file
    ([throw new Error(message)]), or the rejection of a collaborator. *)
Inductive Error : Type :=
| Thrown (message : string)
| Rejected (message : string).

Definition message (e : Error) : string :=
  match e with
  | Thrown m => m
  | Rejected m => m
  end.

Inductive Result (A : Type) : Type :=
| Ok (a : A)
| Err (e : Error).
Arguments Ok {A} a.
Arguments Err {A} e.

(** ** Events *)

(** The calls this file makes to its collaborators, with their arguments. *)
Inductive Call : Type :=
(* fs-helper *)
| FileExistsSync (path : string)
| DirectoryExistsSync (path : string)
(* @actions/io *)
| RmRF (path : string)
| MkdirP (path : string)
(* fs.promises *)
| Readdir (path : string)
| ReadFile (path : string)
| WriteFile (path content : string)
(* git-command-manager *)
| CreateCommandManager (workingDirectory : string) (lfs : bool)
| BranchDelete (remote : bool) (branch : string)
| BranchList (remote : bool)
| Checkout (ref : string) (startPoint : option string)
| CheckoutDetach
| Config (configKey configValue : string)
| ConfigExists (configKey : string)
| Fetch (fetchDepth : Z) (refSpec : list string)
| Init
| IsDetached
| LfsFetch (ref : string)
| LfsInstall
| Log1
| RemoteAdd (remoteName remoteUrl : string)
| TryClean
| TryConfigUnset (configKey : string)
| TryDisableAutomaticGarbageCollection
| TryGetFetchUrl
| TryReset
(* github-api-helper *)
| DownloadRepository (authToken owner repo ref commit repositoryPath : string)
(* ref-helper *)
| GetRefSpec (ref commit : string)
| GetCheckoutInfo (ref commit : string)
(* state-helper *)
| SetRepositoryPath (repositoryPath : string).

Inductive Value : Type :=
| VUnit
| VBool (b : bool)
| VString (s : string)
| VStrings (l : list string)
| VCheckoutInfo (info : ICheckoutInfo.t)
| VGit.

Inductive Outcome : Type :=
| Returned (v : Value)
| Raised (message : string).

(** The channels of [@actions/core] this file writes to. *)
Inductive Channel : Type := Info | Debug | Warning | Secret.

Inductive Event : Type :=
| Ev (c : Call) (o : Outcome)
| Core (ch : Channel) (text : string).

(** ** Runs *)

Record Run (W A : Type) : Type := {
  res : Result A;
  final : W;
  events : list Event
}.
Arguments res {W A} r.
Arguments final {W A} r.
Arguments events {W A} r.

(** A computation of the file: from a world to a result, the world it leaves
    and the events it caused, in order. *)
Definition M (W A : Type) : Type := W -> Run W A.

Definition ret {W A} (a : A) : M W A :=
  fun w => {| res := Ok a; final := w; events := [] |}.

Definition throw {W A} (e : Error) : M W A :=
  fun w => {| res := Err e; final := w; events := [] |}.

Definition bind {W A B} (m : M W A) (f : A -> M W B) : M W B :=
  fun w =>
    let r := m w in
    match res r with
    | Ok a =>
        let r' := f a (final r) in
        {| res := res r'; final := final r'; events := (events r ++ events r')%list |}
    | Err e => {| res := Err e; final := final r; events := events r |}
    end.

Declare Scope run_scope.
Delimit Scope run_scope with run.
Notation "x <- m ;; k" := (bind m (fun x => k))
  (at level 61, m at next level, right associativity) : run_scope.
Notation "m ;; k" := (bind m (fun _ => k))
  (at level 61, right associativity) : run_scope.
Local Open Scope run_scope.

(** [try { body } catch (error) { handler }]. *)
Definition tryCatch {W A} (body : M W A) (handler : Error -> M W A) : M W A :=
  fun w =>
    let r := body w in
    match res r with
    | Ok _ => r
    | Err e =>
        let r' := handler e (final r) in
        {| res := res r'; final := final r'; events := (events r ++ events r')%list |}
    end.

(** [try { body } finally { finalizer }]: the finalizer runs however the body
    completes, and the completion of the body stands unless the finalizer
    raises. *)
Definition tryFinally {W A} (body : M W A) (finalizer : M W unit) : M W A :=
  fun w =>
    let r := body w in
    let r' := finalizer (final r) in
    {| res := match res r' with
              | Ok _ => res r
              | Err e => Err e
              end;
       final := final r';
       events := (events r ++ events r')%list |}.

(** [for (const x of l) { await f(x) }]. *)
Fixpoint forEach {W A} (l : list A) (f : A -> M W unit) : M W unit :=
  match l with
  | [] => ret tt
  | x :: l' => f x ;; forEach l' f
  end.

(** ** Collaborators *)

(** An operation of a collaborator: it returns or rejects with a message,
    and leaves a world. *)
Definition Op (W A : Type) : Type := W -> (string + A) * W.

(** [IGitCommandManager] of [git-command-manager], the methods this file
    uses. *)
Record IGitCommandManager (W : Type) : Type := {
  branchDelete : bool -> string -> Op W unit;
  branchList : bool -> Op W (list string);
  checkout : string -> option string -> Op W unit;
  checkoutDetach : Op W unit;
  config : string -> string -> Op W unit;
  configExists : string -> Op W bool;
  fetch : Z -> list string -> Op W unit;
  getWorkingDirectory : string;
  init : Op W unit;
  isDetached : Op W bool;
  lfsFetch : string -> Op W unit;
  lfsInstall : Op W unit;
  log1 : Op W unit;
  remoteAdd : string -> string -> Op W unit;
  tryClean : Op W bool;
  tryConfigUnset : string -> Op W bool;
  tryDisableAutomaticGarbageCollection : Op W bool;
  tryGetFetchUrl : Op W string;
  tryReset : Op W bool
}.
Arguments branchDelete {W} i _ _ _.
Arguments branchList {W} i _ _.
Arguments checkout {W} i _ _ _.
Arguments checkoutDetach {W} i _.
Arguments config {W} i _ _ _.
Arguments configExists {W} i _ _.
Arguments fetch {W} i _ _ _.
Arguments getWorkingDirectory {W} i.
Arguments init {W} i _.
Arguments isDetached {W} i _.
Arguments lfsFetch {W} i _ _.
Arguments lfsInstall {W} i _.
Arguments log1 {W} i _.
Arguments remoteAdd {W} i _ _ _.
Arguments tryClean {W} i _.
Arguments tryConfigUnset {W} i _ _.
Arguments tryDisableAutomaticGarbageCollection {W} i _.
Arguments tryGetFetchUrl {W} i _.
Arguments tryReset {W} i _.

(** Everything else the file imports. *)
Record Env (W : Type) : Type := {
  (* globals and [path] *)
  encodeURIComponent : string -> string;
  join : list string -> string;
  (* fs-helper *)
  fileExistsSync : string -> Op W bool;
  directoryExistsSync : string -> Op W bool;
  (* @actions/io *)
  rmRF : string -> Op W unit;
  mkdirP : string -> Op W unit;
  (* fs.promises *)
  readdir : string -> Op W (list string);
  readFile : string -> Op W string;
  writeFile : string -> string -> Op W unit;
  (* git-command-manager *)
  createCommandManager : string -> bool -> Op W (IGitCommandManager W);
  MinimumGitVersion : string;
  (* github-api-helper *)
  downloadRepository :
    string -> string -> string -> string -> string -> string -> Op W unit;
  (* ref-helper *)
  getRefSpec : string -> string -> Op W (list string);
  getCheckoutInfo :
    IGitCommandManager W -> string -> string -> Op W ICheckoutInfo.t;
  (* state-helper *)
  setRepositoryPath : string -> Op W unit
}.
Arguments encodeURIComponent {W} e _.
Arguments join {W} e _.
Arguments fileExistsSync {W} e _ _.
Arguments directoryExistsSync {W} e _ _.
Arguments rmRF {W} e _ _.
Arguments mkdirP {W} e _ _.
Arguments readdir {W} e _ _.
Arguments readFile {W} e _ _.
Arguments writeFile {W} e _ _ _.
Arguments createCommandManager {W} e _ _ _.
Arguments MinimumGitVersion {W} e.
Arguments downloadRepository {W} e _ _ _ _ _ _ _.
Arguments getRefSpec {W} e _ _ _.
Arguments getCheckoutInfo {W} e _ _ _ _.
Arguments setRepositoryPath {W} e _ _.

(** A call to a collaborator: the operation acts on the world, a rejection
    becomes a raised error, and the call is recorded with its outcome. *)
Definition call {W A} (c : Call) (inj : A -> Value) (op : Op W A) : M W A :=
  fun w =>
    match op w with
    | (inr a, w') =>
        {| res := Ok a; final := w'; events := [Ev c (Returned (inj a))] |}
    | (inl m, w') =>
        {| res := Err (Rejected m); final := w'; events := [Ev c (Raised m)] |}
    end.

(** A line written through [@actions/core]; it leaves the world alone. *)
Definition core {W} (ch : Channel) (text : string) : M W unit :=
  fun w => {| res := Ok tt; final := w; events := [Core ch text] |}.

Definition VNone (_ : unit) : Value := VUnit.
Definition VTheGit {W} (_ : IGitCommandManager W) : Value := VGit.

(* ===================================================================== *)
(** * The program *)
(* ===================================================================== *)

Section Program.

Context {W : Type}.
Variable env : Env W.

Local Abbreviation Git := (IGitCommandManager W).

(** ** The collaborators as the file calls them *)

Definition core_info (text : string) : M W unit := core Info text.
Definition core_debug (text : string) : M W unit := core Debug text.
Definition core_warning (text : string) : M W unit := core Warning text.
Definition core_setSecret (text : string) : M W unit := core Secret text.

Definition path_join (segments : list string) : string := join env segments.

Definition fsHelper_fileExistsSync (path : string) : M W bool :=
  call (FileExistsSync path) VBool (fileExistsSync env path).
Definition fsHelper_directoryExistsSync (path : string) : M W bool :=
  call (DirectoryExistsSync path) VBool (directoryExistsSync env path).
Definition io_rmRF (path : string) : M W unit :=
  call (RmRF path) VNone (rmRF env path).
Definition io_mkdirP (path : string) : M W unit :=
  call (MkdirP path) VNone (mkdirP env path).
Definition fs_readdir (path : string) : M W (list string) :=
  call (Readdir path) VStrings (readdir env path).
Definition fs_readFile (path : string) : M W string :=
  call (ReadFile path) VString (readFile env path).
Definition fs_writeFile (path content : string) : M W unit :=
  call (WriteFile path content) VNone (writeFile env path content).
Definition gitCommandManager_CreateCommandManager
    (workingDirectory : string) (lfs : bool) : M W Git :=
  call (CreateCommandManager workingDirectory lfs) VTheGit
    (createCommandManager env workingDirectory lfs).
Definition githubApiHelper_downloadRepository
    (authToken owner repo ref commit repositoryPath : string) : M W unit :=
  call (DownloadRepository authToken owner repo ref commit repositoryPath) VNone
    (downloadRepository env authToken owner repo ref commit repositoryPath).
Definition refHelper_getRefSpec (ref commit : string) : M W (list string) :=
  call (GetRefSpec ref commit) VStrings (getRefSpec env ref commit).
Definition refHelper_getCheckoutInfo (git : Git) (ref commit : string)
  : M W ICheckoutInfo.t :=
  call (GetCheckoutInfo ref commit) VCheckoutInfo (getCheckoutInfo env git ref commit).
Definition stateHelper_setRepositoryPath (repositoryPath : string) : M W unit :=
  call (SetRepositoryPath repositoryPath) VNone (setRepositoryPath env repositoryPath).

Definition git_branchDelete (git : Git) (remote : bool) (branch : string) : M W unit :=
  call (BranchDelete remote branch) VNone (branchDelete git remote branch).
Definition git_branchList (git : Git) (remote : bool) : M W (list string) :=
  call (BranchList remote) VStrings (branchList git remote).
Definition git_checkout (git : Git) (ref : string) (startPoint : option string)
  : M W unit :=
  call (Checkout ref startPoint) VNone (checkout git ref startPoint).
Definition git_checkoutDetach (git : Git) : M W unit :=
  call CheckoutDetach VNone (checkoutDetach git).
Definition git_config (git : Git) (configKey configValue : string) : M W unit :=
  call (Config configKey configValue) VNone (config git configKey configValue).
Definition git_configExists (git : Git) (configKey : string) : M W bool :=
  call (ConfigExists configKey) VBool (configExists git configKey).
Definition git_fetch (git : Git) (fetchDepth : Z) (refSpec : list string) : M W unit :=
  call (Fetch fetchDepth refSpec) VNone (fetch git fetchDepth refSpec).
Definition git_init (git : Git) : M W unit :=
  call Init VNone (init git).
Definition git_isDetached (git : Git) : M W bool :=
  call IsDetached VBool (isDetached git).
Definition git_lfsFetch (git : Git) (ref : string) : M W unit :=
  call (LfsFetch ref) VNone (lfsFetch git ref).
Definition git_lfsInstall (git : Git) : M W unit :=
  call LfsInstall VNone (lfsInstall git).
Definition git_log1 (git : Git) : M W unit :=
  call Log1 VNone (log1 git).
Definition git_remoteAdd (git : Git) (remoteName remoteUrl : string) : M W unit :=
  call (RemoteAdd remoteName remoteUrl) VNone (remoteAdd git remoteName remoteUrl).
Definition git_tryClean (git : Git) : M W bool :=
  call TryClean VBool (tryClean git).
Definition git_tryConfigUnset (git : Git) (configKey : string) : M W bool :=
  call (TryConfigUnset configKey) VBool (tryConfigUnset git configKey).
Definition git_tryDisableAutomaticGarbageCollection (git : Git) : M W bool :=
  call TryDisableAutomaticGarbageCollection VBool
    (tryDisableAutomaticGarbageCollection git).
Definition git_tryGetFetchUrl (git : Git) : M W string :=
  call TryGetFetchUrl VString (tryGetFetchUrl git).
Definition git_tryReset (git : Git) : M W bool :=
  call TryReset VBool (tryReset git).

(** ** Constants, lines 12-13 and 271 *)

Definition serverUrl : string := "https://github.com/".
Definition authConfigKey : string := "http." ++ serverUrl ++ ".extraheader".
Definition placeholder : string := "AUTHORIZATION: basic ***".

(** The header value [configureAuthToken] puts in place of the placeholder,
    lines 275-278 and 293. *)
Definition basicCredential (authToken : string) : string :=
  JS.base64 ("x-access-token:" ++ authToken).
Definition authHeader (authToken : string) : string :=
  "AUTHORIZATION: basic " ++ basicCredential authToken.

(** ** [removeGitConfig], lines 298-309 *)

Definition removeGitConfig (git : Git) (configKey : string) : M W unit :=
  found <- git_configExists git configKey ;;
  if found then
    unset <- git_tryConfigUnset git configKey ;;
    if negb unset then
      core_warning ("Failed to remove '" ++ configKey ++ "' from the git config")
    else ret tt
  else ret tt.

(** ** [configureAuthToken], lines 264-296 *)

Definition configureAuthToken (git : Git) (authToken : string) : M W unit :=
  git_config git authConfigKey placeholder ;;
  core_setSecret (basicCredential authToken) ;;
  let configPath := path_join [getWorkingDirectory git; ".git"; "config"] in
  content <- fs_readFile configPath ;;
  let placeholderIndex := JS.indexOf content placeholder in
  if (placeholderIndex <? 0)%Z
     || negb (placeholderIndex =? JS.lastIndexOf content placeholder)%Z
  then throw (Thrown "Unable to replace auth placeholder in .git/config")
  else fs_writeFile configPath (JS.replace content placeholder (authHeader authToken)).

(** ** [prepareExistingDirectory], lines 179-262 *)

(** The two lock files of lines 199-202. *)
Definition lockPaths (repositoryPath : string) : list string :=
  [ path_join [repositoryPath; ".git"; "index.lock"];
    path_join [repositoryPath; ".git"; "shallow.lock"] ].

Definition cleanFailedText (repositoryPath : string) : string :=
  "The clean command failed. This might be caused by: 1) path too long, 2) permission issue, or 3) file in use. For futher investigation, manually run 'git clean -ffdx' on the directory '"
  ++ repositoryPath ++ "'.".

Definition prepareExistingDirectory
    (git : option Git) (repositoryPath repositoryUrl : string) (clean : bool)
  : M W unit :=
  remove <-
    match git with
    (* Check whether using git or REST API *)
    | None => ret true
    | Some git =>
        hasGitDir <- fsHelper_directoryExistsSync (path_join [repositoryPath; ".git"]) ;;
        mismatch <-
          (if negb hasGitDir then ret true
           else fetchUrl <- git_tryGetFetchUrl git ;;
                ret (negb (String.eqb repositoryUrl fetchUrl))) ;;
        (* Fetch URL does not match *)
        if mismatch then ret true
        else
          (* Delete any index.lock and shallow.lock *)
          forEach (lockPaths repositoryPath) (fun lockPath =>
            tryCatch (io_rmRF lockPath)
              (fun error =>
                 core_debug ("Unable to delete '" ++ lockPath ++ "'. " ++ message error))) ;;
          tryCatch
            ((* Checkout detached HEAD *)
             detached <- git_isDetached git ;;
             (if negb detached then git_checkoutDetach git else ret tt) ;;
             (* Remove all refs/heads/* *)
             branches <- git_branchList git false ;;
             forEach branches (fun branch => git_branchDelete git false branch) ;;
             (* Remove all refs/remotes/origin/* to avoid conflicts *)
             branches <- git_branchList git true ;;
             forEach branches (fun branch => git_branchDelete git true branch) ;;
             (* Clean *)
             if clean then
               cleaned <- git_tryClean git ;;
               remove <-
                 (if negb cleaned then
                    core_debug (cleanFailedText repositoryPath) ;;
                    ret true
                  else
                    reset <- git_tryReset git ;;
                    ret (negb reset)) ;;
               (if remove : bool then
                  core_warning "Unable to clean or reset the repository. The repository will be recreated instead."
                else ret tt) ;;
               ret remove
             else ret false)
            (fun error =>
               core_warning "Unable to prepare the existing repository. The repository will be recreated instead." ;;
               ret true)
    end ;;
  if remove : bool then
    (* Delete the contents of the directory. Don't delete the directory itself *)
    core_info ("Deleting the contents of '" ++ repositoryPath ++ "'") ;;
    files <- fs_readdir repositoryPath ;;
    forEach files (fun file => io_rmRF (path_join [repositoryPath; file]))
  else ret tt.

(** ** [getGitCommandManager], lines 158-177 *)

Definition getGitCommandManager (settings : ISourceSettings) : M W (option Git) :=
  core_info ("Working directory is '" ++ repositoryPath settings ++ "'") ;;
  tryCatch
    (git <- gitCommandManager_CreateCommandManager
              (repositoryPath settings) (lfs settings) ;;
     ret (Some git))
    (fun err =>
       (* Git is required for LFS *)
       if lfs settings then throw err
       (* Otherwise fallback to REST API *)
       else ret None).

(** ** [getSource], lines 28-136 *)

Definition getSource (settings : ISourceSettings) : M W unit :=
  (* Repository URL *)
  core_info ("Syncing repository: " ++ repositoryOwner settings ++ "/"
             ++ repositoryName settings) ;;
  let repositoryUrl :=
    "https://github.com/" ++ encodeURIComponent env (repositoryOwner settings)
    ++ "/" ++ encodeURIComponent env (repositoryName settings) in
  (* Remove conflicting file path *)
  isFile <- fsHelper_fileExistsSync (repositoryPath settings) ;;
  (if isFile : bool then io_rmRF (repositoryPath settings) else ret tt) ;;
  (* Create directory *)
  isDirectory <- fsHelper_directoryExistsSync (repositoryPath settings) ;;
  isExisting <-
    (if negb isDirectory then io_mkdirP (repositoryPath settings) ;; ret false
     else ret true) ;;
  (* Git command manager *)
  git <- getGitCommandManager settings ;;
  (* Prepare existing directory, otherwise recreate *)
  (if isExisting : bool then
     prepareExistingDirectory git (repositoryPath settings) repositoryUrl
       (clean settings)
   else ret tt) ;;
  match git with
  | None =>
      (* Downloading using REST API *)
      core_info "The repository will be downloaded using the GitHub REST API" ;;
      core_info ("To create a local Git repository instead, add Git "
                 ++ MinimumGitVersion env ++ " or higher to the PATH") ;;
      githubApiHelper_downloadRepository
        (authToken settings) (repositoryOwner settings) (repositoryName settings)
        (ref settings) (commit settings) (repositoryPath settings)
  | Some git =>
      (* Save state for POST action *)
      stateHelper_setRepositoryPath (repositoryPath settings) ;;
      (* Initialize the repository *)
      hasGitDir <- fsHelper_directoryExistsSync
                     (path_join [repositoryPath settings; ".git"]) ;;
      (if negb hasGitDir then
         git_init git ;;
         git_remoteAdd git "origin" repositoryUrl
       else ret tt) ;;
      (* Disable automatic garbage collection *)
      disabled <- git_tryDisableAutomaticGarbageCollection git ;;
      (if negb disabled then
         core_warning "Unable to turn off git automatic garbage collection. The git fetch operation may trigger garbage collection and cause a delay."
       else ret tt) ;;
      (* Remove possible previous extraheader *)
      removeGitConfig git authConfigKey ;;
      tryFinally
        ((* Config extraheader *)
         configureAuthToken git (authToken settings) ;;
         (* LFS install *)
         (if lfs settings then git_lfsInstall git else ret tt) ;;
         (* Fetch *)
         refSpec <- refHelper_getRefSpec (ref settings) (commit settings) ;;
         git_fetch git (fetchDepth settings) refSpec ;;
         (* Checkout info *)
         checkoutInfo <- refHelper_getCheckoutInfo git (ref settings) (commit settings) ;;
         (* LFS fetch *)
         (if lfs settings then
            git_lfsFetch git
              (JS_or (ICheckoutInfo.startPoint checkoutInfo)
                     (ICheckoutInfo.ref checkoutInfo))
          else ret tt) ;;
         (* Checkout *)
         git_checkout git (ICheckoutInfo.ref checkoutInfo)
           (ICheckoutInfo.startPoint checkoutInfo) ;;
         (* Dump some info about the checked out commit *)
         git_log1 git)
        (if negb (persistCredentials settings) then
           removeGitConfig git authConfigKey
         else ret tt)
  end.

(** ** [cleanup], lines 138-156 *)

Definition cleanup (repositoryPath : string) : M W unit :=
  (* Repo exists? *)
  if String.eqb repositoryPath EmptyString then ret tt
  else
    hasConfig <- fsHelper_fileExistsSync (path_join [repositoryPath; ".git"; "config"]) ;;
    if negb hasConfig then ret tt
    else
      git <- tryCatch
               (git <- gitCommandManager_CreateCommandManager repositoryPath false ;;
                ret (Some git))
               (fun _ => ret None) ;;
      match git with
      | None => ret tt
      | Some git =>
          (* Remove extraheader *)
          removeGitConfig git authConfigKey
      end.

End Program.

Arguments getSource {W} env settings _.
Arguments cleanup {W} env repositoryPath _.
Arguments getGitCommandManager {W} env settings _.
Arguments prepareExistingDirectory {W} env git repositoryPath repositoryUrl clean _.
Arguments configureAuthToken {W} env git authToken _.
Arguments removeGitConfig {W} git configKey _.

(* ===================================================================== *)
(** * Vocabulary of the statements *)
(* ===================================================================== *)

(** A run with some events put in front. *)
Definition prepend {W A} (evs : list Event) (r : Run W A) : Run W A :=
  {| res := res r; final := final r; events := evs ++ events r |}.

(** An event that records a rejection. *)
Definition raised (e : Event) : bool :=
  match e with
  | Ev _ (Raised _) => true
  | _ => false
  end.

(** The event of a call that satisfies [p], whatever its outcome. *)
Definition calls (p : Call -> bool) (e : Event) : bool :=
  match e with
  | Ev c _ => p c
  | Core _ _ => false
  end.

(** The gateway operations of the reuse attempt, lines 212-238. *)
Definition reuseCall (c : Call) : bool :=
  match c with
  | IsDetached | CheckoutDetach | BranchList _ | BranchDelete _ _
  | TryClean | TryReset => true
  | _ => false
  end.

(** The calls that read or write the configuration of the repository, and
    the one that records the path for [cleanup]. *)
Definition configCall (c : Call) : bool :=
  match c with
  | Config _ _ | ConfigExists _ | TryConfigUnset _
  | ReadFile _ | WriteFile _ _ | SetRepositoryPath _ => true
  | _ => false
  end.

(** The methods of the gateway. *)
Definition gatewayCall (c : Call) : bool :=
  match c with
  | BranchDelete _ _ | BranchList _ | Checkout _ _ | CheckoutDetach
  | Config _ _ | ConfigExists _ | Fetch _ _ | Init | IsDetached | LfsFetch _
  | LfsInstall | Log1 | RemoteAdd _ _ | TryClean | TryConfigUnset _
  | TryDisableAutomaticGarbageCollection | TryGetFetchUrl | TryReset
  | GetCheckoutInfo _ _ => true
  | _ => false
  end.

(** What [rmRF] of the entries [names] of [path], one after the other and up
    to the first rejection, leaves in the events and gives as a result. *)
Fixpoint deletion (join : list string -> string) (path : string)
    (names : list string) (evs : list Event) (r : Result unit) : Prop :=
  match names with
  | [] => evs = [] /\ r = Ok tt
  | name :: names' =>
      exists o evs',
        evs = Ev (RmRF (join [path; name])) o :: evs' /\
        match o with
        | Returned _ => deletion join path names' evs' r
        | Raised m => evs' = [] /\ r = Err (Rejected m)
        end
  end.

(** [settings] with another token. *)
Definition withToken (settings : ISourceSettings) (token : string) : ISourceSettings :=
  {| repositoryPath := repositoryPath settings;
     repositoryOwner := repositoryOwner settings;
     repositoryName := repositoryName settings;
     ref := ref settings;
     commit := commit settings;
     clean := clean settings;
     fetchDepth := fetchDepth settings;
     lfs := lfs settings;
     authToken := token;
     persistCredentials := persistCredentials settings |}.

(** An event without what depends on the token: the token given to the
    download, and what the download answers. *)
Definition redact (e : Event) : Event :=
  match e with
  | Ev (DownloadRepository _ owner repo ref commit path) _ =>
      Ev (DownloadRepository EmptyString owner repo ref commit path) (Returned VUnit)
  | _ => e
  end.

(** ** The parts of [getSource] *)

Section Parts.

Context {W : Type}.
Variable env : Env W.

(** Line 33. *)
Definition repositoryUrlOf (settings : ISourceSettings) : string :=
  "https://github.com/" ++ encodeURIComponent env (repositoryOwner settings)
  ++ "/" ++ encodeURIComponent env (repositoryName settings).

(** Lines 37-47: the path is made a directory; the result is [isExisting]. *)
Definition enterDirectory (settings : ISourceSettings) : M W bool :=
  (isFile <- fsHelper_fileExistsSync env (repositoryPath settings) ;;
   (if isFile : bool then io_rmRF env (repositoryPath settings) else ret tt) ;;
   isDirectory <- fsHelper_directoryExistsSync env (repositoryPath settings) ;;
   if negb isDirectory then io_mkdirP env (repositoryPath settings) ;; ret false
   else ret true)%run.

(** Lines 63-75. *)
Definition downloadFallback (settings : ISourceSettings) : M W unit :=
  (core_info "The repository will be downloaded using the GitHub REST API" ;;
   core_info ("To create a local Git repository instead, add Git "
              ++ MinimumGitVersion env ++ " or higher to the PATH") ;;
   githubApiHelper_downloadRepository env
     (authToken settings) (repositoryOwner settings) (repositoryName settings)
     (ref settings) (commit settings) (repositoryPath settings))%run.

(** Lines 77-96. *)
Definition setUp (git : IGitCommandManager W) (settings : ISourceSettings) : M W unit :=
  (stateHelper_setRepositoryPath env (repositoryPath settings) ;;
   hasGitDir <- fsHelper_directoryExistsSync env
                  (path_join env [repositoryPath settings; ".git"]) ;;
   (if negb hasGitDir then
      git_init git ;;
      git_remoteAdd git "origin" (repositoryUrlOf settings)
    else ret tt) ;;
   disabled <- git_tryDisableAutomaticGarbageCollection git ;;
   (if negb disabled then
      core_warning "Unable to turn off git automatic garbage collection. The git fetch operation may trigger garbage collection and cause a delay."
    else ret tt) ;;
   removeGitConfig git authConfigKey)%run.

(** Lines 118-129: what follows the resolution of the checkout target. *)
Definition checkoutResolved (git : IGitCommandManager W)
    (settings : ISourceSettings) (checkoutInfo : ICheckoutInfo.t) : M W unit :=
  ((if lfs settings then
      git_lfsFetch git
        (JS_or (ICheckoutInfo.startPoint checkoutInfo) (ICheckoutInfo.ref checkoutInfo))
    else ret tt) ;;
   git_checkout git (ICheckoutInfo.ref checkoutInfo)
     (ICheckoutInfo.startPoint checkoutInfo) ;;
   git_log1 git)%run.

(** Lines 99-129: the body of the [try]. *)
Definition fetchAndCheckout (git : IGitCommandManager W) (settings : ISourceSettings)
  : M W unit :=
  (configureAuthToken env git (authToken settings) ;;
   (if lfs settings then git_lfsInstall git else ret tt) ;;
   refSpec <- refHelper_getRefSpec env (ref settings) (commit settings) ;;
   git_fetch git (fetchDepth settings) refSpec ;;
   checkoutInfo <- refHelper_getCheckoutInfo env git (ref settings) (commit settings) ;;
   checkoutResolved git settings checkoutInfo)%run.

(** Lines 131-133: the [finally]. *)
Definition releaseCredential (git : IGitCommandManager W) (settings : ISourceSettings)
  : M W unit :=
  if negb (persistCredentials settings) then removeGitConfig git authConfigKey
  else ret tt.

(** [getSource] by its parts. *)
Definition getSourceByParts (settings : ISourceSettings) : M W unit :=
  (core_info ("Syncing repository: " ++ repositoryOwner settings ++ "/"
              ++ repositoryName settings) ;;
   isExisting <- enterDirectory settings ;;
   git <- getGitCommandManager env settings ;;
   (if isExisting : bool then
      prepareExistingDirectory env git (repositoryPath settings)
        (repositoryUrlOf settings) (clean settings)
    else ret tt) ;;
   match git with
   | None => downloadFallback settings
   | Some git =>
       setUp git settings ;;
       tryFinally (fetchAndCheckout git settings) (releaseCredential git settings)
   end)%run.

End Parts.

Arguments checkoutResolved {W} git settings checkoutInfo _.
Arguments setUp {W} env git settings _.
Arguments releaseCredential {W} git settings _.

(** The probes of [cleanup]: the calls it makes outside any [try]. *)
Definition probeCall (c : Call) : bool :=
  match c with
  | FileExistsSync _ | ConfigExists _ | TryConfigUnset _ => true
  | _ => false
  end.

(** The warning of line 307 for the fixed key. *)
Definition removalWarning : string :=
  "Failed to remove '" ++ authConfigKey ++ "' from the git config".

Definition prepareFailedWarning : string :=
  "Unable to prepare the existing repository. The repository will be recreated instead.".

Definition cleanFailedWarning : string :=
  "Unable to clean or reset the repository. The repository will be recreated instead.".

Definition deletingText (repositoryPath : string) : string :=
  "Deleting the contents of '" ++ repositoryPath ++ "'".

Definition placeholderError : Error :=
  Thrown "Unable to replace auth placeholder in .git/config".

(** ** The parts of [prepareExistingDirectory] *)

Section Reconciler.

Context {W : Type}.
Variable env : Env W.

(** Lines 199-209. *)
Definition deleteLocks (repositoryPath : string) : M W unit :=
  forEach (lockPaths env repositoryPath) (fun lockPath =>
    tryCatch (io_rmRF env lockPath)
      (fun error =>
         core_debug ("Unable to delete '" ++ lockPath ++ "'. " ++ message error))).

(** Lines 212-227. *)
Definition detachAndPrune {A} (git : IGitCommandManager W) (k : M W A) : M W A :=
  (detached <- git_isDetached git ;;
   (if negb detached then git_checkoutDetach git else ret tt) ;;
   branches <- git_branchList git false ;;
   forEach branches (fun branch => git_branchDelete git false branch) ;;
   branches <- git_branchList git true ;;
   forEach branches (fun branch => git_branchDelete git true branch) ;;
   k)%run.

(** Lines 230-245: the new value of [remove]. *)
Definition cleanTree (git : IGitCommandManager W) (repositoryPath : string)
    (clean : bool) : M W bool :=
  (if clean then
     cleaned <- git_tryClean git ;;
     remove <-
       (if negb cleaned then
          core_debug (cleanFailedText repositoryPath) ;;
          ret true
        else
          reset <- git_tryReset git ;;
          ret (negb reset)) ;;
     (if remove : bool then core_warning cleanFailedWarning else ret tt) ;;
     ret remove
   else ret false)%run.

(** Lines 212-245: the body of the [try]. *)
Definition reuse (git : IGitCommandManager W) (repositoryPath : string)
    (clean : bool) : M W bool :=
  detachAndPrune git (cleanTree git repositoryPath clean).

(** Lines 254-261. *)
Definition clearDirectory (remove : bool) (repositoryPath : string) : M W unit :=
  (if remove then
     core_info (deletingText repositoryPath) ;;
     files <- fs_readdir env repositoryPath ;;
     forEach files (fun file => io_rmRF env (path_join env [repositoryPath; file]))
   else ret tt)%run.

(** Lines 198-261: what is done to a repository whose recorded URL is the
    expected one. *)
Definition reconcile (git : IGitCommandManager W) (repositoryPath : string)
    (clean : bool) : M W unit :=
  (remove <-
     (deleteLocks repositoryPath ;;
      tryCatch (reuse git repositoryPath clean)
        (fun error => core_warning prepareFailedWarning ;; ret true)) ;;
   clearDirectory remove repositoryPath)%run.

(** Lines 185-252: the value of [remove]. *)
Definition decideRemoval (git : option (IGitCommandManager W))
    (repositoryPath repositoryUrl : string) (clean : bool) : M W bool :=
  match git with
  | None => ret true
  | Some git =>
      (hasGitDir <- fsHelper_directoryExistsSync env
                      (path_join env [repositoryPath; ".git"]) ;;
       mismatch <-
         (if negb hasGitDir then ret true
          else fetchUrl <- git_tryGetFetchUrl git ;;
               ret (negb (String.eqb repositoryUrl fetchUrl))) ;;
       if mismatch : bool then ret true
       else
         deleteLocks repositoryPath ;;
         tryCatch (reuse git repositoryPath clean)
           (fun error => core_warning prepareFailedWarning ;; ret true))%run
  end.

(** [prepareExistingDirectory] by its parts. *)
Definition prepareByParts (git : option (IGitCommandManager W))
    (repositoryPath repositoryUrl : string) (clean : bool) : M W unit :=
  (remove <- decideRemoval git repositoryPath repositoryUrl clean ;;
   clearDirectory remove repositoryPath)%run.

End Reconciler.

Arguments detachAndPrune {W A} git k _.
Arguments cleanTree {W} git repositoryPath clean _.
Arguments reuse {W} git repositoryPath clean _.

(** ** Kinds of calls *)

Definition isConfig (c : Call) : bool :=
  match c with Config _ _ => true | _ => false end.
Definition isCreate (c : Call) : bool :=
  match c with CreateCommandManager _ _ => true | _ => false end.
Definition isGetCheckoutInfo (c : Call) : bool :=
  match c with GetCheckoutInfo _ _ => true | _ => false end.
Definition isTryClean (c : Call) : bool :=
  match c with TryClean => true | _ => false end.
Definition isTryReset (c : Call) : bool :=
  match c with TryReset => true | _ => false end.
Definition cleanOrReset (c : Call) : bool :=
  match c with TryClean | TryReset => true | _ => false end.
Definition isReadFile (c : Call) : bool :=
  match c with ReadFile _ => true | _ => false end.
Definition isRmRF (c : Call) : bool :=
  match c with RmRF _ => true | _ => false end.
Definition isDownload (c : Call) : bool :=
  match c with DownloadRepository _ _ _ _ _ _ => true | _ => false end.
Definition isProbeOfRepository (c : Call) : bool :=
  match c with DirectoryExistsSync _ | TryGetFetchUrl => true | _ => false end.

(** The calls only [prepareExistingDirectory] makes. *)
Definition reconcilerCall (c : Call) : bool :=
  match c with
  | Readdir _ | TryGetFetchUrl | IsDetached | CheckoutDetach
  | BranchList _ | BranchDelete _ _ | TryClean | TryReset => true
  | _ => false
  end.

(** The events of the fallback: lines of text, the making of the directory,
    the failed construction of the gateway, the clearing of the directory and
    the download. *)
Definition fallbackEvent (e : Event) : bool :=
  match e with
  | Core _ _ => true
  | Ev (FileExistsSync _) _ | Ev (DirectoryExistsSync _) _ | Ev (RmRF _) _
  | Ev (MkdirP _) _ | Ev (CreateCommandManager _ _) (Raised _)
  | Ev (Readdir _) _ | Ev (DownloadRepository _ _ _ _ _ _) _ => true
  | _ => false
  end.

(** A rejected call of the reuse attempt. *)
Definition reuseRejected (e : Event) : bool :=
  raised e && calls reuseCall e.

(** The events of the pruning of lines 212-227 when nothing is rejected:
    the question, the detaching when the answer is no, and for the local and
    then the remote-tracking branches the listing and one deletion each. *)
Definition pruned (isDetached : bool) (locals remotes : list string) : list Event :=
  Ev IsDetached (Returned (VBool isDetached))
  :: (if isDetached then [] else [Ev CheckoutDetach (Returned VUnit)])
  ++ Ev (BranchList false) (Returned (VStrings locals))
  :: map (fun b => Ev (BranchDelete false b) (Returned VUnit)) locals
  ++ Ev (BranchList true) (Returned (VStrings remotes))
  :: map (fun b => Ev (BranchDelete true b) (Returned VUnit)) remotes.

(** The deletion of a lock file, or the line that reports its failure. *)
Definition lockEvent {W} (env : Env W) (repositoryPath : string) (e : Event) : bool :=
  match e with
  | Ev (RmRF p) _ => existsb (String.eqb p) (lockPaths env repositoryPath)
  | Core Debug _ => true
  | _ => false
  end.

(** A call of the pruning of lines 212-227. *)
Definition pruneEvent (e : Event) : bool :=
  calls reuseCall e && negb (calls cleanOrReset e).

(** ** [getSource] after the gateway *)

Section AfterGateway.

Context {W : Type}.
Variable env : Env W.

(** Lines 98-134: the bracket. *)
Definition credentialBracket (git : IGitCommandManager W) (settings : ISourceSettings)
  : M W unit :=
  tryFinally (fetchAndCheckout env git settings) (releaseCredential git settings).

(** Lines 62-135. *)
Definition synchronize (git : option (IGitCommandManager W))
    (settings : ISourceSettings) : M W unit :=
  match git with
  | None => downloadFallback env settings
  | Some git => (setUp env git settings ;; credentialBracket git settings)%run
  end.

(** Lines 52-135, for a value of [isExisting]. *)
Definition afterGateway (git : option (IGitCommandManager W)) (isExisting : bool)
    (settings : ISourceSettings) : M W unit :=
  ((if isExisting then
      prepareExistingDirectory env git (repositoryPath settings)
        (repositoryUrlOf env settings) (clean settings)
    else ret tt) ;;
   synchronize git settings)%run.


End AfterGateway.

Definition syncingText (settings : ISourceSettings) : string :=
  "Syncing repository: " ++ repositoryOwner settings ++ "/" ++ repositoryName settings.

Definition workingDirectoryText (settings : ISourceSettings) : string :=
  "Working directory is '" ++ repositoryPath settings ++ "'".

(** The call of [downloadRepository] for [settings]. *)
Definition downloadCall (settings : ISourceSettings) : Call :=
  DownloadRepository (authToken settings) (repositoryOwner settings)
    (repositoryName settings) (ref settings) (commit settings)
    (repositoryPath settings).

(** Neither the configuration nor the gateway is touched. *)
Definition leavesConfigAlone (e : Event) : bool :=
  negb (calls configCall e) && negb (calls gatewayCall e).

(** An event that is neither the writing of a configuration value nor the
    resolution of the checkout target: those two calls are made inside the
    bracket only. *)
Definition beforeBracket (e : Event) : bool :=
  negb (calls isConfig e) && negb (calls isGetCheckoutInfo e).

(** ** Properties of computations *)

Section Properties.

Context {W : Type}.

(** Every event [m] can cause satisfies [P]. *)
Definition emits (P : Event -> bool) {A} (m : M W A) : Prop :=
  forall w, forallb P (events (m w)) = true.

(** Every error of [m] is the rejection of a call that satisfies [Q], and
    that call is the last event. *)
Definition blames (Q : Call -> bool) {A} (m : M W A) : Prop :=
  forall w e,
    res (m w) = Err e ->
    exists pre c msg,
      events (m w) = (pre ++ [Ev c (Raised msg)])%list /\ e = Rejected msg /\ Q c = true.

(** An event that is not a rejection. *)
Definition quiet (e : Event) : bool := negb (raised e).

(** No event of a run that returns is a rejection, and a run that fails fails
    with the rejection of its last event, the only one. *)
Definition orderly {A} (m : M W A) : Prop :=
  forall w,
    match res (m w) with
    | Ok _ => forallb quiet (events (m w)) = true
    | Err e =>
        exists pre c msg,
          events (m w) = (pre ++ [Ev c (Raised msg)])%list /\
          forallb quiet pre = true /\ e = Rejected msg
    end.


End Properties.

(* ===================================================================== *)
(** * A simulated environment

    A small file system, a git whose configuration is the file
    [<dir>/.git/config] (one [key=value] per line), and two lists of calls
    that are made to fail.  It gives the general results concrete runs. *)
(* ===================================================================== *)

Module Sim.

Inductive Node : Type := Dir | File (content : string).

Record World : Type := {
  files : list (string * Node);
  gitInstalled : bool;
  detached : bool;
  branches : list (bool * string);
  resolves : ICheckoutInfo.t;
  raising : list Call;
  refusing : list Call;
  savedPath : option string
}.

Definition Call_eq_dec (a b : Call) : {a = b} + {a <> b}.
Proof.
  pose proof string_dec; pose proof bool_dec; pose proof Z.eq_dec.
  pose proof (list_eq_dec string_dec).
  assert (forall x y : option string, {x = y} + {x <> y}) by decide equality.
  decide equality.
Defined.

Definition listed (c : Call) (l : list Call) : bool :=
  if in_dec Call_eq_dec c l then true else false.

Definition withFiles (w : World) (fs : list (string * Node)) : World :=
  {| files := fs; gitInstalled := gitInstalled w; detached := detached w;
     branches := branches w; resolves := resolves w; raising := raising w;
     refusing := refusing w; savedPath := savedPath w |}.

Definition withDetached (w : World) (d : bool) : World :=
  {| files := files w; gitInstalled := gitInstalled w; detached := d;
     branches := branches w; resolves := resolves w; raising := raising w;
     refusing := refusing w; savedPath := savedPath w |}.

Definition withBranches (w : World) (bs : list (bool * string)) : World :=
  {| files := files w; gitInstalled := gitInstalled w; detached := detached w;
     branches := bs; resolves := resolves w; raising := raising w;
     refusing := refusing w; savedPath := savedPath w |}.

Definition withSavedPath (w : World) (p : string) : World :=
  {| files := files w; gitInstalled := gitInstalled w; detached := detached w;
     branches := branches w; resolves := resolves w; raising := raising w;
     refusing := refusing w; savedPath := Some p |}.

(** An operation that rejects when its call is listed in [raising]. *)
Definition op {A} (c : Call) (k : World -> (string + A) * World) : Op World A :=
  fun w => if listed c (raising w) then (inl "simulated failure", w) else k w.

(** ** Files *)

Fixpoint lookup (p : string) (fs : list (string * Node)) : option Node :=
  match fs with
  | [] => None
  | (q, n) :: fs' => if String.eqb p q then Some n else lookup p fs'
  end.

Fixpoint store (p : string) (n : Node) (fs : list (string * Node))
  : list (string * Node) :=
  match fs with
  | [] => [(p, n)]
  | (q, m) :: fs' => if String.eqb p q then (p, n) :: fs' else (q, m) :: store p n fs'
  end.

Definition under (p q : string) : bool := prefix (p ++ "/") q.

Definition remove (p : string) (fs : list (string * Node)) : list (string * Node) :=
  filter (fun e => negb (String.eqb p (fst e) || under p (fst e))) fs.

Fixpoint hasSlash (s : string) : bool :=
  match s with
  | EmptyString => false
  | String c s' => Ascii.eqb c "/" || hasSlash s'
  end.

Definition childName (p q : string) : option string :=
  if under p q then
    let name := substring (S (String.length p)) (String.length q) q in
    if hasSlash name then None else Some name
  else None.

Fixpoint children (p : string) (fs : list (string * Node)) : list string :=
  match fs with
  | [] => []
  | (q, _) :: fs' =>
      match childName p q with
      | Some name => name :: children p fs'
      | None => children p fs'
      end
  end.

Definition isFile (p : string) (w : World) : bool :=
  match lookup p (files w) with Some (File _) => true | _ => false end.

Definition isDir (p : string) (w : World) : bool :=
  match lookup p (files w) with Some Dir => true | _ => false end.

(** ** The configuration file *)

Definition LF : ascii := ascii_of_nat 10.

Fixpoint splitLines (s : string) : list string :=
  match s with
  | EmptyString => [EmptyString]
  | String c s' =>
      if Ascii.eqb c LF then EmptyString :: splitLines s'
      else match splitLines s' with
           | h :: t => String c h :: t
           | [] => [String c EmptyString]
           end
  end.

(** A line: no line feed in it. *)
Fixpoint noLF (s : string) : bool :=
  match s with
  | EmptyString => true
  | String c s' => negb (Ascii.eqb c LF) && noLF s'
  end.

(** A line of the configuration file: not empty, and without a line feed. *)
Definition goodLine (l : string) : Prop := noLF l = true /\ l <> EmptyString.

Definition configLines (content : string) : list string :=
  filter (fun l => negb (String.eqb l EmptyString)) (splitLines content).

Fixpoint unlines (ls : list string) : string :=
  match ls with
  | [] => EmptyString
  | l :: ls' => l ++ String LF (unlines ls')
  end.

Definition holds (key line : string) : bool := prefix (key ++ "=") line.

Definition configPath (dir : string) : string := dir ++ "/.git/config".

Definition configContent (dir : string) (w : World) : option string :=
  match lookup (configPath dir) (files w) with
  | Some (File c) => Some c
  | _ => None
  end.

(** Whether the configuration of the repository in [dir] has an entry under
    [key]. *)
Definition hasKey (dir key : string) (w : World) : bool :=
  match configContent dir w with
  | Some c => existsb (holds key) (configLines c)
  | None => false
  end.

Definition valueOf (key : string) (ls : list string) : string :=
  match find (holds key) ls with
  | Some l => substring (S (String.length key)) (String.length l) l
  | None => EmptyString
  end.

Definition setKey (dir key value : string) (w : World) : (string + unit) * World :=
  match configContent dir w with
  | Some c =>
      let ls := filter (fun l => negb (holds key l)) (configLines c) in
      (inr tt,
       withFiles w (store (configPath dir)
                      (File (unlines (ls ++ [key ++ "=" ++ value]))) (files w)))
  | None => (inl "fatal: not in a git directory", w)
  end.

Definition unsetKey (dir key : string) (w : World) : (string + bool) * World :=
  match configContent dir w with
  | Some c =>
      if existsb (holds key) (configLines c) then
        (inr true,
         withFiles w (store (configPath dir)
                        (File (unlines (filter (fun l => negb (holds key l))
                                          (configLines c)))) (files w)))
      else (inr false, w)
  | None => (inr false, w)
  end.

(** ** The gateway on a directory *)

Definition refuses (c : Call) (w : World) : bool := listed c (refusing w).

Definition git (dir : string) : IGitCommandManager World := {|
  branchDelete := fun remote branch =>
    op (BranchDelete remote branch) (fun w =>
      (inr tt,
       withBranches w
         (filter (fun b => negb (Bool.eqb (fst b) remote && String.eqb (snd b) branch))
                 (branches w))));
  branchList := fun remote =>
    op (BranchList remote) (fun w =>
      (inr (map snd (filter (fun b => Bool.eqb (fst b) remote) (branches w))), w));
  checkout := fun ref startPoint =>
    op (Checkout ref startPoint) (fun w => (inr tt, withDetached w false));
  checkoutDetach := op CheckoutDetach (fun w => (inr tt, withDetached w true));
  config := fun key value => op (Config key value) (setKey dir key value);
  configExists := fun key =>
    op (ConfigExists key) (fun w => (inr (hasKey dir key w), w));
  fetch := fun depth refSpec => op (Fetch depth refSpec) (fun w => (inr tt, w));
  getWorkingDirectory := dir;
  init :=
    op Init (fun w =>
      (inr tt,
       withFiles w (store (configPath dir) (File EmptyString)
                      (store (dir ++ "/.git") Dir (files w)))));
  isDetached := op IsDetached (fun w => (inr (detached w), w));
  lfsFetch := fun ref => op (LfsFetch ref) (fun w => (inr tt, w));
  lfsInstall := op LfsInstall (fun w => (inr tt, w));
  log1 := op Log1 (fun w => (inr tt, w));
  remoteAdd := fun name url =>
    op (RemoteAdd name url) (setKey dir ("remote." ++ name ++ ".url") url);
  tryClean := op TryClean (fun w => (inr (negb (refuses TryClean w)), w));
  tryConfigUnset := fun key =>
    op (TryConfigUnset key) (fun w =>
      if refuses (TryConfigUnset key) w then (inr false, w) else unsetKey dir key w);
  tryDisableAutomaticGarbageCollection :=
    op TryDisableAutomaticGarbageCollection (fun w =>
      (inr (negb (refuses TryDisableAutomaticGarbageCollection w)), w));
  tryGetFetchUrl :=
    op TryGetFetchUrl (fun w =>
      (inr (match configContent dir w with
            | Some c => valueOf "remote.origin.url" (configLines c)
            | None => EmptyString
            end), w));
  tryReset := op TryReset (fun w => (inr (negb (refuses TryReset w)), w))
|}.

(** ** The other collaborators *)

Definition env : Env World := {|
  encodeURIComponent := fun s => s;
  join := String.concat "/";
  fileExistsSync := fun p => op (FileExistsSync p) (fun w => (inr (isFile p w), w));
  directoryExistsSync := fun p =>
    op (DirectoryExistsSync p) (fun w => (inr (isDir p w), w));
  rmRF := fun p => op (RmRF p) (fun w => (inr tt, withFiles w (remove p (files w))));
  mkdirP := fun p =>
    op (MkdirP p) (fun w =>
      match lookup p (files w) with
      | Some Dir => (inr tt, w)
      | Some (File _) => (inl "EEXIST", w)
      | None => (inr tt, withFiles w (store p Dir (files w)))
      end);
  readdir := fun p =>
    op (Readdir p) (fun w =>
      if isDir p w then (inr (children p (files w)), w) else (inl "ENOTDIR", w));
  readFile := fun p =>
    op (ReadFile p) (fun w =>
      match lookup p (files w) with
      | Some (File c) => (inr c, w)
      | _ => (inl "ENOENT", w)
      end);
  writeFile := fun p c =>
    op (WriteFile p c) (fun w => (inr tt, withFiles w (store p (File c) (files w))));
  createCommandManager := fun dir lfs =>
    op (CreateCommandManager dir lfs) (fun w =>
      if gitInstalled w then (inr (git dir), w)
      else (inl "Unable to locate executable file: git", w));
  MinimumGitVersion := "2.18";
  downloadRepository := fun token owner repo ref commit p =>
    op (DownloadRepository token owner repo ref commit p) (fun w =>
      (inr tt, withFiles w (store (p ++ "/README.md") (File EmptyString) (files w))));
  getRefSpec := fun ref commit => op (GetRefSpec ref commit) (fun w => (inr [ref], w));
  getCheckoutInfo := fun _ ref commit =>
    op (GetCheckoutInfo ref commit) (fun w => (inr (resolves w), w));
  setRepositoryPath := fun p =>
    op (SetRepositoryPath p) (fun w => (inr tt, withSavedPath w p))
|}.

(** ** Sample inputs *)

Definition settings : ISourceSettings := {|
  repositoryPath := "/w";
  repositoryOwner := "acme";
  repositoryName := "widgets";
  ref := "refs/heads/main";
  commit := EmptyString;
  clean := true;
  fetchDepth := 1;
  lfs := false;
  authToken := "tok";
  persistCredentials := false
|}.

Definition mainInfo : ICheckoutInfo.t :=
  {| ICheckoutInfo.ref := "main";
     ICheckoutInfo.startPoint := Some "refs/remotes/origin/main" |}.

(** An empty directory [/w] on a machine with git. *)
Definition fresh : World := {|
  files := [("/w", Dir)];
  gitInstalled := true;
  detached := false;
  branches := [];
  resolves := mainInfo;
  raising := [];
  refusing := [];
  savedPath := None
|}.

(** The same machine without git. *)
Definition noGit : World := {|
  files := [("/w", Dir)];
  gitInstalled := false;
  detached := false;
  branches := [];
  resolves := mainInfo;
  raising := [];
  refusing := [];
  savedPath := None
|}.

Definition url : string := "https://github.com/acme/widgets".

(** A clone of the repository of [settings] in [/w], on the branch [main],
    with a file that is not tracked; [faults] are the calls that reject and
    [refusals] the ones that answer no. *)
Definition clone (faults refusals : list Call) : World := {|
  files := [("/w", Dir); ("/w/.git", Dir);
            ("/w/.git/config", File (unlines ["remote.origin.url=" ++ url]));
            ("/w/dirty.txt", File "work in progress")];
  gitInstalled := true;
  detached := false;
  branches := [(false, "main"); (true, "origin/main")];
  resolves := mainInfo;
  raising := faults;
  refusing := refusals;
  savedPath := None
|}.

(** A directory with two entries on a machine without git, where the first
    entry cannot be deleted. *)
Definition stubborn : World := {|
  files := [("/w", Dir); ("/w/a", File "1"); ("/w/b", File "2")];
  gitInstalled := false;
  detached := false;
  branches := [];
  resolves := mainInfo;
  raising := [RmRF "/w/a"];
  refusing := [];
  savedPath := None
|}.

(** A file where the directory should be. *)
Definition fileInTheWay : World := {|
  files := [("/w", File "not a directory")];
  gitInstalled := true;
  detached := false;
  branches := [];
  resolves := mainInfo;
  raising := [];
  refusing := [];
  savedPath := None
|}.

(** An empty directory, and a git that does not manage to unset a
    configuration entry. *)
Definition unsetFails : World := {|
  files := [("/w", Dir)];
  gitInstalled := true;
  detached := false;
  branches := [];
  resolves := mainInfo;
  raising := [];
  refusing := [TryConfigUnset authConfigKey];
  savedPath := None
|}.

(** An empty directory, and a resolver that gives an empty start point. *)
Definition emptyStartPoint : World := {|
  files := [("/w", Dir)];
  gitInstalled := true;
  detached := false;
  branches := [];
  resolves := {| ICheckoutInfo.ref := "main"; ICheckoutInfo.startPoint := Some EmptyString |};
  raising := [];
  refusing := [];
  savedPath := None
|}.

Definition lfsSettings : ISourceSettings := {|
  repositoryPath := "/w";
  repositoryOwner := "acme";
  repositoryName := "widgets";
  ref := "refs/heads/main";
  commit := EmptyString;
  clean := true;
  fetchDepth := 1;
  lfs := true;
  authToken := "tok";
  persistCredentials := false
|}.

(** A clone whose configuration holds the credential of an earlier run. *)
Definition withCredential (faults refusals : list Call) : World :=
  withFiles (clone faults refusals)
    (store "/w/.git/config"
       (File (unlines ["remote.origin.url=" ++ url;
                       authConfigKey ++ "=" ++ authHeader "tok"]))
       (files (clone faults refusals))).

End Sim.

(** The configuration file of the clone once the placeholder is written. *)
Definition placeholderConfig : string :=
  Sim.unlines ["remote.origin.url=" ++ Sim.url; authConfigKey ++ "=" ++ placeholder].

(** What the resolver of [Sim.emptyStartPoint] answers. *)
Definition emptyStartInfo : ICheckoutInfo.t :=
  {| ICheckoutInfo.ref := "main"; ICheckoutInfo.startPoint := Some EmptyString |}.

(* ===================================================================== *)
(** * More vocabulary and sample inputs *)
(* ===================================================================== *)

(** The two lines of lines 64-67. *)
Definition downloadingText : string :=
  "The repository will be downloaded using the GitHub REST API".

Definition addGitText {W} (env : Env W) : string :=
  "To create a local Git repository instead, add Git " ++ MinimumGitVersion env
  ++ " or higher to the PATH".

(** The configuration file of the clone once the credential is written. *)
Definition credentialConfig : string :=
  Sim.unlines ["remote.origin.url=" ++ Sim.url; authConfigKey ++ "=" ++ authHeader "tok"].

(** The clone that holds a credential, on a machine where the gateway cannot
    be constructed. *)
Definition cloneWithoutGit : Sim.World :=
  Sim.withCredential [CreateCommandManager "/w" false] [].

(* ===================================================================== *)
(** * Neighbouring events

    Statements on what comes right before or right after an event of a run:
    [linked P E prev l] holds when [P] accepts each event of [l] after the
    event before it ([prev] for the first one), and [E] accepts the last
    event as the end of the list. *)
(* ===================================================================== *)

Fixpoint linked (P : option Event -> Event -> Prop) (E : option Event -> Prop)
    (prev : option Event) (l : list Event) : Prop :=
  match l with
  | [] => E prev
  | e :: l' => P prev e /\ linked P E (Some e) l'
  end.

(** The events of every run of [m] are linked, after [prev]. *)
Definition links {W A} (P : option Event -> Event -> Prop) (E : option Event -> Prop)
    (prev : option Event) (m : M W A) : Prop :=
  forall w, linked P E prev (events (m w)).

(** An event that satisfies [Q] comes right after an event that [R] relates
    it to; it is never the first one. *)
Definition comesAfter (Q : Event -> bool) (R : Event -> Event -> Prop)
    (prev : option Event) (e : Event) : Prop :=
  Q e = true ->
  match prev with
  | Some p => R p e
  | None => False
  end.

Definition anyEnd (_ : option Event) : Prop := True.

(** An event that satisfies [Q] is followed at once by an event that [S]
    relates it to; it is never the last one. *)
Definition goesOn (Q : Event -> bool) (S : Event -> Event -> Prop)
    (prev : option Event) (e : Event) : Prop :=
  match prev with
  | Some p => Q p = true -> S p e
  | None => True
  end.

Definition notLast (Q : Event -> bool) (prev : option Event) : Prop :=
  match prev with
  | Some p => Q p = false
  | None => True
  end.

(** The warning of lines 90-92. *)
Definition gcWarning : string :=
  "Unable to turn off git automatic garbage collection. The git fetch operation may trigger garbage collection and cause a delay.".

(** The calls that only a run with [lfs] makes. *)
Definition lfsCall (c : Call) : bool :=
  match c with
  | LfsInstall | LfsFetch _ | CreateCommandManager _ true => true
  | _ => false
  end.

(** The calls of the bracket of lines 98-134, the removal of the credential
    apart. *)
Definition bracketCall (c : Call) : bool :=
  match c with
  | Config _ _ | ReadFile _ | WriteFile _ _ | LfsInstall | GetRefSpec _ _ | Fetch _ _
  | GetCheckoutInfo _ _ | LfsFetch _ | Checkout _ _ | Log1 => true
  | _ => false
  end.

Definition bracketEvent (e : Event) : bool :=
  match e with
  | Core Secret _ => true
  | Core _ _ => false
  | Ev c _ => bracketCall c
  end.

(** The calls of [removeGitConfig]. *)
Definition removalCall (c : Call) : bool :=
  match c with
  | ConfigExists _ | TryConfigUnset _ => true
  | _ => false
  end.

(** The calls that write in the configuration of the repository. *)
Definition writesConfig (c : Call) : bool :=
  match c with
  | Config _ _ | WriteFile _ _ => true
  | _ => false
  end.

(** An event of [removeGitConfig] for [authConfigKey]. *)
Definition removalEvent (e : Event) : bool :=
  match e with
  | Ev c _ => removalCall c
  | Core Warning t => String.eqb t removalWarning
  | Core _ _ => false
  end.

(** No event of a run of [m] that returns is a rejection. *)
Definition calm {W A} (m : M W A) : Prop :=
  forall w a, res (m w) = Ok a -> forallb quiet (events (m w)) = true.

(** What [cleanup] can cause for [path]: the probe of the configuration file,
    the construction of the gateway without LFS, the probe and the unsetting
    of [authConfigKey], and the warning of line 307. *)
Definition cleanupEvent {W} (env : Env W) (path : string) (e : Event) : bool :=
  match e with
  | Ev (FileExistsSync p) _ => String.eqb p (path_join env [path; ".git"; "config"])
  | Ev (CreateCommandManager p l) _ => String.eqb p path && negb l
  | Ev (ConfigExists k) _ | Ev (TryConfigUnset k) _ => String.eqb k authConfigKey
  | Core Warning t => String.eqb t removalWarning
  | _ => false
  end.

(** The attempt to delete the lock file [p], lines 203-209: the deletion
    returns, or it is rejected and the rejection is reported for debugging. *)
Definition lockAttempt (p : string) (l : list Event) : Prop :=
  l = [Ev (RmRF p) (Returned VUnit)] \/
  exists m, l = [Ev (RmRF p) (Raised m); Core Debug ("Unable to delete '" ++ p ++ "'. " ++ m)].

(** A clean or a reset that answers no. *)
Definition cleanRefused (e : Event) : bool :=
  match e with
  | Ev TryClean (Returned (VBool false)) | Ev TryReset (Returned (VBool false)) => true
  | _ => false
  end.

Definition isBranchDelete (c : Call) : bool :=
  match c with BranchDelete _ _ => true | _ => false end.

(* ===================================================================== *)
(** * More runs in the simulated environment *)
(* ===================================================================== *)

(** The settings of [Sim.settings] with [persistCredentials]. *)
Definition persistingSettings : ISourceSettings := {|
  repositoryPath := "/w";
  repositoryOwner := "acme";
  repositoryName := "widgets";
  ref := "refs/heads/main";
  commit := EmptyString;
  clean := true;
  fetchDepth := 1;
  lfs := false;
  authToken := "tok";
  persistCredentials := true
|}.

(** [getSource] in an empty directory, without and with LFS, and with
    [persistCredentials]. *)
Definition freshRun : Run Sim.World unit := getSource Sim.env Sim.settings Sim.fresh.
Definition lfsRun : Run Sim.World unit := getSource Sim.env Sim.lfsSettings Sim.fresh.
Definition persistingRun : Run Sim.World unit :=
  getSource Sim.env persistingSettings Sim.fresh.

(** [getSource] on a machine without git, without and with an entry that
    cannot be deleted. *)
Definition fallbackRun : Run Sim.World unit := getSource Sim.env Sim.settings Sim.noGit.
Definition stubbornRun : Run Sim.World unit := getSource Sim.env Sim.settings Sim.stubborn.

(** [getSource] on a path that is a file. *)
Definition replacedRun : Run Sim.World unit :=
  getSource Sim.env Sim.settings Sim.fileInTheWay.

(** [getSource] in the clone: as it is, with a git that cannot turn off the
    garbage collection, and with a fetch that is rejected. *)
Definition cloneRun : Run Sim.World unit := getSource Sim.env Sim.settings (Sim.clone [] []).
Definition gcRun : Run Sim.World unit :=
  getSource Sim.env Sim.settings (Sim.clone [] [TryDisableAutomaticGarbageCollection]).
Definition mainSpec : list string := ["refs/heads/main"].
Definition rejectedFetchRun : Run Sim.World unit :=
  getSource Sim.env Sim.settings (Sim.clone [Fetch 1 mainSpec] []).

(** [prepareExistingDirectory] in the clone, with [clean], on a branch and
    with a detached HEAD. *)
Definition reconciledRun : Run Sim.World unit :=
  prepareExistingDirectory Sim.env (Some (Sim.git "/w")) "/w" Sim.url true (Sim.clone [] []).
Definition detachedRun : Run Sim.World unit :=
  prepareExistingDirectory Sim.env (Some (Sim.git "/w")) "/w" Sim.url true
    (Sim.withDetached (Sim.clone [] []) true).

(** [cleanup] of the clone that holds a credential, with a git that unsets it
    and with a git that does not manage to. *)
Definition cleanedRun : Run Sim.World unit :=
  cleanup Sim.env "/w" (Sim.withCredential [] []).
Definition uncleanedRun : Run Sim.World unit :=
  cleanup Sim.env "/w" (Sim.withCredential [] [TryConfigUnset authConfigKey]).

(* ===================================================================== *)
(** * Facts about JavaScript strings *)
(* ===================================================================== *)

Module JSFacts.
Import JS.

Lemma prefix_empty p : prefix p EmptyString = true -> p = EmptyString.
Proof. destruct p; simpl; [reflexivity | discriminate]. Qed.

Lemma indexOfFrom_ge p s : forall i j, indexOfFrom p s i = Some j -> i <= j.
Proof.
  induction s as [|c s IH]; intros i j; cbn [indexOfFrom lastIndexOfFrom occurrences].
  - destruct p; simpl; intros H; inversion H; lia.
  - destruct (prefix p (String c s)).
    + intros H; inversion H; lia.
    + intros H. apply IH in H. lia.
Qed.

Lemma lastIndexOfFrom_ge p s : forall i j, lastIndexOfFrom p s i = Some j -> i <= j.
Proof.
  induction s as [|c s IH]; intros i j; cbn [indexOfFrom lastIndexOfFrom occurrences].
  - destruct p; simpl; intros H; inversion H; lia.
  - destruct (lastIndexOfFrom p s (S i)) as [k|] eqn:E.
    + intros H; inversion H; subst. apply IH in E. lia.
    + destruct (prefix p (String c s)); intros H; inversion H; lia.
Qed.

Lemma indexOfFrom_none p s : forall i, indexOfFrom p s i = None <-> occurrences p s = 0.
Proof.
  induction s as [|c s IH]; intros i; cbn [indexOfFrom lastIndexOfFrom occurrences].
  - destruct p; simpl; split; intros H; try discriminate; reflexivity.
  - destruct (prefix p (String c s)); cbn [Nat.add].
    + split; intros H; discriminate.
    + apply IH.
Qed.

Lemma lastIndexOfFrom_none p s : forall i, lastIndexOfFrom p s i = None <-> occurrences p s = 0.
Proof.
  induction s as [|c s IH]; intros i; cbn [indexOfFrom lastIndexOfFrom occurrences].
  - destruct p; simpl; split; intros H; try discriminate; reflexivity.
  - destruct (lastIndexOfFrom p s (S i)) as [k|] eqn:E.
    + assert (occurrences p s <> 0) by (intros H; apply (IH (S i)) in H; congruence).
      split; intros H0; [discriminate | lia].
    + apply IH in E. rewrite E.
      destruct (prefix p (String c s)); cbn [Nat.add]; split; intros H; try discriminate; reflexivity.
Qed.

Lemma first_is_last p s :
  forall i j, indexOfFrom p s i = Some j ->
              (lastIndexOfFrom p s i = Some j <-> occurrences p s = 1).
Proof.
  induction s as [|c s IH]; intros i j; cbn [indexOfFrom lastIndexOfFrom occurrences].
  - destruct p; simpl; intros H; inversion H; subst.
    split; reflexivity.
  - destruct (prefix p (String c s)) eqn:P; cbn [Nat.add].
    + intros H; inversion H; subst j.
      destruct (lastIndexOfFrom p s (S i)) as [k|] eqn:E.
      * assert (occurrences p s <> 0) by (intros H0; apply (lastIndexOfFrom_none p s (S i)) in H0; congruence).
        apply lastIndexOfFrom_ge in E.
        split; intros H1; [inversion H1; lia | lia].
      * apply lastIndexOfFrom_none in E. rewrite E. split; reflexivity.
    + intros H. specialize (IH _ _ H).
      destruct (lastIndexOfFrom p s (S i)) as [k|] eqn:E.
      * exact IH.
      * split; intros H1; [discriminate|]. apply IH in H1. discriminate.
Qed.

(** The test of lines 285-288 holds exactly when the pattern does not occur
    once. *)
Lemma ambiguous_iff s p :
  ((indexOf s p <? 0)%Z || negb (indexOf s p =? lastIndexOf s p)%Z) = true
  <-> occurrences p s <> 1.
Proof.
  unfold indexOf, lastIndexOf.
  destruct (indexOfFrom p s 0) as [j|] eqn:E; simpl.
  - replace (Z.of_nat j <? 0)%Z with false by (symmetry; apply Z.ltb_ge; lia).
    simpl. pose proof (first_is_last p s 0 j E) as F.
    destruct (lastIndexOfFrom p s 0) as [k|] eqn:L; simpl.
    + rewrite negb_true_iff, Z.eqb_neq. split.
      * intros H H1. apply F in H1. inversion H1; subst. lia.
      * intros H H1. apply H, F. f_equal. lia.
    + apply lastIndexOfFrom_none in L. split; intros; [lia|].
      rewrite negb_true_iff, Z.eqb_neq. lia.
  - apply indexOfFrom_none in E. rewrite E. split; intros; [lia | reflexivity].
Qed.

Lemma indexOfFrom_shift p s : forall i,
  indexOfFrom p s (S i) = option_map S (indexOfFrom p s i).
Proof.
  induction s as [|c s IH]; intros i; cbn [indexOfFrom].
  - destruct p; reflexivity.
  - destruct (prefix p (String c s)); [reflexivity | apply IH].
Qed.

Lemma prefix_append p s : prefix p (p ++ s) = true.
Proof.
  induction p as [|c p IH]; simpl; [destruct s; reflexivity|].
  destruct (ascii_dec c c); [exact IH | congruence].
Qed.

Lemma occurrences_prefix p s : prefix p s = true -> 1 <= occurrences p s.
Proof. intros H. destruct s; cbn [occurrences]; rewrite H; lia. Qed.

Lemma indexOfFrom_prefix p s i : prefix p s = true -> indexOfFrom p s i = Some i.
Proof. intros H. destruct s; cbn [indexOfFrom]; rewrite H; reflexivity. Qed.

Lemma occurrences_inside pre p post : 1 <= occurrences p (pre ++ p ++ post).
Proof.
  induction pre as [|c pre IH].
  - change (EmptyString ++ p ++ post) with (p ++ post).
    apply occurrences_prefix, prefix_append.
  - change (String c pre ++ p ++ post) with (String c (pre ++ p ++ post)).
    cbn [occurrences]. lia.
Qed.

Lemma indexOfFrom_unique pre p post :
  occurrences p (pre ++ p ++ post) = 1 ->
  indexOfFrom p (pre ++ p ++ post) 0 = Some (String.length pre).
Proof.
  induction pre as [|c pre IH].
  - intros _. change (EmptyString ++ p ++ post) with (p ++ post).
    apply indexOfFrom_prefix, prefix_append.
  - change (String c pre ++ p ++ post) with (String c (pre ++ p ++ post)).
    cbn [occurrences indexOfFrom String.length].
    pose proof (occurrences_inside pre p post).
    destruct (prefix p (String c (pre ++ p ++ post))); cbn [Nat.add]; intros H1; [lia|].
    rewrite indexOfFrom_shift, IH by lia. reflexivity.
Qed.

Lemma substring_all s : substring 0 (String.length s) s = s.
Proof. induction s; simpl; [reflexivity | f_equal; assumption]. Qed.

Lemma substring_head a b : substring 0 (String.length a) (a ++ b) = a.
Proof.
  induction a as [|c a IH]; simpl.
  - destruct b; reflexivity.
  - f_equal. exact IH.
Qed.

Lemma substring_skip a b n m : substring (String.length a + n) m (a ++ b) = substring n m b.
Proof. induction a as [|c a IH]; simpl; [reflexivity | exact IH]. Qed.

Lemma length_append a b : String.length (a ++ b) = String.length a + String.length b.
Proof. induction a; simpl; [reflexivity | f_equal; assumption]. Qed.

Lemma getSubstitution_literal m b a r :
  dollarFree r = true -> getSubstitution m b a r = r.
Proof.
  induction r as [|c r IH]; simpl; [reflexivity|].
  destruct (Ascii.eqb c "$"); simpl; [discriminate|].
  intros H. f_equal. apply IH, H.
Qed.

(** Replacing the only occurrence of [p] by a text without [$] rewrites the
    string around it. *)
Lemma replace_unique pre p post r :
  occurrences p (pre ++ p ++ post) = 1 ->
  dollarFree r = true ->
  replace (pre ++ p ++ post) p r = pre ++ r ++ post.
Proof.
  intros H D. unfold replace. rewrite (indexOfFrom_unique _ _ _ H).
  cbv zeta. rewrite getSubstitution_literal by exact D.
  rewrite substring_head.
  replace (pre ++ p ++ post) with (pre ++ (p ++ post)) at 2 by reflexivity.
  rewrite <- (Nat.add_0_r (String.length p)) at 1.
  rewrite Nat.add_assoc.
  replace (String.length pre + String.length p + 0) with (String.length pre + (String.length p + 0)) by lia.
  rewrite substring_skip, substring_skip.
  rewrite !length_append.
  replace (String.length pre + (String.length p + String.length post) - (String.length pre + String.length p)) with (String.length post) by lia.
  rewrite substring_all. reflexivity.
Qed.



Lemma digit_not_dollar n : Ascii.eqb (digit n) "$" = false.
Proof.
  unfold digit.
  remember (N.to_nat n) as k. clear.
  do 65 (destruct k as [|k]; [reflexivity|]). reflexivity.
Qed.

Lemma prefix_split p : forall s, prefix p s = true -> exists post, s = p ++ post.
Proof.
  induction p as [|c p IH]; intros s H.
  - exists s. reflexivity.
  - destruct s as [|d s]; simpl in H; [discriminate|].
    destruct (ascii_dec c d) as [->|]; [|discriminate].
    destruct (IH s H) as [post ->]. exists post. reflexivity.
Qed.

Lemma occurrences_split p s :
  occurrences p s <> 0 -> exists pre post, s = pre ++ p ++ post.
Proof.
  induction s as [|c s IH]; cbn [occurrences].
  - destruct (prefix p EmptyString) eqn:P; [|cbn [Nat.add]; lia].
    intros _. apply prefix_empty in P. subst. exists EmptyString, EmptyString. reflexivity.
  - destruct (prefix p (String c s)) eqn:P; cbn [Nat.add].
    + intros _. destruct (prefix_split _ _ P) as [post E].
      exists EmptyString, post. exact E.
    + intros H. destruct (IH H) as (pre & post & E). exists (String c pre), post.
      rewrite E. reflexivity.
Qed.

Lemma base64_dollarFree_aux n : forall s, String.length s <= n -> dollarFree (base64 s) = true.
Proof.
  induction n as [|n IH]; intros s L.
  - destruct s; [reflexivity | simpl in L; lia].
  - destruct s as [|a [|b [|c rest]]]; simpl; rewrite ?digit_not_dollar; simpl; try reflexivity.
    apply IH. simpl in L. lia.
Qed.

Lemma base64_dollarFree s : dollarFree (base64 s) = true.
Proof. apply (base64_dollarFree_aux (String.length s)). lia. Qed.

End JSFacts.

Example base64_Man : JS.base64 "Man" = "TWFu".
Proof. reflexivity. Qed.

Example base64_Ma : JS.base64 "Ma" = "TWE=".
Proof. reflexivity. Qed.

Example base64_M : JS.base64 "M" = "TQ==".
Proof. reflexivity. Qed.

Example base64_token : JS.base64 "x-access-token:tok" = "eC1hY2Nlc3MtdG9rZW46dG9r".
Proof. reflexivity. Qed.

Example replace_first : JS.replace "a-b-c" "-" "+" = "a+b-c".
Proof. reflexivity. Qed.

Example replace_dollar : JS.replace "a-b" "-" "[$&$$$`]" = "a[-$a]b".
Proof. reflexivity. Qed.

Example indexOf_absent : JS.indexOf "abc" "x" = (-1)%Z.
Proof. reflexivity. Qed.

Example lastIndexOf_twice : JS.lastIndexOf "abcabc" "bc" = 4%Z.
Proof. reflexivity. Qed.

Example placeholder_once :
  JS.occurrences placeholder "[http]extraheader = AUTHORIZATION: basic ***" = 1.
Proof. reflexivity. Qed.

(* ===================================================================== *)
(** * Facts about runs *)
(* ===================================================================== *)

#[local] Arguments String.append : simpl never.

Local Open Scope list_scope.

Section Runs.

Context {W : Type}.

Lemma bind_run {A B} (m : M W A) (f : A -> M W B) w :
  bind m f w =
  match res (m w) with
  | Ok a => prepend (events (m w)) (f a (final (m w)))
  | Err e => {| res := Err e; final := final (m w); events := events (m w) |}
  end.
Proof. reflexivity. Qed.

Lemma bind_call {A B} c inj (op : Op W A) (f : A -> M W B) w :
  bind (call c inj op) f w =
  match op w with
  | (inr a, w') => prepend [Ev c (Returned (inj a))] (f a w')
  | (inl m, w') =>
      {| res := Err (Rejected m); final := w'; events := [Ev c (Raised m)] |}
  end.
Proof. unfold bind, call. destruct (op w) as [[m|a] w']; reflexivity. Qed.

Lemma bind_core {B} ch text (f : unit -> M W B) w :
  bind (core ch text) f w = prepend [Core ch text] (f tt w).
Proof. reflexivity. Qed.

Lemma prepend_nil {A} (r : Run W A) : prepend [] r = r.
Proof. destruct r; reflexivity. Qed.

Lemma prepend_prepend {A} l l' (r : Run W A) :
  prepend l (prepend l' r) = prepend (l ++ l') r.
Proof. unfold prepend; cbn. rewrite app_assoc. reflexivity. Qed.

Lemma bind_ret {A B} (a : A) (f : A -> M W B) w : bind (ret a) f w = f a w.
Proof. rewrite bind_run. cbn. apply prepend_nil. Qed.

Lemma bind_throw {A B} e (f : A -> M W B) w :
  bind (throw e) f w = {| res := Err e; final := w; events := [] |}.
Proof. reflexivity. Qed.

Lemma bind_assoc {A B C} (m : M W A) (f : A -> M W B) (g : B -> M W C) w :
  bind (bind m f) g w = bind m (fun x => bind (f x) g) w.
Proof.
  unfold bind. destruct (m w) as [[a|e] w1 ev1]; cbn; [|reflexivity].
  destruct (f a w1) as [[b|e] w2 ev2]; cbn; [|reflexivity].
  rewrite app_assoc. reflexivity.
Qed.

Lemma bind_ret_r {A} (m : M W A) w : bind m (fun a => ret a) w = m w.
Proof.
  unfold bind, ret. destruct (m w) as [[a|e] w1 ev1]; cbn; [|reflexivity].
  rewrite app_nil_r. reflexivity.
Qed.

Lemma tryCatch_run {A} (body : M W A) handler w :
  tryCatch body handler w =
  match res (body w) with
  | Ok _ => body w
  | Err e => prepend (events (body w)) (handler e (final (body w)))
  end.
Proof. reflexivity. Qed.

(** ** Events a computation can cause *)

Lemma emits_ret P {A} (a : A) : emits P (@ret W A a).
Proof. intros w. reflexivity. Qed.

Lemma emits_throw P {A} e : emits P (@throw W A e).
Proof. intros w. reflexivity. Qed.

Lemma emits_core P ch text : P (Core ch text) = true -> emits P (@core W ch text).
Proof. intros H w. cbn. rewrite H. reflexivity. Qed.

Lemma emits_call P {A} c inj (op : Op W A) :
  (forall o, P (Ev c o) = true) -> emits P (call c inj op).
Proof.
  intros H w. unfold call. destruct (op w) as [[m|a] w']; cbn; rewrite H; reflexivity.
Qed.

Lemma emits_bind P {A B} (m : M W A) (f : A -> M W B) :
  emits P m -> (forall a, emits P (f a)) -> emits P (bind m f).
Proof.
  intros Hm Hf w. rewrite bind_run. specialize (Hm w).
  destruct (res (m w)); cbn; [|exact Hm].
  rewrite forallb_app, Hm. apply Hf.
Qed.

Lemma emits_tryCatch P {A} (body : M W A) handler :
  emits P body -> (forall e, emits P (handler e)) -> emits P (tryCatch body handler).
Proof.
  intros Hb Hh w. rewrite tryCatch_run. specialize (Hb w).
  destruct (res (body w)); cbn; [exact Hb|].
  rewrite forallb_app, Hb. apply Hh.
Qed.

Lemma emits_tryFinally P {A} (body : M W A) finalizer :
  emits P body -> emits P finalizer -> emits P (tryFinally body finalizer).
Proof.
  intros Hb Hf w. unfold tryFinally. cbn. rewrite forallb_app, Hb. apply Hf.
Qed.

Lemma emits_forEach P {A} (l : list A) (f : A -> M W unit) :
  (forall x, emits P (f x)) -> emits P (forEach l f).
Proof.
  intros H. induction l as [|x l IH]; cbn [forEach].
  - apply emits_ret.
  - apply emits_bind; [apply H | intros _; exact IH].
Qed.

Lemma emits_if P {A} (b : bool) (m m' : M W A) :
  emits P m -> emits P m' -> emits P (if b then m else m').
Proof. destruct b; auto. Qed.

(** ** Where an error comes from *)

Lemma blames_ret Q {A} (a : A) : blames Q (@ret W A a).
Proof. intros w e H. discriminate. Qed.

Lemma blames_core Q ch text : blames Q (@core W ch text).
Proof. intros w e H. discriminate. Qed.

Lemma blames_call Q {A} c inj (op : Op W A) : Q c = true -> blames Q (call c inj op).
Proof.
  intros H w e. unfold call. destruct (op w) as [[m|a] w']; cbn; intros E; inversion E.
  exists [], c, m. auto.
Qed.

Lemma blames_bind Q {A B} (m : M W A) (f : A -> M W B) :
  blames Q m -> (forall a, blames Q (f a)) -> blames Q (bind m f).
Proof.
  intros Hm Hf w e. rewrite bind_run. specialize (Hm w).
  destruct (res (m w)) as [a|e'] eqn:R; cbn.
  - intros E. destruct (Hf a _ _ E) as (pre & c & msg & E1 & E2 & E3).
    exists (events (m w) ++ pre), c, msg. rewrite E1, app_assoc. auto.
  - intros E; inversion E; subst. apply Hm. reflexivity.
Qed.

Lemma blames_forEach Q {A} (l : list A) (f : A -> M W unit) :
  (forall x, blames Q (f x)) -> blames Q (forEach l f).
Proof.
  intros H. induction l as [|x l IH]; cbn [forEach].
  - apply blames_ret.
  - apply blames_bind; [apply H | intros _; exact IH].
Qed.

Lemma blames_if Q {A} (b : bool) (m m' : M W A) :
  blames Q m -> blames Q m' -> blames Q (if b then m else m').
Proof. destruct b; auto. Qed.

(** A handler that cannot fail absorbs every error of the body. *)
Lemma blames_tryCatch Q {A} (body : M W A) handler :
  (forall e w, exists a, res (handler e w) = Ok a) -> blames Q (tryCatch body handler).
Proof.
  intros H w e. rewrite tryCatch_run. destruct (res (body w)) as [a|e'] eqn:R.
  - rewrite R. discriminate.
  - cbn. destruct (H e' (final (body w))) as [a ->]. discriminate.
Qed.

(** ** Computations that stop at their first rejection *)

Lemma orderly_ret {A} (a : A) : orderly (@ret W A a).
Proof. intros w. reflexivity. Qed.

Lemma orderly_core ch text : orderly (@core W ch text).
Proof. intros w. reflexivity. Qed.

Lemma orderly_call {A} c inj (op : Op W A) : orderly (call c inj op).
Proof.
  intros w. unfold call. destruct (op w) as [[m|a] w']; cbn; [|reflexivity].
  exists [], c, m. auto.
Qed.

Lemma orderly_bind {A B} (m : M W A) (f : A -> M W B) :
  orderly m -> (forall a, orderly (f a)) -> orderly (bind m f).
Proof.
  intros Hm Hf w. rewrite bind_run. specialize (Hm w).
  destruct (res (m w)) as [a|e]; cbn.
  - specialize (Hf a (final (m w))).
    destruct (res (f a (final (m w)))) as [b|e].
    + rewrite forallb_app, Hm, Hf. reflexivity.
    + destruct Hf as (pre & c & msg & E1 & E2 & E3).
      exists (events (m w) ++ pre), c, msg.
      rewrite E1, app_assoc, forallb_app, Hm, E2. auto.
  - exact Hm.
Qed.

Lemma orderly_forEach {A} (l : list A) (f : A -> M W unit) :
  (forall x, orderly (f x)) -> orderly (forEach l f).
Proof.
  intros H. induction l as [|x l IH]; cbn [forEach].
  - apply orderly_ret.
  - apply orderly_bind; [apply H | intros _; exact IH].
Qed.

Lemma orderly_if {A} (b : bool) (m m' : M W A) :
  orderly m -> orderly m' -> orderly (if b then m else m').
Proof. destruct b; auto. Qed.

End Runs.

(** ** Lists of events *)

Lemma forallb_absent (Q : Event -> bool) l pre e post :
  forallb (fun x => negb (Q x)) l = true -> Q e = true -> l <> pre ++ e :: post.
Proof.
  intros F H E. subst l. rewrite forallb_app in F. cbn in F. rewrite H in F.
  cbn in F. rewrite andb_false_r in F. discriminate.
Qed.

(** An event that is the only one of its kind is found at one place. *)
Lemma split_unique (Q : Event -> bool) l1 x l2 :
  forallb (fun y => negb (Q y)) l1 = true ->
  forallb (fun y => negb (Q y)) l2 = true ->
  forall pre e post,
    Q e = true ->
    l1 ++ x :: l2 = pre ++ e :: post ->
    pre = l1 /\ e = x /\ post = l2.
Proof.
  induction l1 as [|a l1 IH]; intros F1 F2 pre e post H E.
  - destruct pre as [|y pre]; cbn in E.
    + inversion E. auto.
    + inversion E; subst. exfalso. exact (forallb_absent Q _ _ _ _ F2 H eq_refl).
  - cbn in F1. apply andb_true_iff in F1. destruct F1 as [Fa F1].
    destruct pre as [|y pre]; cbn in E.
    + inversion E; subst. rewrite H in Fa. discriminate.
    + inversion E; subst. destruct (IH F1 F2 _ _ _ H H2) as (-> & -> & ->). auto.
Qed.

Lemma forallb_weaken (P Q : Event -> bool) l :
  (forall e, P e = true -> Q e = true) -> forallb P l = true -> forallb Q l = true.
Proof.
  intros H. induction l as [|a l IH]; cbn; [reflexivity|].
  rewrite !andb_true_iff. intros [Ha Hl]. auto.
Qed.

(** Events that cannot be the one looked for are passed over. *)
Lemma skip_free (Q : Event -> bool) l rest :
  forallb (fun y => negb (Q y)) l = true ->
  forall pre e post,
    Q e = true ->
    l ++ rest = pre ++ e :: post ->
    exists pre', pre = l ++ pre' /\ rest = pre' ++ e :: post.
Proof.
  induction l as [|a l IH]; intros F pre e post H E.
  - exists pre. auto.
  - cbn in F. apply andb_true_iff in F. destruct F as [Fa F].
    destruct pre as [|y pre]; cbn in E; inversion E; subst.
    + rewrite H in Fa. discriminate.
    + destruct (IH F _ _ _ H H2) as (pre' & -> & E'). exists pre'. auto.
Qed.

#[local] Arguments bind : simpl never.
#[local] Arguments ret : simpl never.
#[local] Arguments throw : simpl never.
#[local] Arguments call : simpl never.
#[local] Arguments core : simpl never.
#[local] Arguments tryCatch : simpl never.
#[local] Arguments tryFinally : simpl never.
#[local] Arguments forEach : simpl never.
#[local] Arguments removeGitConfig : simpl never.
#[local] Arguments configureAuthToken : simpl never.
#[local] Arguments prepareExistingDirectory : simpl never.
#[local] Arguments getGitCommandManager : simpl never.
#[local] Arguments getSource : simpl never.
#[local] Arguments cleanup : simpl never.
#[local] Arguments enterDirectory : simpl never.
#[local] Arguments downloadFallback : simpl never.
#[local] Arguments setUp : simpl never.
#[local] Arguments checkoutResolved : simpl never.
#[local] Arguments fetchAndCheckout : simpl never.
#[local] Arguments releaseCredential : simpl never.
#[local] Arguments deleteLocks : simpl never.
#[local] Arguments detachAndPrune : simpl never.
#[local] Arguments cleanTree : simpl never.
#[local] Arguments reuse : simpl never.
#[local] Arguments clearDirectory : simpl never.
#[local] Arguments reconcile : simpl never.
#[local] Arguments decideRemoval : simpl never.

Lemma ret_run {W A} (a : A) (w : W) :
  ret a w = {| res := Ok a; final := w; events := [] |}.
Proof. reflexivity. Qed.

Lemma throw_run {W A} e (w : W) :
  @throw W A e w = {| res := Err e; final := w; events := [] |}.
Proof. reflexivity. Qed.

Lemma core_run {W} ch text (w : W) :
  core ch text w = {| res := Ok tt; final := w; events := [Core ch text] |}.
Proof. reflexivity. Qed.

Lemma call_run {W A} c inj (op : Op W A) w :
  call c inj op w =
  match op w with
  | (inr a, w') => {| res := Ok a; final := w'; events := [Ev c (Returned (inj a))] |}
  | (inl m, w') =>
      {| res := Err (Rejected m); final := w'; events := [Ev c (Raised m)] |}
  end.
Proof. reflexivity. Qed.

Lemma forEach_nil {W A} (f : A -> M W unit) : forEach [] f = ret tt.
Proof. reflexivity. Qed.

Lemma forEach_cons {W A} x l (f : A -> M W unit) :
  forEach (x :: l) f = bind (f x) (fun _ => forEach l f).
Proof. reflexivity. Qed.

Ltac unfold_calls :=
  unfold core_info, core_debug, core_warning, core_setSecret,
    fsHelper_fileExistsSync, fsHelper_directoryExistsSync, io_rmRF, io_mkdirP,
    fs_readdir, fs_readFile, fs_writeFile, gitCommandManager_CreateCommandManager,
    githubApiHelper_downloadRepository, refHelper_getRefSpec,
    refHelper_getCheckoutInfo, stateHelper_setRepositoryPath,
    git_branchDelete, git_branchList, git_checkout, git_checkoutDetach,
    git_config, git_configExists, git_fetch, git_init, git_isDetached,
    git_lfsFetch, git_lfsInstall, git_log1, git_remoteAdd, git_tryClean,
    git_tryConfigUnset, git_tryDisableAutomaticGarbageCollection,
    git_tryGetFetchUrl, git_tryReset in *.

(** Case analysis on the answer of the collaborator to the next call. *)
Ltac answer :=
  match goal with
  | |- context [match ?operation ?world with pair _ _ => _ end] =>
      let E := fresh "E" in destruct (operation world) as [[?m|?a] ?w] eqn:E
  end.

Ltac tidy :=
  repeat progress
    (cbn [prepend res final events app] in *;
     rewrite ?ret_run, ?throw_run, ?core_run in *);
  cbn [prepend res final events app] in *.

(** The events of a computation, by its structure. *)
Ltac footprint :=
  unfold_calls;
  repeat first
    [ apply emits_ret
    | apply emits_throw
    | apply emits_core; reflexivity
    | apply emits_call; intros ?; reflexivity
    | apply emits_bind; [|intros ?]
    | apply emits_forEach; intros ?
    | apply emits_tryCatch; [|intros ?]
    | apply emits_tryFinally
    | progress cbv beta iota
    | apply emits_if
    | match goal with |- emits _ (match ?x with _ => _ end) => destruct x end ].

Ltac blame :=
  unfold_calls;
  repeat first
    [ apply blames_ret
    | apply blames_core
    | apply blames_call; reflexivity
    | apply blames_bind; [|intros ?]
    | apply blames_forEach; intros ?
    | apply blames_if
    | apply blames_tryCatch; intros ? ?; eexists; reflexivity
    | match goal with |- blames _ (match ?x with _ => _ end) => destruct x end ].

Ltac order :=
  unfold_calls;
  repeat first
    [ apply orderly_ret
    | apply orderly_core
    | apply orderly_call
    | apply orderly_bind; [|intros ?]
    | apply orderly_forEach; intros ?
    | apply orderly_if
    | match goal with |- orderly (match ?x with _ => _ end) => destruct x end ].


Section Parts.

Context {W : Type}.
Variable env : Env W.

Lemma bind_ext {A B} (m : M W A) (f g : A -> M W B) w :
  (forall a w', f a w' = g a w') -> bind m f w = bind m g w.
Proof. intros H. rewrite !bind_run. destruct (res (m w)); [rewrite H|]; reflexivity. Qed.

(** [getSource] is the sequence of its parts. *)
Lemma getSource_parts settings w :
  getSource env settings w = getSourceByParts env settings w.
Proof.
  unfold getSource, getSourceByParts, enterDirectory, setUp, fetchAndCheckout,
    checkoutResolved, releaseCredential, downloadFallback, repositoryUrlOf.
  repeat (rewrite ?bind_assoc;
          first [ reflexivity
                | apply bind_ext; intros
                | match goal with
                  | |- (match ?x with _ => _ end) _ = _ => destruct x
                  end ]).
Qed.

End Parts.

Lemma cons_eq_inv {A} (x y : A) l l' : x :: l = y :: l' -> x = y /\ l = l'.
Proof. intros H. inversion H. auto. Qed.

(** Finding an event in an explicit list. *)
Ltac locate :=
  repeat match goal with
  | H : [] = ?pre ++ _ :: _ |- _ => destruct pre; discriminate H
  | H : _ :: _ = ?pre ++ _ :: _ |- _ =>
      let Hx := fresh "Hx" in
      destruct pre as [|? ?]; cbn [app] in H;
      apply cons_eq_inv in H; destruct H as [Hx H];
      [ first [discriminate Hx | inversion Hx; clear Hx; subst] | subst ]
  end.

(** Case analysis on every call that is left. *)
Ltac explore :=
  repeat first
    [ rewrite bind_call; answer; tidy
    | match goal with
      | |- context [if ?b then _ else _] => is_var b; destruct b; cbn [negb]; cbv iota
      | |- context [if negb ?b then _ else _] =>
          is_var b; destruct b; cbn [negb]; cbv iota
      end ].

Ltac settle :=
  intros; tidy; try locate; try discriminate; try congruence; auto;
  try (repeat split; congruence).

Section Cleanup.

Context {W : Type}.
Variable env : Env W.

Lemma attempt_run {A B} c inj (op : Op W A) (k : option A -> M W B) w :
  bind (tryCatch (bind (call c inj op) (fun a => ret (Some a))) (fun _ => ret None)) k w =
  match op w with
  | (inr a, w') => prepend [Ev c (Returned (inj a))] (k (Some a) w')
  | (inl m, w') => prepend [Ev c (Raised m)] (k None w')
  end.
Proof.
  rewrite bind_run, tryCatch_run, bind_call.
  destruct (op w) as [[m|a] w']; tidy; reflexivity.
Qed.

Ltac explore ::=
  repeat first
    [ rewrite bind_call; answer; tidy
    | rewrite attempt_run; answer; tidy
    | match goal with
      | |- context [if ?b then _ else _] => is_var b; destruct b; cbn [negb]; cbv iota
      | |- context [if negb ?b then _ else _] =>
          is_var b; destruct b; cbn [negb]; cbv iota
      end ].

Lemma cleanup_blames path : blames probeCall (cleanup env path).
Proof.
  unfold cleanup, removeGitConfig.
  destruct (String.eqb path EmptyString); blame.
Qed.

(** Claim C7, as amended.  [cleanup] does nothing and returns when the path
    is empty.  Otherwise it probes the configuration file of the path: an
    answer no ends the call, which returns.  After an answer yes it
    constructs the gateway without LFS; when the construction is rejected
    the call ends and returns; when it returns, the entry under
    [authConfigKey] is probed and, when it is there, unset, and an unset that
    answers no only gives the warning.  The rejection of a probe
    ([fileExistsSync], [configExists], [tryConfigUnset]) ends the call, which
    fails with it; and [cleanup] fails in no other way. *)
Theorem cleanup_raises_only_from_probes path w :
  let r := cleanup env path w in
  let configFile := path_join env [path; ".git"; "config"] in
  (path = EmptyString -> r = {| res := Ok tt; final := w; events := [] |}) /\
  (path <> EmptyString ->
   exists o1 rest1,
     events r = Ev (FileExistsSync configFile) o1 :: rest1 /\
     match o1 with
     | Raised m => rest1 = [] /\ res r = Err (Rejected m)
     | Returned (VBool false) => rest1 = [] /\ res r = Ok tt
     | Returned (VBool true) =>
         exists o2 rest2,
           rest1 = Ev (CreateCommandManager path false) o2 :: rest2 /\
           match o2 with
           | Raised _ => rest2 = [] /\ res r = Ok tt
           | Returned _ =>
               exists o3 rest3,
                 rest2 = Ev (ConfigExists authConfigKey) o3 :: rest3 /\
                 match o3 with
                 | Raised m => rest3 = [] /\ res r = Err (Rejected m)
                 | Returned (VBool false) => rest3 = [] /\ res r = Ok tt
                 | Returned (VBool true) =>
                     exists o4 rest4,
                       rest3 = Ev (TryConfigUnset authConfigKey) o4 :: rest4 /\
                       match o4 with
                       | Raised m => rest4 = [] /\ res r = Err (Rejected m)
                       | Returned (VBool true) => rest4 = [] /\ res r = Ok tt
                       | Returned (VBool false) =>
                           rest4 = [Core Warning removalWarning] /\ res r = Ok tt
                       | Returned _ => False
                       end
                 | Returned _ => False
                 end
           end
     | Returned _ => False
     end) /\
  (forall e,
      res r = Err e ->
      exists pre c m,
        events r = pre ++ [Ev c (Raised m)] /\ e = Rejected m /\ probeCall c = true).
Proof.
  cbv zeta. split; [|split].
  3:{ apply cleanup_blames. }
  all: unfold cleanup, removeGitConfig; unfold_calls;
    destruct (String.eqb_spec path EmptyString) as [->|N]; intros H;
    try reflexivity; try congruence.
  explore.
  all: tidy;
    repeat (eexists _, _; split; [reflexivity|]; cbv beta iota);
    split; reflexivity.
Qed.

End Cleanup.

Section ReconcilerFacts.

Context {W : Type}.
Variable env : Env W.

Lemma prepare_parts git path url clean w :
  prepareExistingDirectory env git path url clean w
  = prepareByParts env git path url clean w.
Proof. reflexivity. Qed.

Lemma deletion_run path names w :
  let r := forEach names (fun file => io_rmRF env (path_join env [path; file])) w in
  deletion (join env) path names (events r) (res r).
Proof.
  cbv zeta. unfold io_rmRF, path_join.
  revert w. induction names as [|name names IH]; intros w;
    rewrite ?forEach_nil, ?forEach_cons; cbn [deletion].
  - split; reflexivity.
  - rewrite bind_call.
    destruct (rmRF env (join env [path; name]) w) as [[m|[]] w'] eqn:E; tidy.
    + eexists _, _. split; [reflexivity|]. split; reflexivity.
    + eexists _, _. split; [reflexivity|]. apply IH.
Qed.

(** The clearing of the directory: the entries are listed once, and deleted
    in the order of the listing up to the first rejection. *)
Lemma clearDirectory_run path w :
  let r := clearDirectory env true path w in
  exists o evs,
    events r = Core Info (deletingText path) :: Ev (Readdir path) o :: evs /\
    match o with
    | Raised m => evs = [] /\ res r = Err (Rejected m)
    | Returned (VStrings names) => deletion (join env) path names evs (res r)
    | Returned _ => False
    end.
Proof.
  cbv zeta. unfold clearDirectory. unfold core_info, fs_readdir.
  rewrite bind_core, bind_call.
  destruct (readdir env path w) as [[m|names] w'] eqn:E; tidy.
  - eexists _, _. split; [reflexivity|]. split; reflexivity.
  - eexists _, _. split; [reflexivity|]. apply deletion_run.
Qed.

Lemma clearDirectory_emits P remove path :
  P (Core Info (deletingText path)) = true ->
  (forall p o, P (Ev (Readdir p) o) = true) ->
  (forall p o, P (Ev (RmRF p) o) = true) ->
  emits P (clearDirectory env remove path).
Proof.
  intros H1 H2 H3. unfold clearDirectory. unfold_calls. destruct remove; [|apply emits_ret].
  apply emits_bind; [apply emits_core, H1 | intros _].
  apply emits_bind; [apply emits_call; intros; apply H2 | intros names].
  apply emits_forEach; intros x. apply emits_call; intros; apply H3.
Qed.

Lemma deleteLocks_emits P path :
  (forall p o, P (Ev (RmRF p) o) = true) ->
  (forall t, P (Core Debug t) = true) ->
  emits P (deleteLocks env path).
Proof.
  intros H1 H2. unfold deleteLocks. unfold_calls.
  apply emits_forEach; intros x. apply emits_tryCatch.
  - apply emits_call; intros; apply H1.
  - intros e. apply emits_core, H2.
Qed.

Lemma deleteLocks_ok path w : res (deleteLocks env path w) = Ok tt.
Proof.
  unfold deleteLocks. generalize (lockPaths env path). intros l. revert w.
  induction l as [|p l IH]; intros w; rewrite ?forEach_nil, ?forEach_cons; [reflexivity|].
  rewrite bind_run, tryCatch_run. unfold io_rmRF. rewrite call_run.
  destruct (rmRF env p w) as [[m|[]] w']; tidy; apply IH.
Qed.

Lemma reuse_emits P (git : IGitCommandManager W) path clean :
  (forall c o, reuseCall c = true -> P (Ev c o) = true) ->
  (forall ch t, P (Core ch t) = true) ->
  emits P (reuse git path clean).
Proof.
  intros H1 H2. unfold reuse, detachAndPrune, cleanTree. unfold_calls.
  repeat first
    [ apply emits_ret
    | apply emits_core; apply H2
    | apply emits_call; intros ?; apply H1; reflexivity
    | apply emits_bind; [|intros ?]
    | apply emits_forEach; intros ?
    | apply emits_if ].
Qed.

Lemma reuse_orderly (git : IGitCommandManager W) path clean :
  orderly (reuse git path clean).
Proof. unfold reuse, detachAndPrune, cleanTree. order. Qed.


(** What follows the two probes when the recorded URL is the expected one. *)
Lemma reconcile_emits P (git : IGitCommandManager W) path clean :
  (forall c o, reuseCall c = true -> P (Ev c o) = true) ->
  (forall ch t, P (Core ch t) = true) ->
  (forall p o, P (Ev (RmRF p) o) = true) ->
  (forall p o, P (Ev (Readdir p) o) = true) ->
  emits P (reconcile env git path clean).
Proof.
  intros H1 H2 H3 H4. unfold reconcile.
  apply emits_bind; [apply emits_bind|].
  - apply deleteLocks_emits; auto.
  - intros _. apply emits_tryCatch; [apply reuse_emits; auto|].
    intros e. apply emits_bind; [apply emits_core, H2 | intros; apply emits_ret].
  - intros remove. apply clearDirectory_emits; auto.
Qed.

(** The ways of [prepareExistingDirectory] with a gateway. *)
Lemma prepare_cases (g : IGitCommandManager W) path url clean w :
  let r := prepareExistingDirectory env (Some g) path url clean w in
  let probe := Ev (DirectoryExistsSync (path_join env [path; ".git"%string])) in
  (exists m, events r = [probe (Raised m)] /\ res r = Err (Rejected m)) \/
  (exists w', r = prepend [probe (Returned (VBool false))] (clearDirectory env true path w')) \/
  (exists m, events r = [probe (Returned (VBool true)); Ev TryGetFetchUrl (Raised m)]
             /\ res r = Err (Rejected m)) \/
  (exists u w', u <> url /\
      r = prepend [probe (Returned (VBool true)); Ev TryGetFetchUrl (Returned (VString u))]
            (clearDirectory env true path w')) \/
  (exists w',
      r = prepend [probe (Returned (VBool true)); Ev TryGetFetchUrl (Returned (VString url))]
            (reconcile env g path clean w')).
Proof.
  cbv zeta. rewrite prepare_parts. unfold prepareByParts, decideRemoval.
  unfold fsHelper_directoryExistsSync, git_tryGetFetchUrl.
  rewrite !bind_assoc, bind_call. answer; tidy.
  { left. exists m. split; reflexivity. }
  destruct a; cbn [negb]; cbv iota.
  - rewrite !bind_assoc, bind_call. answer; tidy.
    { right; right; left. exists m. split; reflexivity. }
    rewrite bind_ret.
    destruct (String.eqb_spec url a) as [<-|N]; cbn [negb]; cbv iota.
    + right; right; right; right. exists w1. unfold prepend; cbn. reflexivity.
    + right; right; right; left. exists a, w1. split; [congruence|].
      rewrite bind_ret. unfold prepend; cbn. reflexivity.
  - right; left. exists w0. rewrite !bind_assoc, bind_ret. cbv beta iota.
    rewrite bind_ret. reflexivity.
Qed.

(** Claim C3, as amended.  Whenever removal is decided by the first tests of
    [prepareExistingDirectory] (no gateway, or no [.git] directory, or a
    recorded URL that differs from the expected one), the entries of the path
    are listed once and [rmRF] is called on each entry inside the path, never
    on the path itself, in the order of the listing; the first rejection of a
    deletion stops the loop and is the error of the call. *)
Theorem removal_stops_at_first_failure git path url clean w :
  let r := prepareExistingDirectory env git path url clean w in
  git = None \/
  (exists pre post,
      events r = pre ++ Ev (DirectoryExistsSync (path_join env [path; ".git"%string]))
                          (Returned (VBool false)) :: post) \/
  (exists pre u post,
      events r = pre ++ Ev TryGetFetchUrl (Returned (VString u)) :: post /\ u <> url) ->
  exists lead o evs,
    events r = lead ++ Core Info (deletingText path) :: Ev (Readdir path) o :: evs /\
    forallb (calls isProbeOfRepository) lead = true /\
    match o with
    | Raised m => evs = [] /\ res r = Err (Rejected m)
    | Returned (VStrings names) => deletion (join env) path names evs (res r)
    | Returned _ => False
    end.
Proof.
  cbv zeta. destruct git as [g|].
  2:{ intros _. rewrite prepare_parts. unfold prepareByParts, decideRemoval.
      rewrite bind_ret.
      destruct (clearDirectory_run path w) as (o & evs & E1 & E2).
      exists [], o, evs. rewrite E1. repeat split. exact E2. }
  destruct (prepare_cases g path url clean w)
    as [(m & E & _)|[(w' & E)|[(m & E & _)|[(u & w' & N & E)|(w' & E)]]]];
    rewrite E; clear E; tidy.
  - intros [H|[(pre & post & H)|(pre & u & post & H & _)]];
      [discriminate | locate | locate].
  - intros _. destruct (clearDirectory_run path w') as (o & evs & E1 & E2).
    eexists [_], o, evs. rewrite E1. repeat split. exact E2.
  - intros [H|[(pre & post & H)|(pre & u & post & H & _)]];
      [discriminate | locate | locate].
  - intros _. destruct (clearDirectory_run path w') as (o & evs & E1 & E2).
    eexists [_; _], o, evs. rewrite E1. repeat split. exact E2.
  - intros H. exfalso.
    assert (F : forallb (fun e => negb (calls isProbeOfRepository e))
                  (events (reconcile env g path clean w')) = true).
    { apply reconcile_emits; intros; try reflexivity.
      destruct c; try discriminate; reflexivity. }
    destruct H as [H|[(pre & post & H)|(pre & u & post & H & N)]].
    + discriminate.
    + destruct pre; cbn [app] in H; inversion H; clear H; subst.
      destruct pre; cbn [app] in H2; inversion H2; clear H2; subst.
      eapply forallb_absent; [exact F | | eassumption]. reflexivity.
    + destruct pre; cbn [app] in H; inversion H; clear H; subst.
      destruct pre; cbn [app] in H2; inversion H2; clear H2; subst.
      * congruence.
      * eapply forallb_absent; [exact F | | eassumption]. reflexivity.
Qed.

Lemma deleteLock_run p w :
  let x := tryCatch (io_rmRF env p)
             (fun error =>
                core_debug ("Unable to delete '" ++ p ++ "'. " ++ message error)%string) w in
  res x = Ok tt /\
  (events x = [Ev (RmRF p) (Returned VUnit)] \/
   exists m t, events x = [Ev (RmRF p) (Raised m); Core Debug t]).
Proof.
  cbv zeta. rewrite tryCatch_run. unfold io_rmRF, core_debug. rewrite call_run.
  destruct (rmRF env p w) as [[m|[]] w']; tidy.
  - split; [reflexivity|]. right. eauto.
  - split; [reflexivity|]. left. reflexivity.
Qed.

Lemma deleteLocks_events path w :
  forallb (lockEvent env path) (events (deleteLocks env path w)) = true.
Proof.
  unfold deleteLocks.
  assert (H : forall p, In p (lockPaths env path) ->
                existsb (String.eqb p) (lockPaths env path) = true).
  { intros p I. apply existsb_exists. exists p. split; [exact I | apply String.eqb_refl]. }
  revert H. generalize (lockPaths env path) at 1 3. intros l H. revert w.
  induction l as [|p l IH]; intros w; rewrite ?forEach_nil, ?forEach_cons; [reflexivity|].
  rewrite bind_run.
  destruct (deleteLock_run p w) as (R & [E|(m & t & E)]); rewrite R; tidy;
    rewrite forallb_app, E; cbn [forallb lockEvent];
    rewrite (H p (or_introl eq_refl)); cbn [andb];
    apply IH; intros q I; apply H; right; exact I.
Qed.

(** The ways of [reconcile]: the locks are deleted, the reuse is attempted,
    and the directory is cleared when the attempt fails or says so. *)
Lemma reconcile_cases (g : IGitCommandManager W) path clean w :
  let r := reconcile env g path clean w in
  exists locks w1,
    forallb (lockEvent env path) locks = true /\
    let b := reuse g path clean w1 in
    match res b with
    | Ok remove =>
        r = prepend (locks ++ events b) (clearDirectory env remove path (final b))
    | Err _ =>
        r = prepend (locks ++ events b ++ [Core Warning prepareFailedWarning])
              (clearDirectory env true path (final b))
    end.
Proof.
  cbv zeta. unfold reconcile.
  exists (events (deleteLocks env path w)), (final (deleteLocks env path w)).
  split; [apply deleteLocks_events|].
  rewrite bind_assoc, bind_run, deleteLocks_ok.
  rewrite bind_run, tryCatch_run.
  destruct (res (reuse g path clean (final (deleteLocks env path w)))) as [remove|e] eqn:R.
  - rewrite R. rewrite prepend_prepend. reflexivity.
  - unfold core_warning. rewrite bind_core. tidy. unfold prepend. tidy.
    rewrite <- !app_assoc. reflexivity.
Qed.

Lemma reuse_split (g : IGitCommandManager W) path clean w :
  reuse g path clean w
  = bind (detachAndPrune g (ret tt)) (fun _ => cleanTree g path clean) w.
Proof.
  unfold reuse, detachAndPrune.
  repeat (rewrite ?bind_assoc; first [apply bind_ext; intros | rewrite bind_ret; reflexivity]).
Qed.

Lemma prune_emits P (g : IGitCommandManager W) :
  (forall c o, reuseCall c = true -> cleanOrReset c = false -> P (Ev c o) = true) ->
  emits P (detachAndPrune g (ret tt)).
Proof.
  intros H. unfold detachAndPrune. unfold_calls.
  repeat first
    [ apply emits_ret
    | apply emits_call; intros ?; apply H; reflexivity
    | apply emits_bind; [|intros ?]
    | apply emits_forEach; intros ?
    | apply emits_if ].
Qed.

Lemma prune_orderly (g : IGitCommandManager W) : orderly (detachAndPrune g (ret tt)).
Proof. unfold detachAndPrune. order. Qed.

Lemma branchDelete_all (g : IGitCommandManager W) remote l w :
  let x := forEach l (fun b => git_branchDelete g remote b) w in
  res x = Ok tt ->
  events x = map (fun b => Ev (BranchDelete remote b) (Returned VUnit)) l.
Proof.
  cbv zeta. unfold git_branchDelete. revert w.
  induction l as [|b l IH]; intros w; rewrite ?forEach_nil, ?forEach_cons;
    cbn [map]; [reflexivity|].
  rewrite bind_call. destruct (branchDelete g remote b w) as [[m|[]] w']; tidy.
  - discriminate.
  - intros H. rewrite (IH _ H). reflexivity.
Qed.

(** The pruning when nothing is rejected. *)
Lemma prune_ok (g : IGitCommandManager W) w :
  res (detachAndPrune g (ret tt) w) = Ok tt ->
  exists d locals remotes,
    events (detachAndPrune g (ret tt) w) = pruned d locals remotes.
Proof.
  unfold detachAndPrune, pruned.
  unfold git_isDetached, git_checkoutDetach, git_branchList.
  rewrite bind_call. answer; tidy; [discriminate|].
  assert (K : forall w0 (evs0 : list Event),
             res (bind (call (BranchList false) VStrings (branchList g false))
                    (fun branches =>
                       bind (forEach branches (fun branch => git_branchDelete g false branch))
                         (fun _ => bind (call (BranchList true) VStrings (branchList g true))
                            (fun branches0 =>
                               bind (forEach branches0 (fun branch => git_branchDelete g true branch))
                                 (fun _ => ret tt)))) w0) = Ok tt ->
             exists locals remotes,
               events (bind (call (BranchList false) VStrings (branchList g false))
                    (fun branches =>
                       bind (forEach branches (fun branch => git_branchDelete g false branch))
                         (fun _ => bind (call (BranchList true) VStrings (branchList g true))
                            (fun branches0 =>
                               bind (forEach branches0 (fun branch => git_branchDelete g true branch))
                                 (fun _ => ret tt)))) w0)
               = Ev (BranchList false) (Returned (VStrings locals))
                 :: map (fun b => Ev (BranchDelete false b) (Returned VUnit)) locals
                 ++ Ev (BranchList true) (Returned (VStrings remotes))
                 :: map (fun b => Ev (BranchDelete true b) (Returned VUnit)) remotes).
  { intros w' _. rewrite bind_call. answer; tidy; [discriminate|].
    match goal with
    | |- context [bind (forEach ?l ?f) ?k ?w] =>
        rewrite (bind_run (forEach l f) k w);
        destruct (res (forEach l f w)) as [[]|?] eqn:R1
    end; tidy; [|discriminate].
    rewrite bind_call. answer; tidy; [discriminate|].
    match goal with
    | |- context [bind (forEach ?l ?f) ?k ?w] =>
        rewrite (bind_run (forEach l f) k w);
        destruct (res (forEach l f w)) as [[]|?] eqn:R2
    end; tidy; [|discriminate].
    intros _. eexists _, _.
    rewrite (branchDelete_all _ _ _ _ R1), (branchDelete_all _ _ _ _ R2).
    cbn. rewrite app_nil_r. reflexivity. }
  destruct a; cbn [negb]; cbv iota.
  - rewrite bind_ret. intros H. destruct (K _ [] H) as (locals & remotes & E').
    exists true, locals, remotes. rewrite E'. reflexivity.
  - rewrite bind_call. answer; tidy; [discriminate|].
    intros H. destruct (K _ [] H) as (locals & remotes & E').
    exists false, locals, remotes. rewrite E'. destruct a. reflexivity.
Qed.

(** The ways of the cleaning of lines 230-245. *)
Lemma cleanTree_cases (g : IGitCommandManager W) path w :
  let r := cleanTree g path true w in
  (exists m, events r = [Ev TryClean (Raised m)] /\ res r = Err (Rejected m)) \/
  (events r = [Ev TryClean (Returned (VBool false)); Core Debug (cleanFailedText path);
               Core Warning cleanFailedWarning] /\ res r = Ok true) \/
  (exists m, events r = [Ev TryClean (Returned (VBool true)); Ev TryReset (Raised m)]
             /\ res r = Err (Rejected m)) \/
  (events r = [Ev TryClean (Returned (VBool true)); Ev TryReset (Returned (VBool false));
               Core Warning cleanFailedWarning] /\ res r = Ok true) \/
  (events r = [Ev TryClean (Returned (VBool true)); Ev TryReset (Returned (VBool true))]
   /\ res r = Ok false).
Proof.
  cbv zeta. unfold cleanTree. unfold_calls.
  rewrite bind_call. answer; tidy.
  { left. eauto. }
  destruct a; cbn [negb]; cbv iota.
  - rewrite !bind_assoc, bind_call. answer; tidy.
    { right; right; left. eauto. }
    rewrite bind_ret. destruct a; cbn [negb]; cbv iota.
    + rewrite !bind_ret. right; right; right; right. split; reflexivity.
    + rewrite bind_core. right; right; right; left. split; reflexivity.
  - rewrite !bind_assoc, bind_core, bind_ret. cbv beta iota.
    rewrite bind_core. right; left. split; reflexivity.
Qed.

(** The events of [reconcile]: the deletion of the locks, the pruning, and a
    tail that tells how the attempt ended. *)
Lemma reconcile_events (g : IGitCommandManager W) path clean w :
  let r := reconcile env g path clean w in
  exists locks d tail,
    events r = locks ++ d ++ tail /\
    forallb (lockEvent env path) locks = true /\
    forallb pruneEvent d = true /\
    ((exists dpre c m w',
         d = dpre ++ [Ev c (Raised m)] /\ forallb quiet dpre = true /\
         tail = Core Warning prepareFailedWarning
                :: events (clearDirectory env true path w') /\
         res r = res (clearDirectory env true path w'))
     \/
     (forallb quiet d = true /\
      (exists detached locals remotes, d = pruned detached locals remotes) /\
      ((clean = false /\ tail = [] /\ res r = Ok tt) \/
       (clean = true /\
        tail = [Ev TryClean (Returned (VBool true)); Ev TryReset (Returned (VBool true))] /\
        res r = Ok tt) \/
       (clean = true /\
        exists w' head,
          tail = head ++ events (clearDirectory env true path w') /\
          res r = res (clearDirectory env true path w') /\
          ((exists m, head = [Ev TryClean (Raised m); Core Warning prepareFailedWarning]) \/
           head = [Ev TryClean (Returned (VBool false)); Core Debug (cleanFailedText path);
                   Core Warning cleanFailedWarning] \/
           (exists m, head = [Ev TryClean (Returned (VBool true)); Ev TryReset (Raised m);
                              Core Warning prepareFailedWarning]) \/
           head = [Ev TryClean (Returned (VBool true)); Ev TryReset (Returned (VBool false));
                   Core Warning cleanFailedWarning]))))).
Proof.
  cbv zeta.
  destruct (reconcile_cases g path clean w) as (locks & w1 & Hl & Hm).
  cbv zeta in Hm. rewrite reuse_split in Hm. rewrite bind_run in Hm.
  pose proof (prune_orderly g w1) as Ho.
  pose proof (prune_emits pruneEvent g (fun c o H1 H2 =>
                ltac:(unfold pruneEvent; cbn; rewrite H1, H2; reflexivity)) w1) as Hp.
  set (d := detachAndPrune g (ret tt) w1) in *.
  exists locks, (events d).
  destruct (res d) as [[]|e] eqn:R.
  - pose proof (prune_ok g w1 R) as Hk. fold d in Hk.
    destruct clean.
    + destruct (cleanTree_cases g path (final d))
        as [(m & E1 & E2)|[(E1 & E2)|[(m & E1 & E2)|[(E1 & E2)|(E1 & E2)]]]];
        cbn [res prepend] in Hm; rewrite E2 in Hm; rewrite Hm; cbn [events prepend res];
        rewrite ?E1.
      * eexists. split; [rewrite <- !app_assoc; reflexivity|].
        split; [exact Hl|]. split; [exact Hp|]. right. split; [exact Ho|]. split; [exact Hk|].
        right; right. split; [reflexivity|]. eexists _, [_; _].
        split; [reflexivity|]. split; [reflexivity|]. left. eauto.
      * eexists. split; [rewrite <- !app_assoc; reflexivity|].
        split; [exact Hl|]. split; [exact Hp|]. right. split; [exact Ho|]. split; [exact Hk|].
        right; right. split; [reflexivity|]. eexists _, [_; _; _].
        split; [reflexivity|]. split; [reflexivity|]. right; left. reflexivity.
      * eexists. split; [rewrite <- !app_assoc; reflexivity|].
        split; [exact Hl|]. split; [exact Hp|]. right. split; [exact Ho|]. split; [exact Hk|].
        right; right. split; [reflexivity|]. eexists _, [_; _; _].
        split; [reflexivity|]. split; [reflexivity|]. right; right; left. eauto.
      * eexists. split; [rewrite <- !app_assoc; reflexivity|].
        split; [exact Hl|]. split; [exact Hp|]. right. split; [exact Ho|]. split; [exact Hk|].
        right; right. split; [reflexivity|]. eexists _, [_; _; _].
        split; [reflexivity|]. split; [reflexivity|]. right; right; right. reflexivity.
      * exists [Ev TryClean (Returned (VBool true)); Ev TryReset (Returned (VBool true))].
        cbn. rewrite !app_nil_r. split; [reflexivity|].
        split; [exact Hl|]. split; [exact Hp|]. right. split; [exact Ho|].
        split; [exact Hk|]. right; left. auto.
    + cbn in Hm. rewrite Hm. cbn. exists []. rewrite !app_nil_r.
      split; [reflexivity|]. split; [exact Hl|]. split; [exact Hp|].
      right. split; [exact Ho|]. split; [exact Hk|]. left. auto.
  - cbn [res] in Hm. rewrite Hm. cbn [events prepend res].
    destruct Ho as (dpre & c & m & E1 & E2 & E3).
    eexists. split; [rewrite <- !app_assoc; reflexivity|].
    split; [exact Hl|]. split; [exact Hp|]. left.
    exists dpre, c, m, (final d). auto.
Qed.

Lemma clearDirectory_free (Q : Event -> bool) remove path w :
  (forall e, Q e = true -> calls reuseCall e = true) ->
  forallb (fun e => negb (Q e)) (events (clearDirectory env remove path w)) = true.
Proof.
  intros H. apply clearDirectory_emits; intros;
    match goal with
    | |- negb (Q ?e) = true =>
        destruct (Q e) eqn:E; [apply H in E; discriminate | reflexivity]
    end.
Qed.

Lemma locks_free (Q : Event -> bool) path locks :
  (forall e, Q e = true -> calls reuseCall e = true) ->
  forallb (lockEvent env path) locks = true ->
  forallb (fun e => negb (Q e)) locks = true.
Proof.
  intros H. apply forallb_weaken. intros e L.
  destruct (Q e) eqn:E; [|reflexivity]. apply H in E.
  destruct e as [[] o|ch t]; cbn in *; discriminate.
Qed.

Lemma quiet_free (Q : Event -> bool) l :
  (forall e, Q e = true -> raised e = true) ->
  forallb quiet l = true -> forallb (fun e => negb (Q e)) l = true.
Proof.
  intros H. apply forallb_weaken. intros e. unfold quiet.
  destruct (Q e) eqn:E; [rewrite (H e E); discriminate | reflexivity].
Qed.

Lemma prune_free (Q : Event -> bool) l :
  (forall e, Q e = true -> calls cleanOrReset e = true) ->
  forallb pruneEvent l = true -> forallb (fun e => negb (Q e)) l = true.
Proof.
  intros H. apply forallb_weaken. intros e. unfold pruneEvent.
  destruct (Q e) eqn:E; [rewrite (H e E), andb_false_r; discriminate | reflexivity].
Qed.

Lemma prepare_blames (g : IGitCommandManager W) path url clean :
  blames (fun c => negb (reuseCall c))
    (prepareExistingDirectory env (Some g) path url clean).
Proof.
  unfold prepareExistingDirectory. blame.
Qed.

(** Claim C6.  A rejection raised by an operation of the reuse attempt
    (detaching, listing or deleting branches, clean, reset) is followed by
    the warning of the [catch] and by the recreation of the directory; a
    clean that answers no, and a reset that answers no after a clean that
    answered yes, are followed by the warning and by the recreation of the
    directory; and no error of [prepareExistingDirectory] comes from an
    operation of the reuse attempt.  The recreation is the one of lines
    254-261: the entries of the path are listed and [rmRF] is called on each
    of them in the order of the listing, up to the first rejection, and the
    call returns when all are deleted. *)
Theorem reuse_failure_recreates (g : IGitCommandManager W) path url clean w :
  let r := prepareExistingDirectory env (Some g) path url clean w in
  let recreate := fun post =>
    exists o evs,
      post = Core Info (deletingText path) :: Ev (Readdir path) o :: evs /\
      match o with
      | Raised m => evs = [] /\ res r = Err (Rejected m)
      | Returned (VStrings names) => deletion (join env) path names evs (res r)
      | Returned _ => False
      end in
  (forall pre c m post,
      events r = pre ++ Ev c (Raised m) :: post ->
      reuseCall c = true ->
      exists post', post = Core Warning prepareFailedWarning :: post' /\ recreate post') /\
  (forall pre post,
      events r = pre ++ Ev TryClean (Returned (VBool false)) :: post ->
      exists post',
        post = Core Debug (cleanFailedText path) :: Core Warning cleanFailedWarning :: post'
        /\ recreate post') /\
  (forall pre post,
      events r = pre ++ Ev TryReset (Returned (VBool false)) :: post ->
      (exists pre', pre = pre' ++ [Ev TryClean (Returned (VBool true))]) /\
      exists post', post = Core Warning cleanFailedWarning :: post' /\ recreate post') /\
  (forall e,
      res r = Err e ->
      exists pre c m,
        events r = pre ++ [Ev c (Raised m)] /\ e = Rejected m /\ reuseCall c = false).
Proof.
  cbv zeta. split; [|split; [|split]].
  - intros pre c m post H C.
    set (Q := reuseRejected).
    assert (HQ : forall e, Q e = true -> calls reuseCall e = true).
    { intros e. unfold Q, reuseRejected. rewrite andb_true_iff. tauto. }
    assert (HR : forall e, Q e = true -> raised e = true).
    { intros e. unfold Q, reuseRejected. rewrite andb_true_iff. tauto. }
    assert (Qe : Q (Ev c (Raised m)) = true)
      by (unfold Q, reuseRejected; cbn; rewrite C; reflexivity).
    destruct (prepare_cases g path url clean w)
      as [(m' & E & _)|[(w' & E)|[(m' & E & _)|[(u & w' & N & E)|(w' & E)]]]];
      rewrite E in H; try rewrite E; clear E; tidy.
    + locate. discriminate.
    + locate.
      exfalso. eapply forallb_absent; [apply (clearDirectory_free Q), HQ | exact Qe | eassumption].
    + locate. discriminate.
    + locate.
      exfalso. eapply forallb_absent; [apply (clearDirectory_free Q), HQ | exact Qe | eassumption].
    + destruct (reconcile_events g path clean w') as (locks & d & tail & E & Hl & Hp & Hc).
      cbv zeta in E, Hc. rewrite E in H. clear E. locate.
      destruct (skip_free Q _ _ (locks_free Q path locks HQ Hl) _ _ _ Qe H)
        as (pre1 & -> & H1). clear H.
      destruct Hc as [(dpre & c' & m' & w'' & -> & Hd & -> & RR)|(Hd & _ & Hc)].
      * rewrite <- app_assoc in H1.
        destruct (skip_free Q _ _ (quiet_free Q _ HR Hd) _ _ _ Qe H1) as (pre2 & -> & H2).
        cbn [app] in H2. locate.
        -- eexists. split; [reflexivity|]. rewrite RR; apply clearDirectory_run.
        -- exfalso. eapply forallb_absent;
             [apply (clearDirectory_free Q), HQ | exact Qe | eassumption].
      * destruct (skip_free Q _ _ (quiet_free Q _ HR Hd) _ _ _ Qe H1) as (pre2 & -> & H2).
        destruct Hc as [(_ & -> & _)|[(_ & -> & _)|(_ & w'' & head & -> & RR & Hh)]].
        -- locate.
        -- locate.
        -- destruct Hh as [(m' & ->) | [ -> | [(m' & ->) | -> ]]]; cbn [app] in H2; locate;
             try (eexists; split; [reflexivity|]; rewrite RR; apply clearDirectory_run);
             (exfalso; eapply forallb_absent;
               [apply (clearDirectory_free Q), HQ | exact Qe | eassumption]).
  - intros pre post H.
    set (Q := calls isTryClean).
    assert (HQ : forall e, Q e = true -> calls reuseCall e = true).
    { intros [[] o|ch t]; cbn; intros; congruence. }
    assert (HC : forall e, Q e = true -> calls cleanOrReset e = true).
    { intros [[] o|ch t]; cbn; intros; congruence. }
    assert (Qe : Q (Ev TryClean (Returned (VBool false))) = true) by reflexivity.
    destruct (prepare_cases g path url clean w)
      as [(m' & E & _)|[(w' & E)|[(m' & E & _)|[(u & w' & N & E)|(w' & E)]]]];
      rewrite E in H; try rewrite E; clear E; tidy.
    + locate.
    + locate.
      exfalso. eapply forallb_absent; [apply (clearDirectory_free Q), HQ | exact Qe | eassumption].
    + locate.
    + locate.
      exfalso. eapply forallb_absent; [apply (clearDirectory_free Q), HQ | exact Qe | eassumption].
    + destruct (reconcile_events g path clean w') as (locks & d & tail & E & Hl & Hp & Hc).
      cbv zeta in E, Hc. rewrite E in H. clear E. locate.
      destruct (skip_free Q _ _ (locks_free Q path locks HQ Hl) _ _ _ Qe H)
        as (pre1 & -> & H1). clear H.
      destruct (skip_free Q _ _ (prune_free Q _ HC Hp) _ _ _ Qe H1) as (pre2 & -> & H2).
      clear H1.
      destruct Hc as [(dpre & c' & m' & w'' & _ & _ & -> & RR)|(_ & _ & Hc)].
      * locate. exfalso. eapply forallb_absent;
          [apply (clearDirectory_free Q), HQ | exact Qe | eassumption].
      * destruct Hc as [(_ & -> & _)|[(_ & -> & _)|(_ & w'' & head & -> & RR & Hh)]].
        -- locate.
        -- locate.
        -- destruct Hh as [(m' & ->) | [ -> | [(m' & ->) | -> ]]]; cbn [app] in H2; locate;
             try (eexists; split; [reflexivity|]; rewrite RR; apply clearDirectory_run);
             (exfalso; eapply forallb_absent;
               [apply (clearDirectory_free Q), HQ | exact Qe | eassumption]).
  - intros pre post H.
    set (Q := calls isTryReset).
    assert (HQ : forall e, Q e = true -> calls reuseCall e = true).
    { intros [[] o|ch t]; cbn; intros; congruence. }
    assert (HC : forall e, Q e = true -> calls cleanOrReset e = true).
    { intros [[] o|ch t]; cbn; intros; congruence. }
    assert (Qe : Q (Ev TryReset (Returned (VBool false))) = true) by reflexivity.
    destruct (prepare_cases g path url clean w)
      as [(m' & E & _)|[(w' & E)|[(m' & E & _)|[(u & w' & N & E)|(w' & E)]]]];
      rewrite E in H; try rewrite E; clear E; tidy.
    + locate.
    + locate.
      exfalso. eapply forallb_absent; [apply (clearDirectory_free Q), HQ | exact Qe | eassumption].
    + locate.
    + locate.
      exfalso. eapply forallb_absent; [apply (clearDirectory_free Q), HQ | exact Qe | eassumption].
    + destruct (reconcile_events g path clean w') as (locks & d & tail & E & Hl & Hp & Hc).
      cbv zeta in E, Hc. rewrite E in H. clear E. locate.
      destruct (skip_free Q _ _ (locks_free Q path locks HQ Hl) _ _ _ Qe H)
        as (pre1 & -> & H1). clear H.
      destruct (skip_free Q _ _ (prune_free Q _ HC Hp) _ _ _ Qe H1) as (pre2 & -> & H2).
      clear H1.
      destruct Hc as [(dpre & c' & m' & w'' & _ & _ & -> & RR)|(_ & _ & Hc)].
      * locate. exfalso. eapply forallb_absent;
          [apply (clearDirectory_free Q), HQ | exact Qe | eassumption].
      * destruct Hc as [(_ & -> & _)|[(_ & -> & _)|(_ & w'' & head & -> & RR & Hh)]].
        -- locate.
        -- locate.
        -- destruct Hh as [(m' & ->) | [ -> | [(m' & ->) | -> ]]]; cbn [app] in H2; locate;
             try (split;
                  [ eexists (_ :: _ :: locks ++ d); cbn [app];
                    rewrite <- !app_assoc; reflexivity
                  | eexists; split; [reflexivity|]; rewrite RR; apply clearDirectory_run ]);
             (exfalso; eapply forallb_absent;
               [apply (clearDirectory_free Q), HQ | exact Qe | eassumption]).
  - intros e H. destruct (prepare_blames g path url clean w e H) as (pre & c & m & E1 & E2 & E3).
    exists pre, c, m. rewrite negb_true_iff in E3. auto.
Qed.



(** Claim C4, as amended.  With [clean] false, [prepareExistingDirectory]
    never calls [tryClean] nor [tryReset].  For a repository whose recorded
    URL is the expected one, and as long as no operation of the reuse
    attempt raises, the call returns and does nothing but delete the two
    lock files (best effort), ask whether HEAD is detached, detach it when it
    is not, and list and delete the local and then the remote-tracking
    branches: the entries of the directory are neither listed nor removed. *)
Theorem reuse_without_clean (g : IGitCommandManager W) path url w :
  let r := prepareExistingDirectory env (Some g) path url false w in
  forallb (fun e => negb (calls cleanOrReset e)) (events r) = true /\
  (forall lead,
      events r = Ev (DirectoryExistsSync (path_join env [path; ".git"%string]))
                   (Returned (VBool true))
                 :: Ev TryGetFetchUrl (Returned (VString url)) :: lead ->
      forallb (fun e => negb (reuseRejected e)) lead = true ->
      res r = Ok tt /\
      exists locks detached locals remotes,
        forallb (lockEvent env path) locks = true /\
        lead = locks ++ pruned detached locals remotes).
Proof.
  cbv zeta. split.
  - unfold prepareExistingDirectory. footprint.
  - intros lead H F.
    destruct (prepare_cases g path url false w)
      as [(m' & E & _)|[(w' & E)|[(m' & E & _)|[(u & w' & N & E)|(w' & E)]]]];
      try (rewrite E in H; discriminate H);
      rewrite E in H |- *; clear E; tidy.
    + congruence.
    + apply cons_eq_inv in H. destruct H as [_ H].
      apply cons_eq_inv in H. destruct H as [_ H]. subst lead.
      destruct (reconcile_events g path false w') as (locks & d & tail & E & Hl & Hp & Hc).
      cbv zeta in E. rewrite E in F |- *.
      destruct Hc as [(dpre & c & m & w'' & -> & _ & _ & _)|(_ & Hk & Hc)].
      * exfalso. rewrite !forallb_app in F. cbn in F.
        rewrite !forallb_app in Hp. cbn in Hp. unfold pruneEvent in Hp. cbn in Hp.
        unfold reuseRejected in F. cbn in F.
        destruct (reuseCall c); cbn in *;
          rewrite ?andb_false_r, ?andb_false_l in *; discriminate.
      * destruct Hk as (dd & locals & remotes & ->).
        destruct Hc as [(_ & -> & R)|[(C & _)|(C & _)]]; try discriminate.
        split; [exact R|]. exists locks, dd, locals, remotes.
        rewrite app_nil_r. auto.
Qed.

End ReconcilerFacts.

Section CredentialFacts.

Context {W : Type}.
Variable env : Env W.

Lemma dollarFree_append a b :
  JS.dollarFree (a ++ b)%string = JS.dollarFree a && JS.dollarFree b.
Proof.
  induction a as [|c a IH]; [reflexivity|].
  change (String c a ++ b)%string with (String c (a ++ b)%string).
  cbn [JS.dollarFree]. rewrite IH, andb_assoc. reflexivity.
Qed.

Lemma authHeader_dollarFree token : JS.dollarFree (authHeader token) = true.
Proof.
  unfold authHeader, basicCredential. rewrite dollarFree_append.
  rewrite JSFacts.base64_dollarFree. reflexivity.
Qed.

(** Claim C2, as amended.  [configureAuthToken] first asks git to write the
    placeholder under [authConfigKey]; once that has returned it marks the
    base64 credential as a secret and reads the configuration file.  On the
    content that is read it throws its own error exactly when the placeholder
    does not occur once, and writes nothing; when the placeholder occurs
    once, it writes back the content with the placeholder replaced, where it
    stands, by ["AUTHORIZATION: basic "] followed by the base64 of
    ["x-access-token:<token>"].  A rejection of [config], of [readFile] or of
    [writeFile] is an error of the call as well. *)
Theorem configureAuthToken_substitutes (g : IGitCommandManager W) token w :
  let r := configureAuthToken env g token w in
  let configPath := path_join env [getWorkingDirectory g; ".git"; "config"]%string in
  exists o1 rest1,
    events r = Ev (Config authConfigKey placeholder) o1 :: rest1 /\
    match o1 with
    | Raised m => rest1 = [] /\ res r = Err (Rejected m)
    | Returned _ =>
        exists o2 rest2,
          rest1 = Core Secret (basicCredential token)
                  :: Ev (ReadFile configPath) o2 :: rest2 /\
          match o2 with
          | Raised m => rest2 = [] /\ res r = Err (Rejected m)
          | Returned (VString content) =>
              (res r = Err placeholderError <-> JS.occurrences placeholder content <> 1) /\
              (JS.occurrences placeholder content <> 1 ->
               rest2 = [] /\ res r = Err placeholderError) /\
              (JS.occurrences placeholder content = 1 ->
               exists before after o3,
                 content = (before ++ placeholder ++ after)%string /\
                 rest2 = [Ev (WriteFile configPath
                                (before ++ authHeader token ++ after)%string) o3] /\
                 res r = match o3 with
                         | Returned _ => Ok tt
                         | Raised m => Err (Rejected m)
                         end)
          | Returned _ => False
          end
    end.
Proof.
  cbv zeta. unfold configureAuthToken. unfold_calls.
  rewrite bind_call. answer; tidy.
  { eexists (Raised m), []. split; [reflexivity|]. split; reflexivity. }
  rewrite bind_core, bind_call. tidy. answer; tidy.
  { eexists (Returned VUnit), _. split; [destruct a; reflexivity|].
    eexists (Raised m), []. split; [reflexivity|]. split; reflexivity. }
  eexists (Returned VUnit), _. split; [destruct a; reflexivity|].
  match goal with
  | |- context [if ?c then _ else _] => destruct c eqn:C
  end; tidy.
  - apply JSFacts.ambiguous_iff in C.
    eexists (Returned (VString a0)), []. split; [reflexivity|].
    split; [tauto|]. split; [auto|]. intros; congruence.
  - assert (O : JS.occurrences placeholder a0 = 1).
    { destruct (Nat.eq_dec (JS.occurrences placeholder a0) 1) as [O|O]; [exact O|].
      apply JSFacts.ambiguous_iff in O. congruence. }
    destruct (JSFacts.occurrences_split placeholder a0) as (before & after & ->);
      [rewrite O; discriminate|].
    rewrite (JSFacts.replace_unique _ _ _ _ O (authHeader_dollarFree token)).
    rewrite call_run.
    answer; tidy.
    + eexists (Returned (VString _)), _. split; [reflexivity|].
      split; [split; [discriminate | congruence]|].
      split; [congruence|]. intros _. eexists before, after, (Raised m).
      repeat split.
    + eexists (Returned (VString _)), _. split; [reflexivity|].
      split; [split; [discriminate | congruence]|].
      split; [congruence|]. intros _. eexists before, after, (Returned VUnit).
      repeat match goal with u : unit |- _ => destruct u end. repeat split.
Qed.

End CredentialFacts.

Section SourceFacts.

Context {W : Type}.
Variable env : Env W.

Lemma getGitCommandManager_cases settings w :
  let x := getGitCommandManager env settings w in
  let create := CreateCommandManager (repositoryPath settings) (lfs settings) in
  (exists g w',
      createCommandManager env (repositoryPath settings) (lfs settings) w = (inr g, w') /\
      x = {| res := Ok (Some g); final := w';
             events := [Core Info (workingDirectoryText settings);
                        Ev create (Returned VGit)] |}) \/
  (exists m w',
      createCommandManager env (repositoryPath settings) (lfs settings) w = (inl m, w') /\
      x = {| res := (if lfs settings then Err (Rejected m) else Ok None); final := w';
             events := [Core Info (workingDirectoryText settings);
                        Ev create (Raised m)] |}).
Proof.
  cbv zeta. unfold getGitCommandManager, gitCommandManager_CreateCommandManager, core_info.
  rewrite bind_core, tryCatch_run, bind_call.
  destruct (createCommandManager env (repositoryPath settings) (lfs settings) w)
    as [[m|g] w'] eqn:E; tidy.
  - right. exists m, w'. split; [reflexivity|]. destruct (lfs settings); tidy; reflexivity.
  - left. exists g, w'. split; reflexivity.
Qed.

(** The ways of [getSource] up to the gateway. *)
Lemma getSource_cases settings w :
  let r := getSource env settings w in
  let ee := enterDirectory env settings w in
  let create := CreateCommandManager (repositoryPath settings) (lfs settings) in
  let lead := Core Info (syncingText settings) :: events ee in
  (exists e, res ee = Err e /\
     r = {| res := Err e; final := final ee; events := lead |}) \/
  (exists isExisting m w',
     res ee = Ok isExisting /\
     createCommandManager env (repositoryPath settings) (lfs settings) (final ee)
       = (inl m, w') /\
     lfs settings = true /\
     r = {| res := Err (Rejected m); final := w';
            events := lead ++ [Core Info (workingDirectoryText settings);
                               Ev create (Raised m)] |}) \/
  (exists isExisting m w',
     res ee = Ok isExisting /\
     createCommandManager env (repositoryPath settings) (lfs settings) (final ee)
       = (inl m, w') /\
     lfs settings = false /\
     r = prepend (lead ++ [Core Info (workingDirectoryText settings);
                           Ev create (Raised m)])
           (afterGateway env None isExisting settings w')) \/
  (exists isExisting g w',
     res ee = Ok isExisting /\
     createCommandManager env (repositoryPath settings) (lfs settings) (final ee)
       = (inr g, w') /\
     r = prepend (lead ++ [Core Info (workingDirectoryText settings);
                           Ev create (Returned VGit)])
           (afterGateway env (Some g) isExisting settings w')).
Proof.
  cbv zeta. rewrite getSource_parts. unfold getSourceByParts, core_info.
  rewrite bind_core, bind_run.
  destruct (res (enterDirectory env settings w)) as [isExisting|e] eqn:R.
  2:{ left. exists e. split; reflexivity. }
  right. rewrite bind_run.
  destruct (getGitCommandManager_cases settings (final (enterDirectory env settings w)))
    as [(g & w' & C & E)|(m & w' & C & E)]; rewrite E; clear E; tidy.
  - right; right. exists isExisting, g, w'. split; [reflexivity|]. split; [exact C|].
    unfold prepend; tidy. rewrite <- app_assoc. reflexivity.
  - destruct (lfs settings) eqn:L; tidy.
    + left. exists isExisting, m, w'. repeat split; auto.
    + right; left. exists isExisting, m, w'. repeat split; auto.
      unfold prepend; tidy. rewrite <- app_assoc. reflexivity.
Qed.

Lemma downloadFallback_run settings w :
  let x := downloadFallback env settings w in
  exists t1 t2 o,
    events x = [Core Info t1; Core Info t2; Ev (downloadCall settings) o] /\
    ((o = Returned VUnit /\ res x = Ok tt) \/
     (exists m, o = Raised m /\ res x = Err (Rejected m))).
Proof.
  cbv zeta. unfold downloadFallback, githubApiHelper_downloadRepository, core_info.
  rewrite !bind_core, call_run. fold (downloadCall settings).
  answer; tidy; eexists _, _, _; (split; [reflexivity|]).
  - right. eauto.
  - left. destruct a. auto.
Qed.

(** The fallback: the directory is cleared when it existed, and the download
    is the last call. *)
Lemma fallback_shape isExisting settings w :
  let x := afterGateway env None isExisting settings w in
  exists cleared tail,
    events x = cleared ++ tail /\
    forallb (fun e => fallbackEvent e && negb (calls isDownload e)) cleared = true /\
    ((tail = [] /\ exists c m, res x = Err (Rejected m) /\
                     exists mid, cleared = mid ++ [Ev c (Raised m)]) \/
     (exists t1 t2 o,
         tail = [Core Info t1; Core Info t2; Ev (downloadCall settings) o] /\
         ((o = Returned VUnit /\ res x = Ok tt) \/
          (exists m, o = Raised m /\ res x = Err (Rejected m))))).
Proof.
  cbv zeta. unfold afterGateway, synchronize. rewrite bind_run.
  set (p := (if isExisting
             then prepareExistingDirectory env None (repositoryPath settings)
                    (repositoryUrlOf env settings) (clean settings)
             else ret tt) w).
  assert (F : forallb (fun e => fallbackEvent e && negb (calls isDownload e)) (events p) = true).
  { subst p. revert w.
    change (emits (fun e => fallbackEvent e && negb (calls isDownload e))
              (if isExisting
               then prepareExistingDirectory env None (repositoryPath settings)
                      (repositoryUrlOf env settings) (clean settings)
               else ret tt)).
    unfold prepareExistingDirectory. footprint. }
  assert (B : forall e, res p = Err e ->
                exists mid c m, events p = mid ++ [Ev c (Raised m)] /\ e = Rejected m).
  { intros e R. subst p.
    assert (Bl : blames (fun _ => true)
                   (if isExisting
                    then prepareExistingDirectory env None (repositoryPath settings)
                           (repositoryUrlOf env settings) (clean settings)
                    else ret tt)).
    { unfold prepareExistingDirectory. blame. }
    destruct (Bl w e R) as (mid & c & m & E1 & E2 & _). eauto. }
  destruct (res p) as [[]|e] eqn:R.
  - destruct (downloadFallback_run settings (final p)) as (t1 & t2 & o & E1 & E2).
    exists (events p), [Core Info t1; Core Info t2; Ev (downloadCall settings) o].
    tidy. rewrite E1. split; [reflexivity|]. split; [exact F|].
    right. exists t1, t2, o. split; [reflexivity | exact E2].
  - destruct (B e eq_refl) as (mid & c & m & E1 & ->).
    exists (events p), []. tidy. rewrite app_nil_r.
    split; [reflexivity|]. split; [exact F|]. left. split; [reflexivity|].
    exists c, m. split; [reflexivity|]. exists mid. exact E1.
Qed.

Lemma enter_free (Q : Event -> bool) settings w :
  (forall e, Q e = true -> fallbackEvent e = false \/ calls isCreate e = true) ->
  forallb (fun e => negb (Q e))
    (Core Info (syncingText settings) :: events (enterDirectory env settings w)) = true.
Proof.
  intros H.
  assert (F : emits (fun e => fallbackEvent e && negb (calls isCreate e))
                (enterDirectory env settings)).
  { unfold enterDirectory. footprint. }
  cbn [forallb]. apply andb_true_iff. split.
  - destruct (Q (Core Info (syncingText settings))) eqn:E; [|reflexivity].
    destruct (H _ E); discriminate.
  - eapply forallb_weaken; [|exact (F w)].
    intros e. rewrite andb_true_iff, negb_true_iff. intros [E1 E2].
    destruct (Q e) eqn:E; [|reflexivity]. destruct (H _ E); congruence.
Qed.

Lemma afterGateway_emits (P : Event -> bool) git isExisting settings :
  (forall ch t, P (Core ch t) = true) ->
  (forall c o, isCreate c = false -> P (Ev c o) = true) ->
  emits P (afterGateway env git isExisting settings).
Proof.
  intros H1 H2.
  unfold afterGateway, synchronize, credentialBracket, setUp, fetchAndCheckout,
    checkoutResolved, releaseCredential, downloadFallback, configureAuthToken,
    removeGitConfig, prepareExistingDirectory.
  unfold_calls.
  repeat first
    [ apply emits_ret
    | apply emits_throw
    | apply emits_core; apply H1
    | apply emits_call; intros ?; apply H2; reflexivity
    | apply emits_bind; [|intros ?]
    | apply emits_forEach; intros ?
    | apply emits_tryCatch; [|intros ?]
    | apply emits_tryFinally
    | apply emits_if
    | match goal with |- emits _ (match ?x with _ => _ end) => destruct x end ].
Qed.

(** Claim C5.  When the construction of the gateway fails, [getSource] stops
    there with that error if [lfs] is true.  If [lfs] is false the run goes
    on without a gateway: what follows consists of lines of text, of the
    clearing of a directory that existed, and of the call of
    [downloadRepository] with the token, the owner, the name, the ref, the
    commit and the path of the settings, which is the last event of a run
    that returns; an error of such a run is the rejection of one of these
    later calls. *)
Theorem gateway_failure_is_fatal_only_for_lfs settings w :
  let r := getSource env settings w in
  forall pre m post,
    events r = pre ++ Ev (CreateCommandManager (repositoryPath settings) (lfs settings))
                        (Raised m) :: post ->
    (lfs settings = true -> res r = Err (Rejected m) /\ post = []) /\
    (lfs settings = false ->
     forallb fallbackEvent post = true /\
     (forall c o, In (Ev c o) post -> isDownload c = true -> c = downloadCall settings) /\
     (res r = Ok tt ->
      exists mid, post = mid ++ [Ev (downloadCall settings) (Returned VUnit)]) /\
     (forall e, res r = Err e ->
      exists mid c m', post = mid ++ [Ev c (Raised m')] /\ e = Rejected m')).
Proof.
  cbv zeta. intros pre m post H.
  set (Q := fun e => calls isCreate e).
  assert (HQ : forall e, Q e = true -> fallbackEvent e = false \/ calls isCreate e = true)
    by (intros; right; assumption).
  assert (Qe : Q (Ev (CreateCommandManager (repositoryPath settings) (lfs settings))
                    (Raised m)) = true) by reflexivity.
  pose proof (enter_free Q settings w HQ) as F.
  assert (FA : forall git ex w',
             forallb (fun e => negb (Q e)) (events (afterGateway env git ex settings w')) = true).
  { intros. apply afterGateway_emits; [reflexivity|].
    intros c o N. unfold Q. cbn. rewrite N. reflexivity. }
  destruct (getSource_cases settings w)
    as [(e & R & E)|[(ex & m' & w' & R & C & L & E)|[(ex & m' & w' & R & C & L & E)
       |(ex & g & w' & R & C & E)]]];
    cbv zeta in E; rewrite E in H |- *; clear E; cbn [prepend res final events] in *.
  - exfalso. eapply forallb_absent; [exact F | exact Qe | exact H].
  - destruct (skip_free Q _ _ F _ _ _ Qe H) as (pre1 & -> & H1). locate.
    split; [auto | congruence].
  - rewrite <- app_assoc in H.
    destruct (skip_free Q _ _ F _ _ _ Qe H) as (pre1 & -> & H1). cbn [app] in H1. locate.
    2:{ exfalso. eapply forallb_absent; [apply FA | exact Qe | eassumption]. }
    split; [congruence|]. intros _.
    destruct (fallback_shape ex settings w') as (cleared & tail & E & Fc & Ht).
    cbv zeta in E, Ht. rewrite E.
    assert (Fc1 : forallb fallbackEvent cleared = true).
    { eapply forallb_weaken; [|exact Fc]. intros e. rewrite andb_true_iff. tauto. }
    assert (Fc2 : forall c o, In (Ev c o) cleared -> isDownload c = true -> False).
    { intros c o I D. rewrite forallb_forall in Fc. specialize (Fc _ I).
      cbn in Fc. rewrite D, andb_false_r in Fc. discriminate. }
    destruct Ht as [(-> & c & m0 & R0 & mid & ->)|(t1 & t2 & o & -> & R0)].
    + rewrite app_nil_r in *. split; [exact Fc1|]. split.
      { intros c' o' I D. destruct (Fc2 _ _ I D). }
      split; [congruence|]. intros e0 Re. exists mid, c, m0. split; [reflexivity|]. congruence.
    + split; [rewrite forallb_app, Fc1; reflexivity|]. split.
      { intros c' o' I D. apply in_app_or in I. destruct I as [I|I].
        - destruct (Fc2 _ _ I D).
        - cbn in I. destruct I as [I|[I|[I|[]]]]; congruence. }
      destruct R0 as [(-> & R0)|(m0 & -> & R0)]; rewrite R0; split.
      * intros _.
        exists (cleared ++ [Core Info t1; Core Info t2]). rewrite <- app_assoc. reflexivity.
      * intros e0 Re. discriminate.
      * intros Ro. discriminate.
      * intros e0 Re.
        exists (cleared ++ [Core Info t1; Core Info t2]), (downloadCall settings), m0.
        rewrite <- app_assoc. split; [reflexivity | congruence].
  - rewrite <- app_assoc in H.
    destruct (skip_free Q _ _ F _ _ _ Qe H) as (pre1 & -> & H1). cbn [app] in H1. locate.
    exfalso. eapply forallb_absent; [apply FA | exact Qe | eassumption].
Qed.

Lemma fallback_redact isExisting settings token w :
  map redact (events (afterGateway env None isExisting (withToken settings token) w))
  = map redact (events (afterGateway env None isExisting settings w)).
Proof.
  unfold afterGateway, synchronize, repositoryUrlOf.
  cbn [withToken repositoryPath repositoryOwner repositoryName clean].
  rewrite !bind_run.
  destruct (res ((if isExisting
                  then prepareExistingDirectory env None (repositoryPath settings)
                         ("https://github.com/" ++
                          encodeURIComponent env (repositoryOwner settings) ++
                          "/" ++ encodeURIComponent env (repositoryName settings))%string
                         (clean settings)
                  else ret tt) w)) as [[]|e]; [|reflexivity].
  cbn [prepend events]. rewrite !map_app. f_equal.
  unfold downloadFallback, githubApiHelper_downloadRepository, core_info.
  cbn [withToken repositoryPath repositoryOwner repositoryName ref commit authToken].
  rewrite !bind_core, !call_run.
  do 2 answer; tidy; reflexivity.
Qed.

(** The answer of the probe of the directory is the value of [isExisting]. *)
Lemma enterDirectory_answer settings w isExisting b :
  res (enterDirectory env settings w) = Ok isExisting ->
  In (Ev (DirectoryExistsSync (repositoryPath settings)) (Returned (VBool b)))
     (events (enterDirectory env settings w)) ->
  isExisting = b.
Proof.
  unfold enterDirectory. unfold_calls.
  repeat first
    [ rewrite bind_assoc | rewrite bind_ret
    | rewrite bind_call; answer; tidy
    | match goal with
      | |- context [if negb ?c then _ else _] => is_var c; destruct c; cbn [negb]; cbv iota
      | |- context [if ?c then _ else _] => is_var c; destruct c; cbv iota
      end ];
    tidy; cbn [In]; intros R I;
    repeat match goal with
           | H : _ \/ _ |- _ => destruct H
           | H : False |- _ => destruct H
           end;
    congruence.
Qed.

(** Without a gateway, an existing directory is cleared and the repository
    is downloaded. *)
Lemma fallback_clears settings w :
  let x := afterGateway env None true settings w in
  let path := repositoryPath settings in
  exists o evs,
    events x = Core Info (deletingText path) :: Ev (Readdir path) o :: evs /\
    match o with
    | Raised m => evs = [] /\ res x = Err (Rejected m)
    | Returned (VStrings names) =>
        exists dels tail d,
          evs = dels ++ tail /\
          deletion (join env) path names dels d /\
          match d with
          | Ok _ =>
              exists o',
                tail = [Core Info downloadingText; Core Info (addGitText env);
                        Ev (downloadCall settings) o'] /\
                res x = match o' with
                        | Returned _ => Ok tt
                        | Raised m => Err (Rejected m)
                        end
          | Err e => tail = [] /\ res x = Err e
          end
    | Returned _ => False
    end.
Proof.
  cbv zeta. unfold afterGateway, synchronize.
  rewrite bind_run, prepare_parts. unfold prepareByParts, decideRemoval.
  rewrite bind_ret.
  destruct (clearDirectory_run env (repositoryPath settings) w) as (o & evs & E1 & E2).
  cbv zeta in E1, E2.
  destruct (res (clearDirectory env true (repositoryPath settings) w)) as [[]|e] eqn:R;
    tidy; rewrite E1; cbn [app].
  - eexists o, _. split; [reflexivity|].
    destruct o as [[| | |names| |]|m]; try contradiction.
    + exists evs, (events (downloadFallback env settings
                             (final (clearDirectory env true (repositoryPath settings) w)))),
             (Ok tt).
      split; [reflexivity|]. split; [exact E2|].
      unfold downloadFallback, githubApiHelper_downloadRepository, core_info.
      rewrite !bind_core, call_run. fold (downloadCall settings).
      answer; tidy; repeat match goal with u : unit |- _ => destruct u end;
        eexists; split; reflexivity.
    + destruct E2; discriminate.
  - exists o, evs. split; [reflexivity|].
    destruct o as [[| | |names| |]|m]; try contradiction.
    + exists evs, [], (Err e). rewrite app_nil_r. repeat split. exact E2.
    + exact E2.
Qed.

(** Claim C10, as amended.  In a run of [getSource] that falls back to the
    download (the construction of the gateway failed and [lfs] is false), no
    call reads or writes the configuration, records the path for [cleanup]
    or is an operation of the gateway, and the token reaches the download
    only: a run with another token has the same events up to the token given
    to [downloadRepository] and to what it answers.  The configuration can be
    deleted, though: when the path was a directory, what follows the failed
    construction is the listing of the directory and [rmRF] on each entry of
    the listing, up to the first rejection, and then the download; when the
    directory has just been made, the download alone follows. *)
Theorem fallback_leaves_config_alone settings w :
  let r := getSource env settings w in
  let path := repositoryPath settings in
  lfs settings = false ->
  forall pre m post,
    events r = pre ++ Ev (CreateCommandManager path (lfs settings)) (Raised m) :: post ->
    forallb leavesConfigAlone (events r) = true /\
    (forall token,
        map redact (events (getSource env (withToken settings token) w))
        = map redact (events r)) /\
    (In (Ev (DirectoryExistsSync path) (Returned (VBool true))) pre ->
     exists o evs,
       post = Core Info (deletingText path) :: Ev (Readdir path) o :: evs /\
       match o with
       | Raised m' => evs = [] /\ res r = Err (Rejected m')
       | Returned (VStrings names) =>
           exists dels tail d,
             evs = dels ++ tail /\
             deletion (join env) path names dels d /\
             match d with
             | Ok _ =>
                 exists o',
                   tail = [Core Info downloadingText; Core Info (addGitText env);
                           Ev (downloadCall settings) o'] /\
                   res r = match o' with
                           | Returned _ => Ok tt
                           | Raised m' => Err (Rejected m')
                           end
             | Err e => tail = [] /\ res r = Err e
             end
       | Returned _ => False
       end) /\
    (In (Ev (DirectoryExistsSync path) (Returned (VBool false))) pre ->
     exists o',
       post = [Core Info downloadingText; Core Info (addGitText env);
               Ev (downloadCall settings) o']).
Proof.
  cbv zeta. intros L pre m post H.
  set (Q := fun e => calls isCreate e).
  assert (HQ : forall e, Q e = true -> fallbackEvent e = false \/ calls isCreate e = true)
    by (intros; right; assumption).
  assert (Qe : Q (Ev (CreateCommandManager (repositoryPath settings) (lfs settings))
                    (Raised m)) = true) by reflexivity.
  pose proof (enter_free Q settings w HQ) as F.
  assert (FA : forall git ex w',
             forallb (fun e => negb (Q e)) (events (afterGateway env git ex settings w')) = true).
  { intros. apply afterGateway_emits; [reflexivity|].
    intros c o N. unfold Q. cbn. rewrite N. reflexivity. }
  destruct (getSource_cases settings w)
    as [(e & R & E)|[(ex & m' & w' & R & C & L' & E)|[(ex & m' & w' & R & C & _ & E)
       |(ex & g & w' & R & C & E)]]];
    cbv zeta in E; rewrite E in H |- *; clear E; cbn [prepend res final events] in *.
  - exfalso. eapply forallb_absent; [exact F | exact Qe | exact H].
  - congruence.
  - split; [|split].
    + rewrite !forallb_app. cbn [forallb]. apply andb_true_iff. split.
      * apply andb_true_iff. split; [|reflexivity].
        assert (G : emits leavesConfigAlone (enterDirectory env settings)).
        { unfold enterDirectory. footprint. }
        rewrite (G w). reflexivity.
      * assert (G : emits leavesConfigAlone (afterGateway env None ex settings)).
        { unfold afterGateway, synchronize, downloadFallback, prepareExistingDirectory.
          footprint. }
        apply G.
    + intros token.
      destruct (getSource_cases (withToken settings token) w)
        as [(e & R' & E)|[(ex' & m'' & w'' & R' & C' & L' & E)
           |[(ex' & m'' & w'' & R' & C' & _ & E)|(ex' & g & w'' & R' & C' & E)]]];
        cbv zeta in E; rewrite E; clear E;
        change (enterDirectory env (withToken settings token) w)
          with (enterDirectory env settings w) in *;
        cbn [withToken repositoryPath lfs] in *.
      * congruence.
      * congruence.
      * assert (ex' = ex) by congruence. assert (m'' = m') by congruence.
        assert (w'' = w') by congruence. subst.
        cbn [prepend events]. rewrite !map_app. f_equal. apply fallback_redact.
      * congruence.
    + rewrite <- app_assoc in H.
      destruct (skip_free Q _ _ F _ _ _ Qe H) as (pre1 & -> & H1). cbn [app] in H1. locate.
      2:{ exfalso. eapply forallb_absent; [apply FA | exact Qe | eassumption]. }
      assert (K : forall b,
                 In (Ev (DirectoryExistsSync (repositoryPath settings)) (Returned (VBool b)))
                    ((Core Info (syncingText settings)
                      :: events (enterDirectory env settings w))
                     ++ [Core Info (workingDirectoryText settings)]) ->
                 ex = b).
      { intros b I. apply in_app_or in I. destruct I as [[I|I]|[I|[]]]; try discriminate.
        exact (enterDirectory_answer settings w ex b R I). }
      split; intros I; apply K in I; subst ex.
      * apply fallback_clears.
      * unfold afterGateway, synchronize. rewrite bind_ret.
        unfold downloadFallback, githubApiHelper_downloadRepository, core_info.
        rewrite !bind_core, call_run. fold (downloadCall settings).
        answer; tidy; repeat match goal with u : unit |- _ => destruct u end;
          eexists; reflexivity.
  - rewrite <- app_assoc in H.
    destruct (skip_free Q _ _ F _ _ _ Qe H) as (pre1 & -> & H1). cbn [app] in H1. locate.
    exfalso. eapply forallb_absent; [apply FA | exact Qe | eassumption].
Qed.



Lemma bracket_run (g : IGitCommandManager W) settings w :
  let x := credentialBracket env g settings w in
  let b := fetchAndCheckout env g settings w in
  let f := releaseCredential g settings (final b) in
  events x = events b ++ events f /\
  final x = final f /\
  res x = match res f with
          | Ok _ => res b
          | Err e => Err e
          end.
Proof. cbv zeta. repeat split. Qed.

(** A run of [getSource] either never reaches the bracket, or it is what
    leads to the bracket followed by the bracket. *)
Lemma getSource_bracket settings w :
  let r := getSource env settings w in
  forallb beforeBracket (events r) = true \/
  exists g w0 w0' lead w1,
    createCommandManager env (repositoryPath settings) (lfs settings) w0 = (inr g, w0') /\
    forallb beforeBracket lead = true /\
    r = prepend lead (credentialBracket env g settings w1).
Proof.
  cbv zeta.
  assert (G : emits beforeBracket (enterDirectory env settings)).
  { unfold enterDirectory. footprint. }
  destruct (getSource_cases settings w)
    as [(e & R & E)|[(ex & m' & w' & R & C & L & E)|[(ex & m' & w' & R & C & L & E)
       |(ex & g & w' & R & C & E)]]];
    cbv zeta in E; rewrite E; clear E; cbn [prepend res final events] in *.
  - left. cbn [forallb]. rewrite (G w). reflexivity.
  - left. rewrite forallb_app. cbn [forallb]. rewrite (G w). reflexivity.
  - left. rewrite !forallb_app. cbn [forallb]. rewrite (G w). cbn [andb].
    assert (G' : emits beforeBracket (afterGateway env None ex settings)).
    { unfold afterGateway, synchronize, downloadFallback, prepareExistingDirectory.
      footprint. }
    apply G'.
  - unfold afterGateway, synchronize. rewrite bind_run.
    set (p := (if ex
               then prepareExistingDirectory env (Some g) (repositoryPath settings)
                      (repositoryUrlOf env settings) (clean settings)
               else ret tt) w').
    assert (Gp : forallb beforeBracket (events p) = true).
    { subst p.
      assert (X : emits beforeBracket
                    (if ex
                     then prepareExistingDirectory env (Some g) (repositoryPath settings)
                            (repositoryUrlOf env settings) (clean settings)
                     else ret tt)).
      { unfold prepareExistingDirectory. footprint. }
      apply X. }
    assert (Gs : emits beforeBracket (setUp env g settings)).
    { unfold setUp, removeGitConfig. footprint. }
    destruct (res p) as [[]|e] eqn:Rp; cbn [prepend res final events].
    2:{ left. rewrite !forallb_app. cbn [forallb]. rewrite (G w), Gp. reflexivity. }
    rewrite bind_run. specialize (Gs (final p)).
    destruct (res (setUp env g settings (final p))) as [[]|e] eqn:Rs;
      cbn [prepend res final events].
    2:{ left. rewrite !forallb_app. cbn [forallb]. rewrite (G w), Gp, Gs. reflexivity. }
    right.
    exists g, (final (enterDirectory env settings w)), w'.
    exists ((Core Info (syncingText settings) :: events (enterDirectory env settings w)) ++
            [Core Info (workingDirectoryText settings);
             Ev (CreateCommandManager (repositoryPath settings) (lfs settings))
               (Returned VGit)] ++ events p ++ events (setUp env g settings (final p))).
    exists (final (setUp env g settings (final p))).
    split; [exact C|]. split.
    + rewrite !forallb_app. cbn [forallb app]. rewrite (G w), Gp, Gs. reflexivity.
    + unfold prepend. cbn [res final events]. f_equal.
      rewrite <- !app_assoc. reflexivity.
Qed.

Lemma not_before l pre e post :
  forallb beforeBracket l = true -> beforeBracket e = false -> l <> pre ++ e :: post.
Proof.
  intros F N E. subst l. rewrite forallb_app in F. cbn [forallb] in F.
  rewrite N, andb_false_r in F. discriminate.
Qed.

Lemma removeGitConfig_cases (g : IGitCommandManager W) w :
  let f := removeGitConfig g authConfigKey w in
  let found := Ev (ConfigExists authConfigKey) in
  let unset := Ev (TryConfigUnset authConfigKey) in
  (exists m w1,
      configExists g authConfigKey w = (inl m, w1) /\
      f = {| res := Err (Rejected m); final := w1; events := [found (Raised m)] |}) \/
  (exists w1,
      configExists g authConfigKey w = (inr false, w1) /\
      f = {| res := Ok tt; final := w1; events := [found (Returned (VBool false))] |}) \/
  (exists w1 m w2,
      configExists g authConfigKey w = (inr true, w1) /\
      tryConfigUnset g authConfigKey w1 = (inl m, w2) /\
      f = {| res := Err (Rejected m); final := w2;
             events := [found (Returned (VBool true)); unset (Raised m)] |}) \/
  (exists w1 w2,
      configExists g authConfigKey w = (inr true, w1) /\
      tryConfigUnset g authConfigKey w1 = (inr true, w2) /\
      f = {| res := Ok tt; final := w2;
             events := [found (Returned (VBool true)); unset (Returned (VBool true))] |}) \/
  (exists w1 w2,
      configExists g authConfigKey w = (inr true, w1) /\
      tryConfigUnset g authConfigKey w1 = (inr false, w2) /\
      f = {| res := Ok tt; final := w2;
             events := [found (Returned (VBool true)); unset (Returned (VBool false));
                        Core Warning removalWarning] |}).
Proof.
  cbv zeta. unfold removeGitConfig. unfold_calls.
  rewrite bind_call. answer; tidy.
  { left. eauto. }
  destruct a; cbv iota.
  2:{ right; left. eauto. }
  rewrite bind_call. answer; tidy.
  { right; right; left. eauto 6. }
  destruct a; cbn [negb]; cbv iota; tidy.
  - right; right; right; left. eauto 6.
  - right; right; right; right. eauto 6.
Qed.

(** Claim C1, as amended.  When [persistCredentials] is false and the run of
    [getSource] has entered the bracket (it has written a value under
    [authConfigKey]), the run ends with [removeGitConfig git authConfigKey],
    executed in the world the body of the [try] left, however that body
    ended: the events are those of the body followed by those of the
    removal, and the result is the one of the body unless the removal itself
    raises.  Given a configuration whose probe tells the truth and in which
    an entry that git has unset is gone, an entry is left under the key only
    if [tryConfigUnset] answered no, which the file reports by a warning, or
    if the removal raised. *)
Theorem credential_released_on_every_exit (hasEntry : W -> bool) settings w :
  (forall w0 g w1,
      createCommandManager env (repositoryPath settings) (lfs settings) w0 = (inr g, w1) ->
      (forall wa b wb, configExists g authConfigKey wa = (inr b, wb) -> hasEntry wb = b) /\
      (forall wa wb, tryConfigUnset g authConfigKey wa = (inr true, wb) ->
                     hasEntry wb = false)) ->
  persistCredentials settings = false ->
  let r := getSource env settings w in
  forall pre o post,
    events r = pre ++ Ev (Config authConfigKey placeholder) o :: post ->
    exists g w1 lead,
      let b := fetchAndCheckout env g settings w1 in
      let f := removeGitConfig g authConfigKey (final b) in
      events r = lead ++ events b ++ events f /\
      final r = final f /\
      res r = match res f with
              | Ok _ => res b
              | Err e => Err e
              end /\
      (hasEntry (final r) = true ->
       events f = [Ev (ConfigExists authConfigKey) (Returned (VBool true));
                   Ev (TryConfigUnset authConfigKey) (Returned (VBool false));
                   Core Warning removalWarning] \/
       exists pre' c m,
         events f = pre' ++ [Ev c (Raised m)] /\ res r = Err (Rejected m)).
Proof.
  cbv zeta. intros K P pre o post H.
  destruct (getSource_bracket settings w)
    as [F|(g & w0 & w0' & lead & w1 & C & F & E)].
  { exfalso. eapply not_before; [exact F | | exact H]. reflexivity. }
  cbv zeta in E. rewrite E. clear E H.
  destruct (bracket_run g settings w1) as (E1 & E2 & E3). cbv zeta in E1, E2, E3.
  unfold releaseCredential in E1, E2, E3. rewrite P in E1, E2, E3. cbn [negb] in E1, E2, E3.
  exists g, w1, lead. cbn [prepend res final events].
  rewrite E1, E2, E3. repeat split.
  destruct (K _ _ _ C) as [K1 K2].
  destruct (removeGitConfig_cases g (final (fetchAndCheckout env g settings w1)))
    as [(m & wa & X & ->)|[(wa & X & ->)|[(wa & m & wb & X & Y & ->)
       |[(wa & wb & X & Y & ->)|(wa & wb & X & Y & ->)]]]];
    cbn [res final events]; intros T.
  - right. exists [], (ConfigExists authConfigKey), m. split; reflexivity.
  - rewrite (K1 _ _ _ X) in T. discriminate.
  - right. eexists [_], (TryConfigUnset authConfigKey), m. split; reflexivity.
  - rewrite (K2 _ _ Y) in T. discriminate.
  - left. reflexivity.
Qed.

Lemma checkoutResolved_run (g : IGitCommandManager W) settings info w :
  lfs settings = true ->
  exists o rest,
    events (checkoutResolved g settings info w)
    = Ev (LfsFetch (JS_or (ICheckoutInfo.startPoint info) (ICheckoutInfo.ref info))) o
      :: rest /\
    (forall v, o = Returned v ->
     exists o' rest',
       rest = Ev (Checkout (ICheckoutInfo.ref info) (ICheckoutInfo.startPoint info)) o'
              :: rest').
Proof.
  intros L. unfold checkoutResolved. rewrite L. unfold_calls.
  rewrite bind_call. answer; tidy.
  { eexists _, _. split; [reflexivity|]. intros v D. discriminate. }
  rewrite bind_call. answer; tidy.
  - eexists _, _. split; [reflexivity|]. intros v _. eauto.
  - eexists _, _. split; [reflexivity|]. intros v _. eauto.
Qed.

(** The body of the [try] up to the resolution of the checkout target. *)
Lemma fetchAndCheckout_cases (g : IGitCommandManager W) settings w :
  let b := fetchAndCheckout env g settings w in
  let Q := fun e => negb (calls isGetCheckoutInfo e) in
  forallb Q (events b) = true \/
  exists lead,
    forallb Q lead = true /\
    ((exists m, events b = lead ++ [Ev (GetCheckoutInfo (ref settings) (commit settings))
                                       (Raised m)]) \/
     (exists info w',
         b = prepend (lead ++ [Ev (GetCheckoutInfo (ref settings) (commit settings))
                                  (Returned (VCheckoutInfo info))])
               (checkoutResolved g settings info w'))).
Proof.
  cbv zeta. unfold fetchAndCheckout. rewrite bind_run.
  assert (G : emits (fun e => negb (calls isGetCheckoutInfo e))
                (configureAuthToken env g (authToken settings))).
  { unfold configureAuthToken. footprint. }
  specialize (G w).
  destruct (res (configureAuthToken env g (authToken settings) w)) as [[]|e] eqn:R;
    cbn [prepend res final events]; [|left; exact G].
  set (w1 := final (configureAuthToken env g (authToken settings) w)).
  set (cfg := events (configureAuthToken env g (authToken settings) w)) in *.
  unfold_calls.
  assert (K : forall lead w2,
             forallb (fun e => negb (calls isGetCheckoutInfo e)) lead = true ->
             let x := bind (call (GetRefSpec (ref settings) (commit settings)) VStrings
                              (getRefSpec env (ref settings) (commit settings)))
                        (fun refSpec =>
                           bind (call (Fetch (fetchDepth settings) refSpec) VNone
                                   (fetch g (fetchDepth settings) refSpec))
                             (fun _ =>
                                bind (call (GetCheckoutInfo (ref settings) (commit settings))
                                        VCheckoutInfo
                                        (getCheckoutInfo env g (ref settings) (commit settings)))
                                  (fun checkoutInfo =>
                                     checkoutResolved g settings checkoutInfo))) w2 in
             forallb (fun e => negb (calls isGetCheckoutInfo e)) (lead ++ events x) = true \/
             exists lead',
               forallb (fun e => negb (calls isGetCheckoutInfo e)) lead' = true /\
               ((exists m, lead ++ events x
                           = lead' ++ [Ev (GetCheckoutInfo (ref settings) (commit settings))
                                          (Raised m)]) \/
                (exists info w',
                    prepend lead x
                    = prepend (lead' ++ [Ev (GetCheckoutInfo (ref settings) (commit settings))
                                            (Returned (VCheckoutInfo info))])
                        (checkoutResolved g settings info w')))).
  { intros lead w2 F. cbv zeta.
    rewrite bind_call. answer; tidy.
    { left. rewrite forallb_app, F. reflexivity. }
    rewrite bind_call. answer; tidy.
    { left. rewrite forallb_app, F. reflexivity. }
    rewrite bind_call. answer; tidy.
    - right. eexists (lead ++ [_; _]). split; cycle 1.
      + left. exists m. rewrite <- app_assoc. reflexivity.
      + rewrite forallb_app, F. reflexivity.
    - right. eexists (lead ++ [_; _]). split; cycle 1.
      + right. eexists _, _. unfold prepend. cbn [res final events]. f_equal.
        rewrite <- !app_assoc. reflexivity.
      + rewrite forallb_app, F. reflexivity. }
  destruct (lfs settings) eqn:L.
  - rewrite bind_call. answer; tidy.
    { left. rewrite forallb_app, G. reflexivity. }
    destruct (K (cfg ++ [Ev LfsInstall (Returned (VNone a))]) w0) as [X|(lead' & F' & X)].
    { rewrite forallb_app, G. reflexivity. }
    + left. rewrite <- app_assoc in X. exact X.
    + right. exists lead'. split; [exact F'|].
      destruct X as [(m & X)|(info & w' & X)].
      * left. exists m. rewrite <- X, <- app_assoc. reflexivity.
      * right. exists info, w'. rewrite <- X. unfold prepend. cbn [res final events].
        f_equal. rewrite <- app_assoc. reflexivity.
  - rewrite bind_ret.
    destruct (K cfg w1 G) as [X|(lead' & F' & X)].
    + left. exact X.
    + right. exists lead'. split; [exact F'|]. exact X.
Qed.

(** Claim C8, as amended.  With [lfs] true, the call that follows the
    resolution of the checkout target is [lfsFetch] on
    [startPoint || ref], that is the start point when it is defined and not
    empty and the ref otherwise, and the call that follows a prefetch that
    returned is [checkout ref startPoint]. *)
Theorem lfs_prefetch_targets_truthy_start_point settings w :
  lfs settings = true ->
  let r := getSource env settings w in
  forall pre info post,
    events r = pre ++ Ev (GetCheckoutInfo (ref settings) (commit settings))
                        (Returned (VCheckoutInfo info)) :: post ->
    exists o rest,
      post = Ev (LfsFetch (JS_or (ICheckoutInfo.startPoint info) (ICheckoutInfo.ref info))) o
             :: rest /\
      (forall v, o = Returned v ->
       exists o' rest',
         rest = Ev (Checkout (ICheckoutInfo.ref info) (ICheckoutInfo.startPoint info)) o'
                :: rest').
Proof.
  cbv zeta. intros L pre info post H.
  set (Q := fun e => calls isGetCheckoutInfo e).
  assert (Qe : Q (Ev (GetCheckoutInfo (ref settings) (commit settings))
                    (Returned (VCheckoutInfo info))) = true) by reflexivity.
  destruct (getSource_bracket settings w)
    as [F|(g & w0 & w0' & lead & w1 & C & F & E)].
  { exfalso. eapply not_before; [exact F | | exact H]. reflexivity. }
  cbv zeta in E. rewrite E in H. clear E. cbn [prepend events] in H.
  assert (F1 : forallb (fun e => negb (Q e)) lead = true).
  { eapply forallb_weaken; [|exact F]. intros e. unfold beforeBracket, Q.
    rewrite andb_true_iff. tauto. }
  destruct (skip_free Q _ _ F1 _ _ _ Qe H) as (pre1 & -> & H1). clear H.
  destruct (bracket_run g settings w1) as (E1 & _). cbv zeta in E1. rewrite E1 in H1.
  assert (FR : forall w', forallb (fun e => negb (Q e))
                            (events (releaseCredential g settings w')) = true).
  { assert (X : emits (fun e => negb (Q e)) (releaseCredential g settings)).
    { unfold releaseCredential, removeGitConfig. footprint. }
    exact X. }
  destruct (fetchAndCheckout_cases g settings w1) as [X|(blead & FB & X)]; cbv zeta in X.
  - exfalso. eapply forallb_absent; [|exact Qe | exact H1].
    rewrite forallb_app. apply andb_true_iff. split; [exact X | apply FR].
  - destruct X as [(m & X)|(info' & w' & X)].
    + rewrite X in H1. rewrite <- app_assoc in H1.
      destruct (skip_free Q _ _ FB _ _ _ Qe H1) as (pre2 & -> & H2). cbn [app] in H2.
      locate. exfalso. eapply forallb_absent; [apply FR | exact Qe | eassumption].
    + rewrite X in H1. cbn [prepend res final events] in H1.
      rewrite <- !app_assoc in H1.
      destruct (skip_free Q _ _ FB _ _ _ Qe H1) as (pre2 & -> & H2). cbn [app] in H2.
      destruct (checkoutResolved_run g settings info' w' L) as (o & rest & Y & Z).
      rewrite Y in H2. locate.
      * eexists _, _. split; [reflexivity|]. intros v D.
        destruct (Z v D) as (o' & rest' & ->). eexists _, _. reflexivity.
      * exfalso.
        assert (XR : emits (fun e => negb (Q e)) (checkoutResolved g settings info')).
        { unfold checkoutResolved. footprint. }
        specialize (XR w'). rewrite Y in XR. cbn [forallb] in XR.
        apply andb_true_iff in XR. destruct XR as [_ XR].
        eapply forallb_absent; [|exact Qe | exact H2].
        rewrite forallb_app. apply andb_true_iff. split; [exact XR | apply FR].
Qed.

End SourceFacts.

(* ===================================================================== *)
(** * Facts about the simulated environment *)
(* ===================================================================== *)

Module SimFacts.
Import Sim.

Lemma lookup_store p n fs : lookup p (store p n fs) = Some n.
Proof.
  induction fs as [|[q m] fs IH]; cbn [store lookup].
  - rewrite String.eqb_refl. reflexivity.
  - destruct (String.eqb p q) eqn:E; cbn [lookup]; rewrite ?String.eqb_refl, ?E; auto.
Qed.

Lemma splitLines_cons s : exists h t, splitLines s = h :: t.
Proof.
  induction s as [|c s (h & t & IH)]; cbn [splitLines]; [eauto|].
  destruct (Ascii.eqb c LF); [eauto|]. rewrite IH. eauto.
Qed.

Lemma splitLines_noLF s : Forall (fun l => noLF l = true) (splitLines s).
Proof.
  induction s as [|c s IH]; cbn [splitLines].
  - repeat constructor.
  - destruct (Ascii.eqb c LF) eqn:E.
    + constructor; [reflexivity | exact IH].
    + destruct (splitLines s) as [|h t].
      * constructor; [|constructor]. cbn [noLF]. rewrite E. reflexivity.
      * inversion IH; subst. constructor; [|assumption]. cbn [noLF]. rewrite E. assumption.
Qed.

Lemma splitLines_line l r :
  noLF l = true -> splitLines (l ++ String LF r)%string = l :: splitLines r.
Proof.
  induction l as [|c l IH]; intros H.
  - change (EmptyString ++ String LF r)%string with (String LF r). cbn [splitLines].
    rewrite Ascii.eqb_refl. reflexivity.
  - change (String c l ++ String LF r)%string with (String c (l ++ String LF r)%string).
    cbn [splitLines noLF] in *. apply andb_true_iff in H. destruct H as [H1 H2].
    apply negb_true_iff in H1. rewrite H1, (IH H2). reflexivity.
Qed.

Lemma configLines_good c : Forall goodLine (configLines c).
Proof.
  unfold configLines. pose proof (splitLines_noLF c) as H.
  induction H as [|l ls Hl Hls IH]; cbn [filter]; [constructor|].
  destruct (String.eqb_spec l EmptyString); cbn [negb]; [exact IH|].
  constructor; [split; assumption | exact IH].
Qed.

Lemma configLines_unlines ls : Forall goodLine ls -> configLines (unlines ls) = ls.
Proof.
  unfold configLines. induction 1 as [|l ls [H1 H2] _ IH]; [reflexivity|].
  cbn [unlines]. rewrite (splitLines_line _ _ H1). cbn [filter].
  destruct (String.eqb_spec l EmptyString); [contradiction|]. cbn [negb]. rewrite IH. reflexivity.
Qed.

Lemma Forall_filter {A} (P : A -> Prop) f l : Forall P l -> Forall P (filter f l).
Proof.
  induction 1 as [|x l Hx _ IH]; cbn [filter]; [constructor|].
  destruct (f x); [constructor|]; assumption.
Qed.

Lemma existsb_filter_negb {A} (f : A -> bool) l :
  existsb f (filter (fun x => negb (f x)) l) = false.
Proof.
  induction l as [|x l IH]; cbn [filter existsb]; [reflexivity|].
  destruct (f x) eqn:E; cbn [negb existsb]; rewrite ?E; exact IH.
Qed.

(** In the simulated environment the probe of the configuration tells the
    truth, and an entry that git has unset is no longer there. *)
Lemma config_contract dir lfs key :
  forall w0 g w1,
    createCommandManager env dir lfs w0 = (inr g, w1) ->
    (forall wa b wb, configExists g key wa = (inr b, wb) -> hasKey dir key wb = b) /\
    (forall wa wb, tryConfigUnset g key wa = (inr true, wb) -> hasKey dir key wb = false).
Proof.
  intros w0 g w1. cbn [createCommandManager env]. unfold op.
  destruct (listed (CreateCommandManager dir lfs) (raising w0)); [discriminate|].
  destruct (gitInstalled w0); [|discriminate].
  intros H. inversion H; subst. clear H. split.
  - intros wa b wb. cbn [configExists git]. unfold op.
    destruct (listed (ConfigExists key) (raising wa)); [discriminate|].
    intros H. inversion H. reflexivity.
  - intros wa wb. cbn [tryConfigUnset git]. unfold op.
    destruct (listed (TryConfigUnset key) (raising wa)); [discriminate|].
    destruct (refuses (TryConfigUnset key) wa); [discriminate|].
    unfold unsetKey. destruct (configContent dir wa) as [c|] eqn:C; [|discriminate].
    destruct (existsb (holds key) (configLines c)); [|discriminate].
    intros H. inversion H. subst. clear H.
    unfold hasKey, configContent. cbn [files withFiles]. rewrite lookup_store.
    rewrite configLines_unlines.
    + apply existsb_filter_negb.
    + apply Forall_filter, configLines_good.
Qed.

End SimFacts.

(* ===================================================================== *)
(** * Runs in the simulated environment *)
(* ===================================================================== *)

(** Claim C1 as stated fails: with [persistCredentials] false, a git that does
    not manage to unset the entry leaves it in the configuration after
    [getSource] has returned. *)
Lemma credential_remains_when_unset_fails :
  persistCredentials Sim.settings = false /\
  res (getSource Sim.env Sim.settings Sim.unsetFails) = Ok tt /\
  Sim.hasKey "/w" authConfigKey (final (getSource Sim.env Sim.settings Sim.unsetFails))
  = true.
Proof. vm_compute. repeat split. Qed.

(** The statement of claim C1 as amended, on a run in an empty directory. *)
Lemma credential_released_witness :
  exists (g : IGitCommandManager Sim.World) (w1 : Sim.World) (lead : list Event),
    events (getSource Sim.env Sim.settings Sim.fresh)
    = lead ++ events (fetchAndCheckout Sim.env g Sim.settings w1)
           ++ events (removeGitConfig g authConfigKey
                        (final (fetchAndCheckout Sim.env g Sim.settings w1))).
Proof.
  destruct (credential_released_on_every_exit Sim.env (Sim.hasKey "/w" authConfigKey)
              Sim.settings Sim.fresh
              (SimFacts.config_contract "/w" false authConfigKey) eq_refl
              (firstn 14 (events (getSource Sim.env Sim.settings Sim.fresh)))
              (Returned VUnit)
              (skipn 15 (events (getSource Sim.env Sim.settings Sim.fresh))))
    as (g & w1 & lead & E & _).
  - vm_compute. reflexivity.
  - exists g, w1, lead. exact E.
Defined.

(** Claim C2 as stated fails: the placeholder occurs once in the
    configuration that is read, and [configureAuthToken] throws all the same,
    with the rejection of [writeFile]. *)
Lemma configureAuthToken_throws_when_write_rejects :
  JS.occurrences placeholder placeholderConfig = 1 /\
  events (configureAuthToken Sim.env (Sim.git "/w") "tok"
            (Sim.clone [WriteFile "/w/.git/config" credentialConfig] []))
  = [Ev (Config authConfigKey placeholder) (Returned VUnit);
     Core Secret (basicCredential "tok");
     Ev (ReadFile "/w/.git/config") (Returned (VString placeholderConfig));
     Ev (WriteFile "/w/.git/config" credentialConfig) (Raised "simulated failure")] /\
  res (configureAuthToken Sim.env (Sim.git "/w") "tok"
         (Sim.clone [WriteFile "/w/.git/config" credentialConfig] []))
  = Err (Rejected "simulated failure").
Proof. vm_compute. repeat split. Qed.

(** The statement of claim C2 as amended, on the clone. *)
Lemma configureAuthToken_witness :
  let r := configureAuthToken Sim.env (Sim.git "/w") "tok" (Sim.clone [] []) in
  exists o1 rest1,
    events r = Ev (Config authConfigKey placeholder) o1 :: rest1 /\
    match o1 with
    | Raised m => rest1 = [] /\ res r = Err (Rejected m)
    | Returned _ =>
        exists o2 rest2,
          rest1 = Core Secret (basicCredential "tok")
                  :: Ev (ReadFile "/w/.git/config") o2 :: rest2 /\
          match o2 with
          | Raised m => rest2 = [] /\ res r = Err (Rejected m)
          | Returned (VString content) =>
              (res r = Err placeholderError <-> JS.occurrences placeholder content <> 1) /\
              (JS.occurrences placeholder content <> 1 ->
               rest2 = [] /\ res r = Err placeholderError) /\
              (JS.occurrences placeholder content = 1 ->
               exists before after o3,
                 content = (before ++ placeholder ++ after)%string /\
                 rest2 = [Ev (WriteFile "/w/.git/config"
                                (before ++ authHeader "tok" ++ after)%string) o3] /\
                 res r = match o3 with
                         | Returned _ => Ok tt
                         | Raised m => Err (Rejected m)
                         end)
          | Returned _ => False
          end
    end.
Proof.
  exact (configureAuthToken_substitutes Sim.env (Sim.git "/w") "tok" (Sim.clone [] [])).
Defined.

(** Claim C3 as stated fails: the rejection of the deletion of the first entry
    is the error of the call, and the second entry is neither deleted nor
    tried. *)
Lemma deletion_failure_aborts :
  res (prepareExistingDirectory Sim.env None "/w" Sim.url true Sim.stubborn)
  = Err (Rejected "simulated failure") /\
  events (prepareExistingDirectory Sim.env None "/w" Sim.url true Sim.stubborn)
  = [Core Info (deletingText "/w");
     Ev (Readdir "/w") (Returned (VStrings ["a"; "b"]%string));
     Ev (RmRF "/w/a") (Raised "simulated failure")] /\
  Sim.isFile "/w/b"
    (final (prepareExistingDirectory Sim.env None "/w" Sim.url true Sim.stubborn)) = true.
Proof. vm_compute. repeat split. Qed.

(** The statement of claim C3 as amended, on a directory without gateway. *)
Lemma removal_witness :
  exists lead o evs,
    events (prepareExistingDirectory Sim.env None "/w" Sim.url true Sim.stubborn)
    = lead ++ Core Info (deletingText "/w") :: Ev (Readdir "/w") o :: evs /\
    forallb (calls isProbeOfRepository) lead = true /\
    match o with
    | Raised m =>
        evs = [] /\
        res (prepareExistingDirectory Sim.env None "/w" Sim.url true Sim.stubborn)
        = Err (Rejected m)
    | Returned (VStrings names) =>
        deletion (join Sim.env) "/w" names evs
          (res (prepareExistingDirectory Sim.env None "/w" Sim.url true Sim.stubborn))
    | Returned _ => False
    end.
Proof.
  apply (removal_stops_at_first_failure Sim.env None "/w" Sim.url true Sim.stubborn).
  left. reflexivity.
Defined.

(** Claim C4 as stated fails: with [clean] false and a recorded URL that is
    the expected one, a listing of the branches that raises makes
    [prepareExistingDirectory] delete the contents of the directory, the
    file that was not tracked included. *)
Lemma dirty_tree_removed_when_pruning_fails :
  Sim.isFile "/w/dirty.txt" (Sim.clone [BranchList false] []) = true /\
  res (prepareExistingDirectory Sim.env (Some (Sim.git "/w")) "/w" Sim.url false
         (Sim.clone [BranchList false] [])) = Ok tt /\
  events (prepareExistingDirectory Sim.env (Some (Sim.git "/w")) "/w" Sim.url false
            (Sim.clone [BranchList false] []))
  = [Ev (DirectoryExistsSync "/w/.git") (Returned (VBool true));
     Ev TryGetFetchUrl (Returned (VString Sim.url));
     Ev (RmRF "/w/.git/index.lock") (Returned VUnit);
     Ev (RmRF "/w/.git/shallow.lock") (Returned VUnit);
     Ev IsDetached (Returned (VBool false));
     Ev CheckoutDetach (Returned VUnit);
     Ev (BranchList false) (Raised "simulated failure");
     Core Warning prepareFailedWarning;
     Core Info (deletingText "/w");
     Ev (Readdir "/w") (Returned (VStrings [".git"; "dirty.txt"]%string));
     Ev (RmRF "/w/.git") (Returned VUnit);
     Ev (RmRF "/w/dirty.txt") (Returned VUnit)] /\
  Sim.isFile "/w/dirty.txt"
    (final (prepareExistingDirectory Sim.env (Some (Sim.git "/w")) "/w" Sim.url false
              (Sim.clone [BranchList false] []))) = false.
Proof. vm_compute. repeat split. Qed.

(** The statement of claim C4 as amended, on the clone. *)
Lemma reuse_without_clean_witness :
  res (prepareExistingDirectory Sim.env (Some (Sim.git "/w")) "/w" Sim.url false
         (Sim.clone [] [])) = Ok tt /\
  exists locks detached locals remotes,
    forallb (lockEvent Sim.env "/w") locks = true /\
    skipn 2 (events (prepareExistingDirectory Sim.env (Some (Sim.git "/w")) "/w" Sim.url
                       false (Sim.clone [] [])))
    = locks ++ pruned detached locals remotes.
Proof.
  apply (proj2 (reuse_without_clean Sim.env (Sim.git "/w") "/w" Sim.url (Sim.clone [] []))).
  - vm_compute. reflexivity.
  - vm_compute. reflexivity.
Defined.

(** The statement of claim C5 on a machine without git. *)
Lemma gateway_failure_witness :
  forallb fallbackEvent (skipn 5 (events (getSource Sim.env Sim.settings Sim.noGit))) = true /\
  exists mid,
    skipn 5 (events (getSource Sim.env Sim.settings Sim.noGit))
    = mid ++ [Ev (downloadCall Sim.settings) (Returned VUnit)].
Proof.
  destruct (proj2 (gateway_failure_is_fatal_only_for_lfs Sim.env Sim.settings Sim.noGit
                     (firstn 4 (events (getSource Sim.env Sim.settings Sim.noGit)))
                     "Unable to locate executable file: git"
                     (skipn 5 (events (getSource Sim.env Sim.settings Sim.noGit)))
                     ltac:(vm_compute; reflexivity))
              eq_refl) as (F & _ & D & _).
  split; [exact F|]. apply D. vm_compute. reflexivity.
Defined.

(** The statement of claim C6 on the clone, for a listing that raises and for
    a clean that answers no. *)
Lemma reuse_failure_witness :
  let r1 := prepareExistingDirectory Sim.env (Some (Sim.git "/w")) "/w" Sim.url false
              (Sim.clone [BranchList false] []) in
  let r2 := prepareExistingDirectory Sim.env (Some (Sim.git "/w")) "/w" Sim.url true
              (Sim.clone [] [TryClean]) in
  let recreate := fun (r : Run Sim.World unit) post =>
    exists o evs,
      post = Core Info (deletingText "/w") :: Ev (Readdir "/w") o :: evs /\
      match o with
      | Raised m => evs = [] /\ res r = Err (Rejected m)
      | Returned (VStrings names) => deletion (join Sim.env) "/w" names evs (res r)
      | Returned _ => False
      end in
  (exists post',
      skipn 7 (events r1) = Core Warning prepareFailedWarning :: post' /\
      recreate r1 post') /\
  (exists post',
      skipn 11 (events r2)
      = Core Debug (cleanFailedText "/w") :: Core Warning cleanFailedWarning :: post' /\
      recreate r2 post').
Proof.
  cbv zeta. split.
  - apply (proj1 (reuse_failure_recreates Sim.env (Sim.git "/w") "/w" Sim.url false
                    (Sim.clone [BranchList false] []))
             (firstn 6 (events (prepareExistingDirectory Sim.env (Some (Sim.git "/w")) "/w"
                                  Sim.url false (Sim.clone [BranchList false] []))))
             (BranchList false) "simulated failure").
    + vm_compute. reflexivity.
    + reflexivity.
  - apply (proj1 (proj2 (reuse_failure_recreates Sim.env (Sim.git "/w") "/w" Sim.url true
                           (Sim.clone [] [TryClean])))
             (firstn 10 (events (prepareExistingDirectory Sim.env (Some (Sim.git "/w")) "/w"
                                   Sim.url true (Sim.clone [] [TryClean]))))).
    vm_compute. reflexivity.
Defined.

(** Claim C7 as stated fails: [cleanup] raises when the probe of the
    configuration raises. *)
Lemma cleanup_throws_when_probe_rejects :
  res (cleanup Sim.env "/w" (Sim.withCredential [ConfigExists authConfigKey] []))
  = Err (Rejected "simulated failure").
Proof. vm_compute. reflexivity. Qed.

(** The statement of claim C7 as amended, for an unset that answers no and
    for a probe of the configuration that raises. *)
Lemma cleanup_witness :
  (let r := cleanup Sim.env "/w" (Sim.withCredential [] [TryConfigUnset authConfigKey]) in
   exists o1 rest1,
     events r = Ev (FileExistsSync "/w/.git/config") o1 :: rest1 /\
     match o1 with
     | Raised m => rest1 = [] /\ res r = Err (Rejected m)
     | Returned (VBool false) => rest1 = [] /\ res r = Ok tt
     | Returned (VBool true) =>
         exists o2 rest2,
           rest1 = Ev (CreateCommandManager "/w" false) o2 :: rest2 /\
           match o2 with
           | Raised _ => rest2 = [] /\ res r = Ok tt
           | Returned _ =>
               exists o3 rest3,
                 rest2 = Ev (ConfigExists authConfigKey) o3 :: rest3 /\
                 match o3 with
                 | Raised m => rest3 = [] /\ res r = Err (Rejected m)
                 | Returned (VBool false) => rest3 = [] /\ res r = Ok tt
                 | Returned (VBool true) =>
                     exists o4 rest4,
                       rest3 = Ev (TryConfigUnset authConfigKey) o4 :: rest4 /\
                       match o4 with
                       | Raised m => rest4 = [] /\ res r = Err (Rejected m)
                       | Returned (VBool true) => rest4 = [] /\ res r = Ok tt
                       | Returned (VBool false) =>
                           rest4 = [Core Warning removalWarning] /\ res r = Ok tt
                       | Returned _ => False
                       end
                 | Returned _ => False
                 end
           end
     | Returned _ => False
     end) /\
  (exists pre c m,
      events (cleanup Sim.env "/w" (Sim.withCredential [ConfigExists authConfigKey] []))
      = pre ++ [Ev c (Raised m)] /\
      Rejected "simulated failure" = Rejected m /\ probeCall c = true).
Proof.
  split.
  - apply (proj1 (proj2 (cleanup_raises_only_from_probes Sim.env "/w"
                           (Sim.withCredential [] [TryConfigUnset authConfigKey])))).
    discriminate.
  - apply (proj2 (proj2 (cleanup_raises_only_from_probes Sim.env "/w"
                           (Sim.withCredential [ConfigExists authConfigKey] [])))).
    vm_compute. reflexivity.
Defined.

(** Claim C8 as stated fails: for a start point that is defined and empty the
    prefetch is made on the ref, where [startPoint ?? ref] is the empty start
    point. *)
Lemma lfs_prefetch_ignores_empty_start_point :
  lfs Sim.lfsSettings = true /\
  (exists pre post,
      events (getSource Sim.env Sim.lfsSettings Sim.emptyStartPoint)
      = pre ++ Ev (GetCheckoutInfo "refs/heads/main" EmptyString)
                 (Returned (VCheckoutInfo emptyStartInfo))
            :: Ev (LfsFetch "main") (Returned VUnit) :: post) /\
  JS_nullish (ICheckoutInfo.startPoint emptyStartInfo) (ICheckoutInfo.ref emptyStartInfo)
  = EmptyString /\
  JS_or (ICheckoutInfo.startPoint emptyStartInfo) (ICheckoutInfo.ref emptyStartInfo)
  = "main"%string.
Proof.
  split; [reflexivity|]. split; [|split; reflexivity].
  exists (firstn 21 (events (getSource Sim.env Sim.lfsSettings Sim.emptyStartPoint))),
         (skipn 23 (events (getSource Sim.env Sim.lfsSettings Sim.emptyStartPoint))).
  vm_compute. reflexivity.
Qed.

(** The statement of claim C8 as amended, on the same run. *)
Lemma lfs_prefetch_witness :
  exists o rest,
    skipn 22 (events (getSource Sim.env Sim.lfsSettings Sim.emptyStartPoint))
    = Ev (LfsFetch (JS_or (ICheckoutInfo.startPoint emptyStartInfo)
                          (ICheckoutInfo.ref emptyStartInfo))) o :: rest /\
    (forall v, o = Returned v ->
     exists o' rest',
       rest = Ev (Checkout (ICheckoutInfo.ref emptyStartInfo)
                    (ICheckoutInfo.startPoint emptyStartInfo)) o' :: rest').
Proof.
  apply (lfs_prefetch_targets_truthy_start_point Sim.env Sim.lfsSettings Sim.emptyStartPoint
           eq_refl
           (firstn 21 (events (getSource Sim.env Sim.lfsSettings Sim.emptyStartPoint)))).
  vm_compute. reflexivity.
Defined.


(** Claim C10 as stated fails: on a clone that holds a credential, the run
    that falls back to the download deletes the [.git] directory, and with it
    the configuration file and the entry under [authConfigKey]. *)
Lemma fallback_removes_the_credential :
  lfs Sim.settings = false /\
  Sim.hasKey "/w" authConfigKey cloneWithoutGit = true /\
  events (getSource Sim.env Sim.settings cloneWithoutGit)
  = [Core Info (syncingText Sim.settings);
     Ev (FileExistsSync "/w") (Returned (VBool false));
     Ev (DirectoryExistsSync "/w") (Returned (VBool true));
     Core Info (workingDirectoryText Sim.settings);
     Ev (CreateCommandManager "/w" false) (Raised "simulated failure");
     Core Info (deletingText "/w");
     Ev (Readdir "/w") (Returned (VStrings [".git"; "dirty.txt"]%string));
     Ev (RmRF "/w/.git") (Returned VUnit);
     Ev (RmRF "/w/dirty.txt") (Returned VUnit);
     Core Info downloadingText;
     Core Info (addGitText Sim.env);
     Ev (downloadCall Sim.settings) (Returned VUnit)] /\
  res (getSource Sim.env Sim.settings cloneWithoutGit) = Ok tt /\
  Sim.isFile "/w/.git/config" (final (getSource Sim.env Sim.settings cloneWithoutGit))
  = false /\
  Sim.hasKey "/w" authConfigKey (final (getSource Sim.env Sim.settings cloneWithoutGit))
  = false.
Proof. vm_compute. repeat split. Qed.

(** The statement of claim C10 as amended, on the same run. *)
Lemma fallback_witness :
  let r := getSource Sim.env Sim.settings cloneWithoutGit in
  forallb leavesConfigAlone (events r) = true /\
  (forall token,
      map redact (events (getSource Sim.env (withToken Sim.settings token) cloneWithoutGit))
      = map redact (events r)) /\
  exists o evs,
    skipn 5 (events r) = Core Info (deletingText "/w") :: Ev (Readdir "/w") o :: evs /\
    match o with
    | Raised m' => evs = [] /\ res r = Err (Rejected m')
    | Returned (VStrings names) =>
        exists dels tail d,
          evs = dels ++ tail /\
          deletion (join Sim.env) "/w" names dels d /\
          match d with
          | Ok _ =>
              exists o',
                tail = [Core Info downloadingText; Core Info (addGitText Sim.env);
                        Ev (downloadCall Sim.settings) o'] /\
                res r = match o' with
                        | Returned _ => Ok tt
                        | Raised m' => Err (Rejected m')
                        end
          | Err e => tail = [] /\ res r = Err e
          end
    | Returned _ => False
    end.
Proof.
  cbv zeta.
  destruct (fallback_leaves_config_alone Sim.env Sim.settings cloneWithoutGit eq_refl
              (firstn 4 (events (getSource Sim.env Sim.settings cloneWithoutGit)))
              "simulated failure"
              (skipn 5 (events (getSource Sim.env Sim.settings cloneWithoutGit)))
              ltac:(vm_compute; reflexivity)) as (F & R & D & _).
  split; [exact F|]. split; [exact R|].
  apply D. vm_compute. do 2 right. left. reflexivity.
Defined.

(* ===================================================================== *)
(** * Facts about neighbouring events *)
(* ===================================================================== *)

Section Linked.

Context {W : Type}.
Variable P : option Event -> Event -> Prop.
Variable E : option Event -> Prop.

(** What is accepted at the start of a list is accepted after an event that
    could have been the last. *)
Hypothesis weak : forall p e, E p -> P None e -> P p e.

Lemma linked_weaken p l : E p -> linked P E None l -> linked P E p l.
Proof.
  destruct l as [|e l]; cbn [linked]; [auto|].
  intros Hp [He Hl]. split; [apply weak; assumption | exact Hl].
Qed.

Lemma linked_app p l1 l2 :
  linked P E p l1 -> linked P E None l2 -> linked P E p (l1 ++ l2).
Proof.
  revert p. induction l1 as [|e l1 IH]; intros p H1 H2; cbn [app linked] in *.
  - apply linked_weaken; assumption.
  - destruct H1 as [He H1]. split; [exact He | apply IH; assumption].
Qed.

(** The event before a place in a list. *)
Lemma linked_at p pre e post :
  linked P E p (pre ++ e :: post) ->
  exists q,
    (pre = [] /\ q = p \/ exists pre' x, pre = pre' ++ [x] /\ q = Some x) /\
    P q e /\ linked P E (Some e) post.
Proof.
  revert p. induction pre as [|a pre IH]; intros p H; cbn [app linked] in H.
  - exists p. destruct H as [H1 H2]. auto.
  - destruct H as [_ H]. destruct (IH _ H) as (q & Hq & H1 & H2).
    exists q. split; [|auto]. right.
    destruct Hq as [[-> ->]|(pre' & x & -> & ->)].
    + exists [], a. auto.
    + exists (a :: pre'), x. auto.
Qed.

Lemma links_ret p {A} (a : A) : E p -> links P E p (@ret W A a).
Proof. intros H w. exact H. Qed.

Lemma links_throw p {A} e : E p -> links P E p (@throw W A e).
Proof. intros H w. exact H. Qed.

Lemma links_core p ch text :
  P p (Core ch text) -> E (Some (Core ch text)) -> links P E p (@core W ch text).
Proof. intros H1 H2 w. split; assumption. Qed.

Lemma links_call p {A} c inj (op : Op W A) :
  (forall m, P p (Ev c (Raised m)) /\ E (Some (Ev c (Raised m)))) ->
  (forall a, P p (Ev c (Returned (inj a))) /\ E (Some (Ev c (Returned (inj a))))) ->
  links P E p (call c inj op).
Proof.
  intros H1 H2 w. rewrite call_run.
  destruct (op w) as [[m|a] w']; cbn [events linked]; [apply H1 | apply H2].
Qed.

Lemma links_bind_call p {A B} c inj (op : Op W A) (f : A -> M W B) :
  (forall m, P p (Ev c (Raised m)) /\ E (Some (Ev c (Raised m)))) ->
  (forall a, P p (Ev c (Returned (inj a))) /\
             links P E (Some (Ev c (Returned (inj a)))) (f a)) ->
  links P E p (bind (call c inj op) f).
Proof.
  intros H1 H2 w. rewrite bind_call.
  destruct (op w) as [[m|a] w']; cbn [prepend events app linked].
  - apply H1.
  - destruct (H2 a) as [Ha Hf]. split; [exact Ha | apply Hf].
Qed.

Lemma links_bind_core p {B} ch text (f : unit -> M W B) :
  P p (Core ch text) -> links P E (Some (Core ch text)) (f tt) ->
  links P E p (bind (core ch text) f).
Proof.
  intros H1 H2 w. rewrite bind_core. cbn [prepend events app linked].
  split; [exact H1 | apply H2].
Qed.

Lemma links_bind_ret p {A B} (a : A) (f : A -> M W B) :
  links P E p (f a) -> links P E p (bind (ret a) f).
Proof. intros H w. rewrite bind_ret. apply H. Qed.

Lemma links_bind p {A B} (m : M W A) (f : A -> M W B) :
  links P E p m -> (forall a, links P E None (f a)) -> links P E p (bind m f).
Proof.
  intros Hm Hf w. rewrite bind_run. specialize (Hm w).
  destruct (res (m w)) as [a|e]; cbn [prepend events]; [|exact Hm].
  apply linked_app; [exact Hm | apply Hf].
Qed.

Lemma links_tryCatch p {A} (body : M W A) handler :
  links P E p body -> (forall e, links P E None (handler e)) ->
  links P E p (tryCatch body handler).
Proof.
  intros Hb Hh w. rewrite tryCatch_run. specialize (Hb w).
  destruct (res (body w)) as [a|e]; cbn [prepend events]; [exact Hb|].
  apply linked_app; [exact Hb | apply Hh].
Qed.

Lemma links_tryFinally p {A} (body : M W A) finalizer :
  links P E p body -> links P E None finalizer ->
  links P E p (tryFinally body finalizer).
Proof.
  intros Hb Hf w. unfold tryFinally. cbn [events].
  apply linked_app; [apply Hb | apply Hf].
Qed.

Hypothesis start : E None.

Lemma links_forEach p {A} (l : list A) (f : A -> M W unit) :
  E p -> (forall x, links P E None (f x)) -> links P E p (forEach l f).
Proof.
  intros Hp H.
  assert (N : links P E None (forEach l f)).
  { induction l as [|x l IH]; rewrite ?forEach_nil, ?forEach_cons.
    - apply links_ret, start.
    - apply links_bind; [apply H | intros _; exact IH]. }
  intros w. apply linked_weaken; [exact Hp | apply N].
Qed.

Lemma links_if p {A} (b : bool) (m m' : M W A) :
  links P E p m -> links P E p m' -> links P E p (if b then m else m').
Proof. destruct b; auto. Qed.

Lemma links_weaken p {A} (m : M W A) : E p -> links P E None m -> links P E p m.
Proof. intros Hp H w. apply linked_weaken; [exact Hp | apply H]. Qed.

End Linked.

(** ** Right before *)

Lemma comesAfter_weak Q R p e :
  anyEnd p -> comesAfter Q R None e -> comesAfter Q R p e.
Proof. intros _ H Qe. destruct (H Qe). Qed.

Lemma comesAfter_split Q R l pre e post :
  linked (comesAfter Q R) anyEnd None l ->
  l = pre ++ e :: post ->
  Q e = true ->
  exists pre' p, pre = pre' ++ [p] /\ R p e.
Proof.
  intros H -> Qe.
  destruct (linked_at _ _ _ _ _ _ H) as (q & [[-> ->]|(pre' & x & -> & ->)] & Hq & _).
  - destruct (Hq Qe).
  - exists pre', x. split; [reflexivity | exact (Hq Qe)].
Qed.

(** ** Right after *)

Lemma goesOn_weak Q S p e :
  notLast Q p -> goesOn Q S None e -> goesOn Q S p e.
Proof. intros H _. destruct p as [p|]; cbn in *; [congruence | exact I]. Qed.

Lemma goesOn_split Q S l pre e post :
  linked (goesOn Q S) (notLast Q) None l ->
  l = pre ++ e :: post ->
  Q e = true ->
  exists e' post', post = e' :: post' /\ S e e'.
Proof.
  intros H -> Qe.
  destruct (linked_at _ _ _ _ _ _ H) as (q & _ & _ & Hp).
  destruct post as [|e' post']; cbn [linked] in Hp.
  - cbn in Hp. congruence.
  - destruct Hp as [Hp _]. exists e', post'. split; [reflexivity | exact (Hp Qe)].
Qed.

Lemma links_bind_assoc {W} P E p {A B C} (m : M W A) (f : A -> M W B) (g : B -> M W C) :
  links P E p (bind m (fun x => bind (f x) g)) -> links P E p (bind (bind m f) g).
Proof. intros H w. rewrite bind_assoc. apply H. Qed.

Lemma links_bind_throw {W} P E p {A B} e (f : A -> M W B) :
  E p -> links P E p (bind (throw e) f).
Proof. intros H w. rewrite bind_throw. exact H. Qed.

Lemma links_bind_if {W} P E p {A B} (b : bool) (m m' : M W A) (f : A -> M W B) :
  links P E p (bind m f) -> links P E p (bind m' f) ->
  links P E p (bind (if b then m else m') f).
Proof. destruct b; auto. Qed.

(** The neighbours in a computation, by its structure: the event before is
    followed through the calls, the sequences and the tests; [wk] and [st]
    are the two facts on [P] and [E] the rules ask for, and [tac] settles what
    is asked of the events. *)
Ltac link wk st tac :=
  unfold_calls;
  repeat
    match goal with
    | |- links _ _ _ (bind (bind _ _) _) => apply links_bind_assoc
    | |- links _ _ _ (bind (ret _) _) => apply links_bind_ret
    | |- links _ _ _ (bind (call _ _ _) _) =>
        apply links_bind_call; [intros ?; split | intros ?; split]
    | |- links _ _ _ (bind (core _ _) _) => apply links_bind_core
    | |- links _ _ _ (bind (if negb ?b then _ else _) _) =>
        is_var b; destruct b; cbn [negb]; cbv iota
    | |- links _ _ _ (bind (if ?b then _ else _) _) => is_var b; destruct b; cbv iota
    | |- links _ _ _ (if negb ?b then _ else _) =>
        is_var b; destruct b; cbn [negb]; cbv iota
    | |- links _ _ _ (if ?b then _ else _) => is_var b; destruct b; cbv iota
    | |- links _ _ _ (bind (match ?x with _ => _ end) _) => is_var x; destruct x
    | |- links _ _ _ (match ?x with _ => _ end) => is_var x; destruct x
    | |- links _ _ _ (bind (throw _) _) => apply links_bind_throw
    | |- links _ _ _ (bind (if _ then _ else _) _) => apply links_bind_if
    | |- links _ _ _ (bind _ _) => apply (links_bind _ _ wk); [|intros ?]
    | |- links _ _ _ (call _ _ _) =>
        apply links_call; [intros ?; split | intros ?; split]
    | |- links _ _ _ (core _ _) => apply links_core
    | |- links _ _ _ (ret _) => apply links_ret
    | |- links _ _ _ (throw _) => apply links_throw
    | |- links _ _ _ (tryCatch _ _) => apply (links_tryCatch _ _ wk); [|intros ?]
    | |- links _ _ _ (tryFinally _ _) => apply (links_tryFinally _ _ wk)
    | |- links _ _ _ (forEach _ _) => apply (links_forEach _ _ wk st); [|intros ?]
    | |- links _ _ _ (if _ then _ else _) => apply links_if
    | |- links _ _ _ _ => progress cbv beta iota zeta
    end;
  tac.

(** What is asked of an event that the statement does not concern. *)
Ltac idle :=
  lazymatch goal with
  | |- links _ _ _ _ => idtac
  | |- _ =>
      first [ exact I
            | reflexivity
            | solve [unfold comesAfter, goesOn, notLast, anyEnd; cbn; intros; discriminate]
            | solve [unfold comesAfter, goesOn, notLast, anyEnd; cbn; auto] ]
  end.

(** A computation without events that satisfy [Q] has nothing to link. *)
Lemma linked_free (P : option Event -> Event -> Prop) (E : option Event -> Prop)
    (Q : Event -> bool) l :
  (forall p e, Q e = false -> P p e) ->
  (forall p, match p with Some e => Q e = false -> E p | None => E p end) ->
  forallb (fun e => negb (Q e)) l = true ->
  linked P E None l.
Proof.
  intros HP HE. generalize (HE None). generalize (@None Event).
  induction l as [|e l IH]; intros p Hp F; cbn [linked forallb] in *.
  - exact Hp.
  - apply andb_true_iff in F. destruct F as [Fe F]. apply negb_true_iff in Fe.
    split; [apply HP, Fe|]. apply IH; [|exact F]. exact (HE (Some e) Fe).
Qed.

Lemma comesAfter_free {W A} Q R (m : M W A) :
  emits (fun e => negb (Q e)) m -> links (comesAfter Q R) anyEnd None m.
Proof.
  intros H w. apply (linked_free _ _ Q); [| |apply H].
  - intros p e N T. congruence.
  - intros [e|]; intros; exact I.
Qed.

Lemma goesOn_free {W A} Q S (m : M W A) :
  emits (fun e => negb (Q e)) m -> links (goesOn Q S) (notLast Q) None m.
Proof.
  intros H w.
  assert (G : forall p l, notLast Q p -> forallb (fun e => negb (Q e)) l = true ->
                          linked (goesOn Q S) (notLast Q) p l).
  { intros p l. revert p. induction l as [|e l IH]; intros p Hp F; cbn [linked forallb] in *.
    - exact Hp.
    - apply andb_true_iff in F. destruct F as [Fe F]. apply negb_true_iff in Fe.
      split; [|apply IH; [exact Fe | exact F]].
      destruct p as [p|]; cbn in *; [congruence | exact I]. }
  apply G; [exact I | apply H].
Qed.

(** Walking through the calls of a computation, one answer at a time. *)
Ltac walk :=
  repeat first
    [ rewrite bind_assoc
    | rewrite bind_ret
    | rewrite bind_call; answer; tidy
    | rewrite bind_core; tidy
    | rewrite call_run; answer; tidy
    | match goal with
      | |- context [if negb ?b then _ else _] =>
          is_var b; destruct b; cbn [negb]; cbv iota
      | |- context [if ?b then _ else _] => is_var b; destruct b; cbv iota
      end
    | progress cbv beta iota ].


Section MoreSourceFacts.

Context {W : Type}.
Variable env : Env W.

(** The neighbours in [getSource], from those in its parts. *)
Lemma links_synchronize P E settings :
  (forall p e, E p -> P None e -> P p e) ->
  links P E None (downloadFallback env settings) ->
  (forall g : IGitCommandManager W, links P E None (setUp env g settings)) ->
  (forall g : IGitCommandManager W, links P E None (fetchAndCheckout env g settings)) ->
  (forall g : IGitCommandManager W, links P E None (releaseCredential g settings)) ->
  forall git, links P E None (synchronize env git settings).
Proof.
  intros wk Hd Hs Hb Hr [g|]; unfold synchronize, credentialBracket; [|exact Hd].
  apply (links_bind _ _ wk); [apply Hs | intros _].
  apply (links_tryFinally _ _ wk); [apply Hb | apply Hr].
Qed.

Lemma links_getSource P E settings :
  (forall p e, E p -> P None e -> P p e) ->
  E None ->
  P None (Core Info (syncingText settings)) ->
  E (Some (Core Info (syncingText settings))) ->
  links P E None (enterDirectory env settings) ->
  links P E None (getGitCommandManager env settings) ->
  (forall git, links P E None
                 (prepareExistingDirectory env git (repositoryPath settings)
                    (repositoryUrlOf env settings) (clean settings))) ->
  (forall git, links P E None (synchronize env git settings)) ->
  links P E None (getSource env settings).
Proof.
  intros wk st H0 H0' He Hg Hp Hs w. rewrite getSource_parts. revert w.
  change (links P E None (getSourceByParts env settings)).
  unfold getSourceByParts, core_info. fold (syncingText settings).
  apply links_bind_core; [exact H0|].
  apply links_weaken; [exact wk | exact H0' |].
  apply (links_bind _ _ wk); [exact He | intros isExisting].
  apply (links_bind _ _ wk); [exact Hg | intros git].
  apply (links_bind _ _ wk).
  - destruct isExisting; [apply Hp | apply links_ret, st].
  - intros _. apply (Hs git).
Qed.

(** The fetch of line 109 is made with the depth of the settings and with the
    refspec that [getRefSpec] has just computed from the ref and the commit of
    the settings; and once [getRefSpec] has returned, the fetch is the next
    call. *)
Theorem fetch_uses_depth_and_refspec settings w :
  let r := getSource env settings w in
  (forall pre d spec o post,
      events r = pre ++ Ev (Fetch d spec) o :: post ->
      d = fetchDepth settings /\
      exists pre',
        pre = pre' ++ [Ev (GetRefSpec (ref settings) (commit settings))
                         (Returned (VStrings spec))]) /\
  (forall pre a b spec post,
      events r = pre ++ Ev (GetRefSpec a b) (Returned (VStrings spec)) :: post ->
      exists o rest, post = Ev (Fetch (fetchDepth settings) spec) o :: rest).
Proof.
  cbv zeta. split.
  - set (Q := fun e => match e with Ev (Fetch _ _) _ => true | _ => false end).
    set (R := fun p e : Event =>
                exists spec o,
                  p = Ev (GetRefSpec (ref settings) (commit settings))
                        (Returned (VStrings spec)) /\
                  e = Ev (Fetch (fetchDepth settings) spec) o).
    assert (L : links (comesAfter Q R) anyEnd None (getSource env settings)).
    { apply links_getSource; try apply comesAfter_weak; try exact I; try idle.
      - apply comesAfter_free. unfold enterDirectory. footprint.
      - apply comesAfter_free. unfold getGitCommandManager. footprint.
      - intros git. apply comesAfter_free. unfold prepareExistingDirectory. footprint.
      - apply links_synchronize; try apply comesAfter_weak; intros.
        + apply comesAfter_free. unfold downloadFallback. footprint.
        + apply comesAfter_free. unfold setUp, removeGitConfig. footprint.
        + unfold fetchAndCheckout, checkoutResolved, configureAuthToken.
          link (comesAfter_weak Q R) I ltac:(try idle).
          all: intros _; eexists _, _; split; reflexivity.
        + apply comesAfter_free. unfold releaseCredential, removeGitConfig. footprint. }
    intros pre d spec o post H.
    destruct (comesAfter_split Q R _ _ _ _ (L w) H eq_refl)
      as (pre' & p & -> & spec' & o' & -> & X).
    inversion X; subst. split; [reflexivity|]. exists pre'. reflexivity.
  - set (Q := fun e => match e with
                       | Ev (GetRefSpec _ _) (Returned (VStrings _)) => true
                       | _ => false
                       end).
    set (S := fun p e : Event =>
                exists a b spec o,
                  p = Ev (GetRefSpec a b) (Returned (VStrings spec)) /\
                  e = Ev (Fetch (fetchDepth settings) spec) o).
    assert (L : links (goesOn Q S) (notLast Q) None (getSource env settings)).
    { apply links_getSource; try apply goesOn_weak; try exact I; try idle.
      - apply goesOn_free. unfold enterDirectory. footprint.
      - apply goesOn_free. unfold getGitCommandManager. footprint.
      - intros git. apply goesOn_free. unfold prepareExistingDirectory. footprint.
      - apply links_synchronize; try apply goesOn_weak; intros.
        + apply goesOn_free. unfold downloadFallback. footprint.
        + apply goesOn_free. unfold setUp, removeGitConfig. footprint.
        + unfold fetchAndCheckout, checkoutResolved, configureAuthToken.
          link (goesOn_weak Q S) I ltac:(try idle).
          all: intros _; eexists _, _, _, _; split; reflexivity.
        + apply goesOn_free. unfold releaseCredential, removeGitConfig. footprint. }
    intros pre a b spec post H.
    destruct (goesOn_split Q S _ _ _ _ (L w) H eq_refl)
      as (e' & post' & -> & a' & b' & spec' & o' & X & ->).
    inversion X; subst. eauto.
Qed.

(** The neighbours in [getSource] when the part that matters is the one that
    follows the construction of the gateway. *)
Ltac elsewhere free :=
  lazymatch goal with
  | |- forall _, _ => intro
  | |- _ => idtac
  end;
  solve [ apply free;
          unfold enterDirectory, getGitCommandManager, prepareExistingDirectory,
            downloadFallback, setUp, releaseCredential, removeGitConfig,
            fetchAndCheckout, checkoutResolved, configureAuthToken;
          footprint ].

(** A repository is initialised only when the path has no [.git] directory,
    and the remote [origin] is then added with the URL made of the owner and
    the name; [remoteAdd] is called at no other place and with no other
    arguments. *)
Theorem repository_initialised_only_without_metadata settings w :
  let r := getSource env settings w in
  let gitDir := path_join env [repositoryPath settings; ".git"%string] in
  (forall pre o post,
      events r = pre ++ Ev Init o :: post ->
      (exists pre',
          pre = pre' ++ [Ev (DirectoryExistsSync gitDir) (Returned (VBool false))]) /\
      (forall v, o = Returned v ->
       exists o' rest,
         post = Ev (RemoteAdd "origin" (repositoryUrlOf env settings)) o' :: rest)) /\
  (forall pre n u o post,
      events r = pre ++ Ev (RemoteAdd n u) o :: post ->
      n = "origin"%string /\ u = repositoryUrlOf env settings /\
      exists pre', pre = pre' ++ [Ev Init (Returned VUnit)]).
Proof.
  cbv zeta.
  set (Q := fun e => match e with Ev Init _ | Ev (RemoteAdd _ _) _ => true | _ => false end).
  set (R := fun p e : Event =>
              (exists o, e = Ev Init o /\
                 p = Ev (DirectoryExistsSync (path_join env [repositoryPath settings; ".git"%string]))
                       (Returned (VBool false))) \/
              (exists o, e = Ev (RemoteAdd "origin" (repositoryUrlOf env settings)) o /\
                 p = Ev Init (Returned VUnit))).
  assert (L : links (comesAfter Q R) anyEnd None (getSource env settings)).
  { apply links_getSource; try apply comesAfter_weak; try exact I; try idle;
      try elsewhere (@comesAfter_free W).
    apply links_synchronize; try apply comesAfter_weak; intros;
      try elsewhere (@comesAfter_free W).
    unfold setUp, removeGitConfig.
    link (comesAfter_weak Q R) I ltac:(try idle).
    all: intros _; first [ left; eexists; split; reflexivity
                         | right; eexists; split; reflexivity ]. }
  set (Q' := fun e => match e with Ev Init (Returned _) => true | _ => false end).
  set (S := fun p e : Event =>
              exists o, e = Ev (RemoteAdd "origin" (repositoryUrlOf env settings)) o).
  assert (L' : links (goesOn Q' S) (notLast Q') None (getSource env settings)).
  { apply links_getSource; try apply goesOn_weak; try exact I; try idle;
      try elsewhere (@goesOn_free W).
    apply links_synchronize; try apply goesOn_weak; intros;
      try elsewhere (@goesOn_free W).
    unfold setUp, removeGitConfig.
    link (goesOn_weak Q' S) I ltac:(try idle).
    all: intros _; eexists; reflexivity. }
  split.
  - intros pre o post H. split.
    + destruct (comesAfter_split Q R _ _ _ _ (L w) H eq_refl)
        as (pre' & p & -> & [(o' & X & ->)|(o' & X & _)]); [|discriminate X].
      exists pre'. reflexivity.
    + intros v ->.
      destruct (goesOn_split Q' S _ _ _ _ (L' w) H eq_refl) as (e' & post' & -> & o' & ->).
      eauto.
  - intros pre n u o post H.
    destruct (comesAfter_split Q R _ _ _ _ (L w) H eq_refl)
      as (pre' & p & -> & [(o' & X & _)|(o' & X & ->)]); [discriminate X|].
    inversion X; subst. split; [reflexivity|]. split; [reflexivity|]. exists pre'. reflexivity.
Qed.

(** [getSource] and [cleanup] ask git to unset a configuration entry only
    for [authConfigKey], and only right after [configExists] has answered that
    the entry is there; and after that answer the unsetting is the next call. *)
Theorem unset_only_after_probe settings path w :
  let found := Ev (ConfigExists authConfigKey) (Returned (VBool true)) in
  (forall pre k o post,
      events (getSource env settings w) = pre ++ Ev (TryConfigUnset k) o :: post ->
      k = authConfigKey /\ exists pre', pre = pre' ++ [found]) /\
  (forall pre k post,
      events (getSource env settings w)
      = pre ++ Ev (ConfigExists k) (Returned (VBool true)) :: post ->
      exists o rest, post = Ev (TryConfigUnset authConfigKey) o :: rest) /\
  (forall pre k o post,
      events (cleanup env path w) = pre ++ Ev (TryConfigUnset k) o :: post ->
      k = authConfigKey /\ exists pre', pre = pre' ++ [found]) /\
  (forall pre k post,
      events (cleanup env path w)
      = pre ++ Ev (ConfigExists k) (Returned (VBool true)) :: post ->
      exists o rest, post = Ev (TryConfigUnset authConfigKey) o :: rest).
Proof.
  cbv zeta.
  set (Q := fun e => match e with Ev (TryConfigUnset _) _ => true | _ => false end).
  set (R := fun p e : Event =>
              exists o, e = Ev (TryConfigUnset authConfigKey) o /\
                        p = Ev (ConfigExists authConfigKey) (Returned (VBool true))).
  set (Q' := fun e => match e with
                      | Ev (ConfigExists _) (Returned (VBool true)) => true
                      | _ => false
                      end).
  set (S := fun p e : Event => exists o, e = Ev (TryConfigUnset authConfigKey) o).
  assert (L : links (comesAfter Q R) anyEnd None (getSource env settings)).
  { apply links_getSource; try apply comesAfter_weak; try exact I; try idle;
      try elsewhere (@comesAfter_free W).
    apply links_synchronize; try apply comesAfter_weak; intros;
      try elsewhere (@comesAfter_free W).
    - unfold setUp, removeGitConfig.
      link (comesAfter_weak Q R) I ltac:(try idle).
      all: intros _; eexists; split; reflexivity.
    - unfold releaseCredential, removeGitConfig.
      link (comesAfter_weak Q R) I ltac:(try idle).
      all: intros _; eexists; split; reflexivity. }
  assert (L' : links (goesOn Q' S) (notLast Q') None (getSource env settings)).
  { apply links_getSource; try apply goesOn_weak; try exact I; try idle;
      try elsewhere (@goesOn_free W).
    apply links_synchronize; try apply goesOn_weak; intros;
      try elsewhere (@goesOn_free W).
    - unfold setUp, removeGitConfig.
      link (goesOn_weak Q' S) I ltac:(try idle).
      all: intros _; eexists; reflexivity.
    - unfold releaseCredential, removeGitConfig.
      link (goesOn_weak Q' S) I ltac:(try idle).
      all: intros _; eexists; reflexivity. }
  assert (C : links (comesAfter Q R) anyEnd None (cleanup env path)).
  { unfold cleanup, removeGitConfig.
    link (comesAfter_weak Q R) I ltac:(try idle).
    all: intros _; eexists; split; reflexivity. }
  assert (C' : links (goesOn Q' S) (notLast Q') None (cleanup env path)).
  { unfold cleanup, removeGitConfig.
    link (goesOn_weak Q' S) I ltac:(try idle).
    all: intros _; eexists; reflexivity. }
  repeat split.
  - destruct (comesAfter_split Q R _ _ _ _ (L w) H eq_refl) as (pre' & p & -> & o' & X & ->).
    inversion X. reflexivity.
  - destruct (comesAfter_split Q R _ _ _ _ (L w) H eq_refl) as (pre' & p & -> & o' & X & ->).
    exists pre'. reflexivity.
  - intros pre k post H.
    destruct (goesOn_split Q' S _ _ _ _ (L' w) H eq_refl) as (e' & post' & -> & o' & ->).
    eauto.
  - destruct (comesAfter_split Q R _ _ _ _ (C w) H eq_refl) as (pre' & p & -> & o' & X & ->).
    inversion X. reflexivity.
  - destruct (comesAfter_split Q R _ _ _ _ (C w) H eq_refl) as (pre' & p & -> & o' & X & ->).
    exists pre'. reflexivity.
  - intros pre k post H.
    destruct (goesOn_split Q' S _ _ _ _ (C' w) H eq_refl) as (e' & post' & -> & o' & ->).
    eauto.
Qed.

(** Once [checkout] has returned, [log1] is the next call; and [log1] is
    called at no other place than right after a checkout that returned. *)
Theorem checkout_is_followed_by_log settings w :
  let r := getSource env settings w in
  (forall pre a b v post,
      events r = pre ++ Ev (Checkout a b) (Returned v) :: post ->
      exists o rest, post = Ev Log1 o :: rest) /\
  (forall pre o post,
      events r = pre ++ Ev Log1 o :: post ->
      exists pre' a b, pre = pre' ++ [Ev (Checkout a b) (Returned VUnit)]).
Proof.
  cbv zeta.
  set (Q := fun e => match e with Ev (Checkout _ _) (Returned _) => true | _ => false end).
  set (S := fun p e : Event => exists o, e = Ev Log1 o).
  set (Q' := fun e => match e with Ev Log1 _ => true | _ => false end).
  set (R := fun p e : Event => exists a b, p = Ev (Checkout a b) (Returned VUnit)).
  assert (L : links (goesOn Q S) (notLast Q) None (getSource env settings)).
  { apply links_getSource; try apply goesOn_weak; try exact I; try idle;
      try elsewhere (@goesOn_free W).
    apply links_synchronize; try apply goesOn_weak; intros;
      try elsewhere (@goesOn_free W).
    unfold fetchAndCheckout, checkoutResolved, configureAuthToken.
    link (goesOn_weak Q S) I ltac:(try idle).
    all: intros _; eexists; reflexivity. }
  assert (L' : links (comesAfter Q' R) anyEnd None (getSource env settings)).
  { apply links_getSource; try apply comesAfter_weak; try exact I; try idle;
      try elsewhere (@comesAfter_free W).
    apply links_synchronize; try apply comesAfter_weak; intros;
      try elsewhere (@comesAfter_free W).
    unfold fetchAndCheckout, checkoutResolved, configureAuthToken.
    link (comesAfter_weak Q' R) I ltac:(try idle).
    all: intros _; eexists _, _; reflexivity. }
  split.
  - intros pre a b v post H.
    destruct (goesOn_split Q S _ _ _ _ (L w) H eq_refl) as (e' & post' & -> & o' & ->).
    eauto.
  - intros pre o post H.
    destruct (comesAfter_split Q' R _ _ _ _ (L' w) H eq_refl) as (pre' & p & -> & a & b & ->).
    eauto.
Qed.

(** Without [lfs], once the checkout target is resolved the next call is the
    checkout of the resolved ref at the resolved start point: nothing is
    fetched in between. *)
Theorem checkout_follows_resolution_without_lfs settings w :
  lfs settings = false ->
  forall pre a b info post,
    events (getSource env settings w)
    = pre ++ Ev (GetCheckoutInfo a b) (Returned (VCheckoutInfo info)) :: post ->
    exists o rest,
      post = Ev (Checkout (ICheckoutInfo.ref info) (ICheckoutInfo.startPoint info)) o :: rest.
Proof.
  intros Lfs.
  set (Q := fun e => match e with
                     | Ev (GetCheckoutInfo _ _) (Returned (VCheckoutInfo _)) => true
                     | _ => false
                     end).
  set (S := fun p e : Event =>
              exists a b info o,
                p = Ev (GetCheckoutInfo a b) (Returned (VCheckoutInfo info)) /\
                e = Ev (Checkout (ICheckoutInfo.ref info) (ICheckoutInfo.startPoint info)) o).
  assert (L : links (goesOn Q S) (notLast Q) None (getSource env settings)).
  { apply links_getSource; try apply goesOn_weak; try exact I; try idle;
      try elsewhere (@goesOn_free W).
    apply links_synchronize; try apply goesOn_weak; intros;
      try elsewhere (@goesOn_free W).
    unfold fetchAndCheckout, checkoutResolved, configureAuthToken. rewrite Lfs.
    link (goesOn_weak Q S) I ltac:(try idle).
    all: intros _; eexists _, _, _, _; split; reflexivity. }
  intros pre a b info post H.
  destruct (goesOn_split Q S _ _ _ _ (L w) H eq_refl)
    as (e' & post' & -> & a' & b' & info' & o' & X & ->).
  inversion X; subst. eauto.
Qed.

(** A git that cannot turn off its automatic garbage collection does not
    stop [getSource]: the warning of line 90 is written and the run goes on
    with the removal of a previous credential, as it does at once when the
    garbage collection is turned off. *)
Theorem gc_failure_only_warns settings w :
  let r := getSource env settings w in
  (forall pre post,
      events r = pre ++ Ev TryDisableAutomaticGarbageCollection (Returned (VBool false))
                   :: post ->
      exists o rest,
        post = Core Warning gcWarning :: Ev (ConfigExists authConfigKey) o :: rest) /\
  (forall pre post,
      events r = pre ++ Ev TryDisableAutomaticGarbageCollection (Returned (VBool true))
                   :: post ->
      exists o rest, post = Ev (ConfigExists authConfigKey) o :: rest).
Proof.
  cbv zeta.
  set (Q := fun e => match e with
                     | Ev TryDisableAutomaticGarbageCollection (Returned (VBool _)) => true
                     | Core Warning t => String.eqb t gcWarning
                     | _ => false
                     end).
  set (S := fun p e : Event =>
              match p with
              | Ev _ (Returned (VBool false)) => e = Core Warning gcWarning
              | _ => exists o, e = Ev (ConfigExists authConfigKey) o
              end).
  assert (L : links (goesOn Q S) (notLast Q) None (getSource env settings)).
  { apply links_getSource; try apply goesOn_weak; try exact I; try idle;
      try elsewhere (@goesOn_free W).
    apply links_synchronize; try apply goesOn_weak; intros;
      try elsewhere (@goesOn_free W).
    unfold setUp, removeGitConfig.
    link (goesOn_weak Q S) I ltac:(try idle).
    all: intros _; first [reflexivity | eexists; reflexivity]. }
  split.
  - intros pre post H.
    destruct (goesOn_split Q S _ _ _ _ (L w) H eq_refl) as (e' & post' & -> & X).
    cbn in X. subst e'.
    assert (H' : events (getSource env settings w)
                 = (pre ++ [Ev TryDisableAutomaticGarbageCollection (Returned (VBool false))])
                   ++ Core Warning gcWarning :: post')
      by (rewrite <- app_assoc; exact H).
    destruct (goesOn_split Q S _ _ _ _ (L w) H' eq_refl) as (e' & post'' & -> & o & ->).
    eauto.
  - intros pre post H.
    destruct (goesOn_split Q S _ _ _ _ (L w) H eq_refl) as (e' & post' & -> & o & ->).
    eauto.
Qed.

(** What [getSource] asks git to write in the configuration is never the
    token: the only call of [config] writes the placeholder under
    [authConfigKey]; and it is made right after the removal of a previous
    entry has ended, be it that there was none, that it was unset, or that the
    failure to unset it was reported. *)
Theorem placeholder_configured_after_removal settings w :
  forall pre k v o post,
    events (getSource env settings w) = pre ++ Ev (Config k v) o :: post ->
    k = authConfigKey /\ v = placeholder /\
    exists pre' last,
      pre = pre' ++ [last] /\
      (last = Ev (ConfigExists authConfigKey) (Returned (VBool false)) \/
       last = Ev (TryConfigUnset authConfigKey) (Returned (VBool true)) \/
       last = Core Warning removalWarning).
Proof.
  set (Q := fun e => match e with Ev (Config _ _) _ => true | _ => false end).
  set (R := fun p e : Event =>
              (exists o, e = Ev (Config authConfigKey placeholder) o) /\
              (p = Ev (ConfigExists authConfigKey) (Returned (VBool false)) \/
               p = Ev (TryConfigUnset authConfigKey) (Returned (VBool true)) \/
               p = Core Warning removalWarning)).
  assert (L : links (comesAfter Q R) anyEnd None (getSource env settings)).
  { apply links_getSource; try apply comesAfter_weak; try exact I; try idle;
      try elsewhere (@comesAfter_free W).
    intros [g|]; unfold synchronize; [|elsewhere (@comesAfter_free W)].
    unfold credentialBracket, setUp, fetchAndCheckout, checkoutResolved, releaseCredential,
      configureAuthToken, removeGitConfig.
    link (comesAfter_weak Q R) I ltac:(try idle).
    all: intros _; split; [eexists; reflexivity|]; auto. }
  intros pre k v o post H.
  destruct (comesAfter_split Q R _ _ _ _ (L w) H eq_refl)
    as (pre' & p & -> & (o' & X) & Y).
  inversion X; subst. split; [reflexivity|]. split; [reflexivity|]. eauto.
Qed.

Lemma mkdirP_before settings w :
  forall pre p o post,
    events (getSource env settings w) = pre ++ Ev (MkdirP p) o :: post ->
    p = repositoryPath settings /\
    exists pre',
      pre = pre' ++ [Ev (DirectoryExistsSync (repositoryPath settings))
                       (Returned (VBool false))].
Proof.
  set (Q := fun e => match e with Ev (MkdirP _) _ => true | _ => false end).
  set (R := fun p e : Event =>
              (exists o, e = Ev (MkdirP (repositoryPath settings)) o) /\
              p = Ev (DirectoryExistsSync (repositoryPath settings)) (Returned (VBool false))).
  assert (L : links (comesAfter Q R) anyEnd None (getSource env settings)).
  { apply links_getSource; try apply comesAfter_weak; try exact I; try idle;
      try elsewhere (@comesAfter_free W).
    - unfold enterDirectory.
      link (comesAfter_weak Q R) I ltac:(try idle).
      all: intros _; split; [eexists; reflexivity | reflexivity].
    - intros git. apply links_synchronize; try apply comesAfter_weak; intros;
        elsewhere (@comesAfter_free W). }
  intros pre p o post H.
  destruct (comesAfter_split Q R _ _ _ _ (L w) H eq_refl)
    as (pre' & q & -> & (o' & X) & ->).
  inversion X; subst. split; [reflexivity|]. eauto.
Qed.

Lemma mkdirP_after settings w :
  forall pre p o post,
    events (getSource env settings w) = pre ++ Ev (MkdirP p) o :: post ->
    forallb (fun e => negb (calls reconcilerCall e) && negb (calls isRmRF e)) post = true.
Proof.
  intros pre p o post. rewrite getSource_parts.
  unfold getSourceByParts, enterDirectory. unfold_calls.
  set (Q := fun e => match e with Ev (MkdirP _) _ => true | _ => false end).
  assert (Qe : Q (Ev (MkdirP p) o) = true) by reflexivity.
  assert (F : forall ex, emits (fun e => negb (Q e))
                (bind (getGitCommandManager env settings)
                   (fun git =>
                      bind (if ex : bool
                            then prepareExistingDirectory env git (repositoryPath settings)
                                   (repositoryUrlOf env settings) (clean settings)
                            else ret tt)
                        (fun _ =>
                           match git with
                           | Some git0 =>
                               bind (setUp env git0 settings)
                                 (fun _ => tryFinally (fetchAndCheckout env git0 settings)
                                             (releaseCredential git0 settings))
                           | None => downloadFallback env settings
                           end)))).
  { intros ex.
    unfold getGitCommandManager, prepareExistingDirectory, setUp, fetchAndCheckout,
      checkoutResolved, releaseCredential, downloadFallback, configureAuthToken,
      removeGitConfig.
    footprint. }
  assert (G : emits (fun e => negb (calls reconcilerCall e) && negb (calls isRmRF e))
                (bind (getGitCommandManager env settings)
                   (fun git =>
                      bind (ret tt)
                        (fun _ =>
                           match git with
                           | Some git0 =>
                               bind (setUp env git0 settings)
                                 (fun _ => tryFinally (fetchAndCheckout env git0 settings)
                                             (releaseCredential git0 settings))
                           | None => downloadFallback env settings
                           end)))).
  { unfold getGitCommandManager, setUp, fetchAndCheckout,
      checkoutResolved, releaseCredential, downloadFallback, configureAuthToken,
      removeGitConfig.
    footprint. }
  rewrite bind_core. walk.
  all: intros H; locate.
  all: first
    [ reflexivity
    | apply G
    | exfalso; eapply forallb_absent; [apply (F true) | exact Qe | exact H]
    | exfalso; eapply forallb_absent; [apply (F false) | exact Qe | exact H] ].
Qed.

(** A directory is made only at the path of the settings and only right after
    [directoryExistsSync] has answered that the path is not a directory; and
    in what follows the making of the directory nothing is listed, pruned,
    cleaned or deleted: a directory that has just been made is not
    reconciled. *)
Theorem directory_made_only_when_missing settings w :
  forall pre p o post,
    events (getSource env settings w) = pre ++ Ev (MkdirP p) o :: post ->
    p = repositoryPath settings /\
    (exists pre',
        pre = pre' ++ [Ev (DirectoryExistsSync (repositoryPath settings))
                         (Returned (VBool false))]) /\
    forallb (fun e => negb (calls reconcilerCall e) && negb (calls isRmRF e)) post = true.
Proof.
  intros pre p o post H.
  destruct (mkdirP_before settings w _ _ _ _ H) as [H1 H2].
  split; [exact H1|]. split; [exact H2|]. exact (mkdirP_after settings w _ _ _ _ H).
Qed.


(** Without [lfs], [getSource] makes no LFS call: the gateway is constructed
    without LFS, and neither [lfsInstall] nor [lfsFetch] is called. *)
Theorem no_lfs_call_without_lfs settings w :
  lfs settings = false ->
  forallb (fun e => negb (calls lfsCall e)) (events (getSource env settings w)) = true.
Proof.
  intros L. rewrite getSource_parts. revert w.
  change (emits (fun e => negb (calls lfsCall e)) (getSourceByParts env settings)).
  unfold getSourceByParts, enterDirectory, getGitCommandManager, prepareExistingDirectory,
    downloadFallback, setUp, fetchAndCheckout, checkoutResolved, releaseCredential,
    configureAuthToken, removeGitConfig.
  rewrite L. footprint.
Qed.

(** With [lfs], [lfsInstall] is called right after the credential is written
    in the configuration file, and the refspec is computed right after
    [lfsInstall] has returned: LFS is installed between the configuration of
    the credential and the fetch. *)
Theorem lfs_installed_before_fetch settings w :
  lfs settings = true ->
  let r := getSource env settings w in
  (forall pre o post,
      events r = pre ++ Ev LfsInstall o :: post ->
      exists pre' p content, pre = pre' ++ [Ev (WriteFile p content) (Returned VUnit)]) /\
  (forall pre a b o post,
      events r = pre ++ Ev (GetRefSpec a b) o :: post ->
      exists pre', pre = pre' ++ [Ev LfsInstall (Returned VUnit)]).
Proof.
  intros Lfs. cbv zeta.
  set (Q := fun e => match e with Ev LfsInstall _ | Ev (GetRefSpec _ _) _ => true | _ => false end).
  set (R := fun p e : Event =>
              match e with
              | Ev LfsInstall _ => exists f c, p = Ev (WriteFile f c) (Returned VUnit)
              | _ => p = Ev LfsInstall (Returned VUnit)
              end).
  assert (L : links (comesAfter Q R) anyEnd None (getSource env settings)).
  { apply links_getSource; try apply comesAfter_weak; try exact I; try idle;
      try elsewhere (@comesAfter_free W).
    apply links_synchronize; try apply comesAfter_weak; intros;
      try elsewhere (@comesAfter_free W).
    unfold fetchAndCheckout, checkoutResolved, configureAuthToken. rewrite Lfs.
    link (comesAfter_weak Q R) I ltac:(try idle).
    all: intros _; first [reflexivity | eexists _, _; reflexivity]. }
  split.
  - intros pre o post H.
    destruct (comesAfter_split Q R _ _ _ _ (L w) H eq_refl) as (pre' & p & -> & f & c & ->).
    eauto.
  - intros pre a b o post H.
    destruct (comesAfter_split Q R _ _ _ _ (L w) H eq_refl) as (pre' & p & -> & X).
    cbn in X. subst p. eauto.
Qed.

End MoreSourceFacts.

Section Ways.

Context {W : Type}.
Variable env : Env W.

Lemma setUp_records (g : IGitCommandManager W) settings w :
  res (setUp env g settings w) = Ok tt ->
  exists rest,
    events (setUp env g settings w)
    = Ev (SetRepositoryPath (repositoryPath settings)) (Returned VUnit) :: rest.
Proof.
  unfold setUp. unfold_calls. rewrite bind_call. answer; tidy; [discriminate|].
  intros _. destruct a. eauto.
Qed.

(** A run of [getSource] either makes no call of the bracket, or it is what
    leads to the bracket, the setting up of the repository included, followed
    by the bracket. *)
Lemma getSource_reach settings w :
  let r := getSource env settings w in
  forallb (fun e => negb (bracketEvent e)) (events r) = true \/
  exists g lead w1,
    let s := setUp env g settings w1 in
    forallb (fun e => negb (bracketEvent e)) lead = true /\
    forallb (fun e => negb (bracketEvent e)) (events s) = true /\
    res s = Ok tt /\
    r = prepend (lead ++ events s) (credentialBracket env g settings (final s)).
Proof.
  cbv zeta.
  assert (G : emits (fun e => negb (bracketEvent e)) (enterDirectory env settings)).
  { unfold enterDirectory. footprint. }
  assert (Gs : forall g, emits (fun e => negb (bracketEvent e)) (setUp env g settings)).
  { intros g. unfold setUp, removeGitConfig. footprint. }
  destruct (getSource_cases env settings w)
    as [(e & R & E)|[(ex & m' & w' & R & C & L & E)|[(ex & m' & w' & R & C & L & E)
       |(ex & g & w' & R & C & E)]]];
    cbv zeta in E; rewrite E; clear E; cbn [prepend res final events] in *.
  - left. cbn [forallb]. rewrite (G w). reflexivity.
  - left. rewrite forallb_app. cbn [forallb]. rewrite (G w). reflexivity.
  - left. rewrite !forallb_app. cbn [forallb]. rewrite (G w). cbn [andb].
    assert (G' : emits (fun e => negb (bracketEvent e)) (afterGateway env None ex settings)).
    { unfold afterGateway, synchronize, downloadFallback, prepareExistingDirectory.
      footprint. }
    apply G'.
  - unfold afterGateway, synchronize. rewrite bind_run.
    set (p := (if ex
               then prepareExistingDirectory env (Some g) (repositoryPath settings)
                      (repositoryUrlOf env settings) (clean settings)
               else ret tt) w').
    assert (Gp : forallb (fun e => negb (bracketEvent e)) (events p) = true).
    { subst p.
      assert (X : emits (fun e => negb (bracketEvent e))
                    (if ex
                     then prepareExistingDirectory env (Some g) (repositoryPath settings)
                            (repositoryUrlOf env settings) (clean settings)
                     else ret tt)).
      { unfold prepareExistingDirectory. footprint. }
      apply X. }
    destruct (res p) as [[]|e] eqn:Rp; cbn [prepend res final events].
    2:{ left. rewrite !forallb_app. cbn [forallb]. rewrite (G w), Gp. reflexivity. }
    rewrite bind_run. pose proof (Gs g (final p)) as Gs'.
    destruct (res (setUp env g settings (final p))) as [[]|e] eqn:Rs;
      cbn [prepend res final events].
    2:{ left. rewrite !forallb_app. cbn [forallb]. rewrite (G w), Gp, Gs'. reflexivity. }
    right.
    exists g.
    exists ((Core Info (syncingText settings) :: events (enterDirectory env settings w)) ++
            [Core Info (workingDirectoryText settings);
             Ev (CreateCommandManager (repositoryPath settings) (lfs settings))
               (Returned VGit)] ++ events p).
    exists (final p).
    split; [|split; [exact Gs'|split; [exact Rs|]]].
    + rewrite !forallb_app. cbn [forallb app]. rewrite (G w), Gp. reflexivity.
    + unfold prepend. cbn [res final events]. f_equal.
      rewrite <- !app_assoc. reflexivity.
Qed.

(** The path is recorded for [cleanup] before anything is written in the
    configuration of the repository: a call of [config] or [writeFile] comes
    after [setRepositoryPath] has returned. *)
Theorem path_recorded_before_credential settings w :
  forall pre c o post,
    events (getSource env settings w) = pre ++ Ev c o :: post ->
    writesConfig c = true ->
    In (Ev (SetRepositoryPath (repositoryPath settings)) (Returned VUnit)) pre.
Proof.
  intros pre c o post H Wc.
  assert (Qe : bracketEvent (Ev c o) = true) by (destruct c; try discriminate; reflexivity).
  destruct (getSource_reach settings w) as [F|(g & lead & w1 & F & Fs & Rs & E)].
  { exfalso. eapply forallb_absent; [exact F | exact Qe | exact H]. }
  cbv zeta in E. rewrite E in H. clear E. cbn [prepend events] in H.
  assert (F' : forallb (fun e => negb (bracketEvent e))
                 (lead ++ events (setUp env g settings w1)) = true)
    by (rewrite forallb_app, F, Fs; reflexivity).
  destruct (skip_free bracketEvent _ _ F' _ _ _ Qe H) as (pre1 & -> & _).
  destruct (setUp_records g settings w1 Rs) as (rest & ->).
  apply in_or_app. left. apply in_or_app. right. left. reflexivity.
Qed.

(** With [persistCredentials], the credential that [getSource] has configured
    is left in place: once the placeholder is written nothing probes or
    unsets a configuration entry, and the run ends as the body of the [try]
    ends, with its result. *)
Theorem persisted_credential_is_kept settings w :
  persistCredentials settings = true ->
  let r := getSource env settings w in
  forall pre k v o post,
    events r = pre ++ Ev (Config k v) o :: post ->
    forallb (fun e => negb (calls removalCall e)) post = true /\
    exists g w1 lead,
      let b := fetchAndCheckout env g settings w1 in
      events r = lead ++ events b /\ final r = final b /\ res r = res b.
Proof.
  cbv zeta. intros P pre k v o post H.
  assert (Qe : bracketEvent (Ev (Config k v) o) = true) by reflexivity.
  destruct (getSource_reach settings w) as [F|(g & lead & w1 & F & Fs & Rs & E)].
  { exfalso. eapply forallb_absent; [exact F | exact Qe | exact H]. }
  cbv zeta in E. rewrite E in H |- *. clear E. cbn [prepend events res final] in *.
  set (w2 := final (setUp env g settings w1)) in *.
  destruct (bracket_run env g settings w2) as (E1 & E2 & E3). cbv zeta in E1, E2, E3.
  unfold releaseCredential in E1, E2, E3. rewrite P in E1, E2, E3.
  cbn [negb] in E1, E2, E3. rewrite ret_run in E1, E2, E3. cbn [res final events] in E1, E2, E3.
  rewrite app_nil_r in E1. rewrite E1 in H |- *. rewrite E2, E3. split.
  - assert (F' : forallb (fun e => negb (bracketEvent e))
                   (lead ++ events (setUp env g settings w1)) = true)
      by (rewrite forallb_app, F, Fs; reflexivity).
    destruct (skip_free bracketEvent _ _ F' _ _ _ Qe H) as (pre1 & -> & H1).
    assert (X : emits (fun e => negb (calls removalCall e)) (fetchAndCheckout env g settings)).
    { unfold fetchAndCheckout, checkoutResolved, configureAuthToken. footprint. }
    specialize (X w2). rewrite H1, forallb_app in X. cbn [forallb] in X.
    apply andb_true_iff in X. destruct X as [_ X].
    apply andb_true_iff in X. destruct X as [_ X]. exact X.
  - exists g, w2, (lead ++ events (setUp env g settings w1)). auto.
Qed.

(** The repository is downloaded only when the gateway could not be
    constructed, in a run without [lfs]: a call of [downloadRepository] comes
    after the failed construction, it is the last event of the run, and the
    run returns or fails as the download does. *)
Theorem download_only_without_gateway settings w :
  let r := getSource env settings w in
  forall pre token owner repo ref commit path o post,
    events r = pre ++ Ev (DownloadRepository token owner repo ref commit path) o :: post ->
    post = [] /\
    lfs settings = false /\
    (exists m,
        In (Ev (CreateCommandManager (repositoryPath settings) false) (Raised m)) pre) /\
    res r = match o with
            | Returned _ => Ok tt
            | Raised m => Err (Rejected m)
            end.
Proof.
  cbv zeta. intros pre token owner repo ref commit path o post H.
  set (Q := calls isDownload).
  assert (Qe : Q (Ev (DownloadRepository token owner repo ref commit path) o) = true)
    by reflexivity.
  assert (G : forallb (fun e => negb (Q e))
                (Core Info (syncingText settings) :: events (enterDirectory env settings w))
              = true).
  { assert (X : emits (fun e => negb (Q e)) (enterDirectory env settings))
      by (unfold enterDirectory; footprint).
    cbn [forallb]. rewrite (X w). reflexivity. }
  destruct (getSource_cases env settings w)
    as [(e & R & E)|[(ex & m' & w' & R & C & L & E)|[(ex & m' & w' & R & C & L & E)
       |(ex & g & w' & R & C & E)]]];
    cbv zeta in E; rewrite E in H |- *; clear E; cbn [prepend res final events] in *.
  - exfalso. eapply forallb_absent; [exact G | exact Qe | exact H].
  - exfalso. eapply forallb_absent; [| exact Qe | exact H].
    rewrite forallb_app, G. reflexivity.
  - destruct (fallback_shape env ex settings w') as (cleared & tail & E & Fc & Ht).
    cbv zeta in E, Ht. rewrite E in H. rewrite L in H.
    assert (F' : forallb (fun e => negb (Q e))
                   (((Core Info (syncingText settings)
                      :: events (enterDirectory env settings w)) ++
                     [Core Info (workingDirectoryText settings);
                      Ev (CreateCommandManager (repositoryPath settings) false) (Raised m')])
                    ++ cleared) = true).
    { rewrite !forallb_app, G. cbn [forallb andb negb Q calls isDownload].
      eapply forallb_weaken; [|exact Fc]. intros e0. rewrite andb_true_iff. tauto. }
    rewrite app_assoc in H.
    destruct (skip_free Q _ _ F' _ _ _ Qe H) as (pre1 & -> & H1).
    destruct Ht as [(-> & _)|(t1 & t2 & o' & -> & Ro)].
    { destruct pre1; discriminate H1. }
    locate. split; [reflexivity|]. split; [exact L|]. split.
    + exists m'. apply in_or_app. left. apply in_or_app. left. apply in_or_app. right.
      right. left. reflexivity.
    + destruct Ro as [(-> & Ro)|(m0 & -> & Ro)]; exact Ro.
  - exfalso. eapply forallb_absent; [| exact Qe | exact H].
    rewrite !forallb_app, G. cbn [forallb andb negb Q calls isDownload].
    assert (X : emits (fun e => negb (Q e)) (afterGateway env (Some g) ex settings)).
    { unfold afterGateway, synchronize, credentialBracket, prepareExistingDirectory, setUp,
        fetchAndCheckout, checkoutResolved, releaseCredential, configureAuthToken,
        removeGitConfig.
      footprint. }
    apply X.
Qed.

(** The gateway is constructed once in a run of [getSource], for the path and
    the [lfs] of the settings, right after the working directory is
    announced. *)
Theorem gateway_constructed_once settings w :
  forall pre p l o post,
    events (getSource env settings w) = pre ++ Ev (CreateCommandManager p l) o :: post ->
    p = repositoryPath settings /\ l = lfs settings /\
    (exists pre', pre = pre' ++ [Core Info (workingDirectoryText settings)]) /\
    forallb (fun e => negb (calls isCreate e)) pre = true /\
    forallb (fun e => negb (calls isCreate e)) post = true.
Proof.
  intros pre p l o post H.
  set (Q := fun e => calls isCreate e).
  assert (HQ : forall e, Q e = true -> fallbackEvent e = false \/ calls isCreate e = true)
    by (intros; right; assumption).
  assert (Qe : Q (Ev (CreateCommandManager p l) o) = true) by reflexivity.
  pose proof (enter_free env Q settings w HQ) as F.
  assert (FA : forall git ex w',
             forallb (fun e => negb (Q e)) (events (afterGateway env git ex settings w')) = true).
  { intros. apply afterGateway_emits; [reflexivity|].
    intros c o' N. unfold Q. cbn. rewrite N. reflexivity. }
  destruct (getSource_cases env settings w)
    as [(e & R & E)|[(ex & m' & w' & R & C & L & E)|[(ex & m' & w' & R & C & L & E)
       |(ex & g & w' & R & C & E)]]];
    cbv zeta in E; rewrite E in H; clear E; cbn [prepend res final events] in *.
  - exfalso. eapply forallb_absent; [exact F | exact Qe | exact H].
  - destruct (skip_free Q _ _ F _ _ _ Qe H) as (pre1 & -> & H1). locate.
    split; [reflexivity|]. split; [reflexivity|]. split; [eexists; reflexivity|].
    split; [|reflexivity]. rewrite forallb_app. change (fun e => negb (calls isCreate e))
      with (fun e => negb (Q e)). rewrite F. reflexivity.
  - rewrite <- app_assoc in H.
    destruct (skip_free Q _ _ F _ _ _ Qe H) as (pre1 & -> & H1). cbn [app] in H1. locate.
    2:{ exfalso. eapply forallb_absent; [apply FA | exact Qe | eassumption]. }
    split; [reflexivity|]. split; [reflexivity|]. split; [eexists; reflexivity|].
    split; [|apply FA]. rewrite forallb_app. change (fun e => negb (calls isCreate e))
      with (fun e => negb (Q e)). rewrite F. reflexivity.
  - rewrite <- app_assoc in H.
    destruct (skip_free Q _ _ F _ _ _ Qe H) as (pre1 & -> & H1). cbn [app] in H1. locate.
    2:{ exfalso. eapply forallb_absent; [apply FA | exact Qe | eassumption]. }
    split; [reflexivity|]. split; [reflexivity|]. split; [eexists; reflexivity|].
    split; [|apply FA]. rewrite forallb_app. change (fun e => negb (calls isCreate e))
      with (fun e => negb (Q e)). rewrite F. reflexivity.
Qed.

End Ways.

(* ===================================================================== *)
(** * How a run ends *)
(* ===================================================================== *)

Section Calm.

Context {W : Type}.

Lemma calm_ret {A} (a : A) : calm (@ret W A a).
Proof. intros w b _. reflexivity. Qed.

Lemma calm_throw {A} e : calm (@throw W A e).
Proof. intros w b H. discriminate. Qed.

Lemma calm_core ch text : calm (@core W ch text).
Proof. intros w b _. reflexivity. Qed.

Lemma calm_call {A} c inj (op : Op W A) : calm (call c inj op).
Proof.
  intros w b. rewrite call_run. destruct (op w) as [[m|a] w']; cbn; [discriminate|reflexivity].
Qed.

Lemma calm_bind {A B} (m : M W A) (f : A -> M W B) :
  calm m -> (forall a, calm (f a)) -> calm (bind m f).
Proof.
  intros Hm Hf w b. rewrite bind_run.
  destruct (res (m w)) as [a|e] eqn:R; cbn [prepend res events]; [|discriminate].
  intros H. rewrite forallb_app, (Hm w a R). exact (Hf a _ _ H).
Qed.

Lemma calm_if {A} (b : bool) (m m' : M W A) : calm m -> calm m' -> calm (if b then m else m').
Proof. destruct b; auto. Qed.

Lemma calm_forEach {A} (l : list A) (f : A -> M W unit) :
  (forall x, calm (f x)) -> calm (forEach l f).
Proof.
  intros H. induction l as [|x l IH]; rewrite ?forEach_nil, ?forEach_cons.
  - apply calm_ret.
  - apply calm_bind; [apply H | intros _; exact IH].
Qed.

End Calm.

Ltac quieten :=
  unfold_calls;
  repeat first
    [ apply calm_ret
    | apply calm_throw
    | apply calm_core
    | apply calm_call
    | apply calm_bind; [|intros ?]
    | apply calm_forEach; intros ?
    | progress cbv beta iota zeta
    | apply calm_if
    | match goal with |- calm (match ?x with _ => _ end) => destruct x end ].

Section Outcomes.

Context {W : Type}.
Variable env : Env W.

(** A run of [getSource] that returns: the directory is entered, the gateway
    is constructed or not, the directory is reconciled when it existed, and
    the repository is downloaded or fetched. *)
Lemma getSource_ok settings w :
  let r := getSource env settings w in
  res r = Ok tt ->
  exists ex w1 git gw,
    let ee := enterDirectory env settings w in
    let p := (if ex : bool
              then prepareExistingDirectory env git (repositoryPath settings)
                     (repositoryUrlOf env settings) (clean settings)
              else ret tt) w1 in
    let x := synchronize env git settings (final p) in
    res ee = Ok ex /\ res p = Ok tt /\ res x = Ok tt /\
    events r = Core Info (syncingText settings) :: events ee ++ gw ++ events p ++ events x /\
    match git with
    | None =>
        lfs settings = false /\
        exists m, gw = [Core Info (workingDirectoryText settings);
                        Ev (CreateCommandManager (repositoryPath settings) false) (Raised m)]
    | Some _ =>
        gw = [Core Info (workingDirectoryText settings);
              Ev (CreateCommandManager (repositoryPath settings) (lfs settings))
                (Returned VGit)]
    end.
Proof.
  cbv zeta. intros Rok.
  destruct (getSource_cases env settings w)
    as [(e & R & E)|[(ex & m' & w' & R & C & L & E)|[(ex & m' & w' & R & C & L & E)
       |(ex & g & w' & R & C & E)]]];
    cbv zeta in E; rewrite E in Rok |- *; clear E; cbn [prepend res final events] in *;
    try discriminate.
  - exists ex, w', None. eexists.
    unfold afterGateway in *. rewrite bind_run in Rok |- *.
    destruct (res ((if ex
                    then prepareExistingDirectory env None (repositoryPath settings)
                           (repositoryUrlOf env settings) (clean settings)
                    else ret tt) w')) as [[]|e] eqn:Rp;
      cbn [prepend res final events] in *; [|discriminate].
    split; [exact R|]. split; [reflexivity|]. split; [exact Rok|].
    split; [|split; [exact L|exists m'; rewrite <- L; reflexivity]].
    cbn [app]. rewrite <- !app_assoc. reflexivity.
  - exists ex, w', (Some g). eexists.
    unfold afterGateway in *. rewrite bind_run in Rok |- *.
    destruct (res ((if ex
                    then prepareExistingDirectory env (Some g) (repositoryPath settings)
                           (repositoryUrlOf env settings) (clean settings)
                    else ret tt) w')) as [[]|e] eqn:Rp;
      cbn [prepend res final events] in *; [|discriminate].
    split; [exact R|]. split; [reflexivity|]. split; [exact Rok|].
    split; [|reflexivity].
    cbn [app]. rewrite <- !app_assoc. reflexivity.
Qed.

Lemma synchronize_ok (g : IGitCommandManager W) settings w :
  let x := synchronize env (Some g) settings w in
  res x = Ok tt ->
  let s := setUp env g settings w in
  let b := fetchAndCheckout env g settings (final s) in
  let f := releaseCredential g settings (final b) in
  res s = Ok tt /\ res b = Ok tt /\ res f = Ok tt /\
  events x = events s ++ events b ++ events f.
Proof.
  cbv zeta. unfold synchronize. rewrite bind_run.
  destruct (res (setUp env g settings w)) as [[]|e] eqn:Rs;
    cbn [prepend res final events]; [|discriminate].
  destruct (bracket_run env g settings (final (setUp env g settings w))) as (E1 & E2 & E3).
  cbv zeta in E1, E2, E3. rewrite E1, E3.
  destruct (res (releaseCredential g settings
                   (final (fetchAndCheckout env g settings (final (setUp env g settings w))))))
    as [[]|e]; [|discriminate].
  intros Rb. repeat split. exact Rb.
Qed.

(** The body of the [try] when it returns: the credential is configured, and
    the refspec, the fetch, the resolution, the checkout and the log follow,
    with the two LFS calls when [lfs] is set. *)
Lemma fetchAndCheckout_ok (g : IGitCommandManager W) settings w :
  let b := fetchAndCheckout env g settings w in
  res b = Ok tt ->
  exists cfg install spec info prefetch,
    events b
    = cfg ++ install
      ++ [Ev (GetRefSpec (ref settings) (commit settings)) (Returned (VStrings spec));
          Ev (Fetch (fetchDepth settings) spec) (Returned VUnit);
          Ev (GetCheckoutInfo (ref settings) (commit settings))
            (Returned (VCheckoutInfo info))]
      ++ prefetch
      ++ [Ev (Checkout (ICheckoutInfo.ref info) (ICheckoutInfo.startPoint info))
            (Returned VUnit);
          Ev Log1 (Returned VUnit)] /\
    cfg = events (configureAuthToken env g (authToken settings) w) /\
    res (configureAuthToken env g (authToken settings) w) = Ok tt /\
    install = (if lfs settings then [Ev LfsInstall (Returned VUnit)] else []) /\
    prefetch = (if lfs settings
                then [Ev (LfsFetch (JS_or (ICheckoutInfo.startPoint info)
                                          (ICheckoutInfo.ref info))) (Returned VUnit)]
                else []).
Proof.
  cbv zeta. unfold fetchAndCheckout. rewrite bind_run.
  destruct (res (configureAuthToken env g (authToken settings) w)) as [[]|e] eqn:Rc;
    cbn [prepend res final events]; [|discriminate].
  unfold checkoutResolved. unfold_calls.
  destruct (lfs settings); walk; try discriminate; intros _;
    repeat match goal with u : unit |- _ => destruct u end;
    eexists _, _, _, _, _; (split; [|split; [reflexivity|split; [reflexivity|split; reflexivity]]]);
    cbn [app]; reflexivity.
Qed.

(** Finding an event in a list that is given by its parts. *)
Ltac spot :=
  lazymatch goal with
  | |- _ = _ => reflexivity
  | |- _ \/ _ => first [left; spot | right; spot]
  | |- In _ (_ :: _) => first [apply in_eq | apply in_cons; spot]
  | |- In _ (_ ++ _) => apply in_or_app; first [left; spot | right; spot]
  end.

(** A run of [getSource] that returns has synchronised the directory in one
    of its two ways: its last call is a download that returned, or the path
    was recorded, the fetch was made with the depth of the settings, the
    checkout target was resolved and checked out, and the commit was logged,
    each of these calls having returned. *)
Theorem returned_run_has_synchronised settings w :
  let r := getSource env settings w in
  res r = Ok tt ->
  (exists pre, events r = pre ++ [Ev (downloadCall settings) (Returned VUnit)]) \/
  (exists spec info,
      In (Ev (SetRepositoryPath (repositoryPath settings)) (Returned VUnit)) (events r) /\
      In (Ev (Fetch (fetchDepth settings) spec) (Returned VUnit)) (events r) /\
      In (Ev (GetCheckoutInfo (ref settings) (commit settings))
            (Returned (VCheckoutInfo info))) (events r) /\
      In (Ev (Checkout (ICheckoutInfo.ref info) (ICheckoutInfo.startPoint info))
            (Returned VUnit)) (events r) /\
      In (Ev Log1 (Returned VUnit)) (events r)).
Proof.
  cbv zeta. intros Rok.
  destruct (getSource_ok settings w Rok) as (ex & w1 & git & gw & Re & Rp & Rx & E & _).
  cbv zeta in Re, Rp, Rx, E. rewrite E. clear E.
  destruct git as [g|].
  - right.
    destruct (synchronize_ok g settings _ Rx) as (Rs & Rb & Rf & ->).
    destruct (fetchAndCheckout_ok g settings _ Rb)
      as (cfg & install & spec & info & prefetch & -> & _).
    destruct (setUp_records env g settings _ Rs) as (rest & ->).
    exists spec, info.
    repeat match goal with
           | |- context [events ?x] => generalize (events x); intro
           end.
    clear. repeat split.
    all: cbn [In]; right. all: rewrite !in_app_iff.
    all: spot.
  - left. unfold synchronize in *.
    destruct (downloadFallback_run env settings
                (final ((if ex
                         then prepareExistingDirectory env None (repositoryPath settings)
                                (repositoryUrlOf env settings) (clean settings)
                         else ret tt) w1)))
      as (t1 & t2 & o & -> & [(-> & _)|(m & _ & X)]); [|congruence].
    repeat match goal with
           | |- context [events ?x] => generalize (events x); intro
           end.
    clear. intros. exists (Core Info (syncingText settings) :: l ++ gw ++ l0
                           ++ [Core Info t1; Core Info t2]).
    cbn [app]. rewrite <- !app_assoc. reflexivity.
Qed.

Lemma quiet_no_rejection l c m :
  forallb quiet l = true -> ~ In (Ev c (Raised m)) l.
Proof.
  intros F I. rewrite forallb_forall in F. specialize (F _ I). discriminate.
Qed.

Lemma lockEvent_rejection path l c m :
  forallb (lockEvent env path) l = true ->
  In (Ev c (Raised m)) l ->
  exists p, c = RmRF p /\ In p (lockPaths env path).
Proof.
  intros F I. rewrite forallb_forall in F. specialize (F _ I).
  destruct c; try discriminate. cbn [lockEvent] in F.
  apply existsb_exists in F. destruct F as (q & Iq & E). apply String.eqb_eq in E. subst q.
  eauto.
Qed.

Lemma pruneEvent_call l c o :
  forallb pruneEvent l = true -> In (Ev c o) l -> reuseCall c = true.
Proof.
  intros F I. rewrite forallb_forall in F. specialize (F _ I).
  unfold pruneEvent in F. apply andb_true_iff in F. destruct F as [F _]. exact F.
Qed.

(** The rejections in a reconciliation that returns: those of the deletion of
    a lock file and of the reuse attempt, which are caught. *)
Lemma prepare_ok_rejections git path url clean w :
  let r := prepareExistingDirectory env git path url clean w in
  res r = Ok tt ->
  forall c m,
    In (Ev c (Raised m)) (events r) ->
    reuseCall c = true \/ exists p, c = RmRF p /\ In p (lockPaths env path).
Proof.
  cbv zeta.
  assert (Cl : calm (clearDirectory env true path)).
  { unfold clearDirectory. quieten. }
  destruct git as [g|].
  2:{ rewrite prepare_parts. unfold prepareByParts, decideRemoval. rewrite bind_ret.
      intros R c m I. destruct (quiet_no_rejection _ _ _ (Cl w tt R) I). }
  destruct (prepare_cases env g path url clean w)
    as [(m' & E & R)|[(w' & E)|[(m' & E & R)|[(u & w' & N & E)|(w' & E)]]]];
    try (rewrite R; discriminate); rewrite E; clear E; cbn [prepend res events app].
  - intros R c m [I|I]; [discriminate|].
    destruct (quiet_no_rejection _ _ _ (Cl w' tt R) I).
  - intros R c m [I|[I|I]]; try discriminate.
    destruct (quiet_no_rejection _ _ _ (Cl w' tt R) I).
  - destruct (reconcile_events env g path clean w') as (locks & d & tail & E & Hl & Hp & Hc).
    cbv zeta in E, Hc. rewrite E. clear E.
    intros R c m [I|[I|I]]; try discriminate.
    rewrite !in_app_iff in I. destruct I as [I|[I|I]].
    { right. exact (lockEvent_rejection _ _ _ _ Hl I). }
    { left. exact (pruneEvent_call _ _ _ Hp I). }
    destruct Hc as [(dpre & c' & m' & w'' & _ & _ & -> & Rc)|(_ & _ & Hc)].
    + rewrite Rc in R. destruct I as [I|I]; [discriminate|].
      destruct (quiet_no_rejection _ _ _ (Cl w'' tt R) I).
    + destruct Hc as [(_ & -> & _)|[(_ & -> & _)|(_ & w'' & head & -> & Rc & Hh)]].
      * destruct I.
      * destruct I as [I|[I|[]]]; discriminate.
      * rewrite Rc in R. rewrite in_app_iff in I. destruct I as [I|I].
        2:{ destruct (quiet_no_rejection _ _ _ (Cl w'' tt R) I). }
        left.
        destruct Hh as [(m' & ->) | [ -> | [(m' & ->) | -> ]]]; cbn [In] in I;
          repeat match goal with
                 | H : _ \/ _ |- _ => destruct H as [H|H]
                 | H : False |- _ => destruct H
                 | H : Ev _ _ = Ev _ _ |- _ => inversion H; clear H; subst
                 | H : Core _ _ = Ev _ _ |- _ => discriminate H
                 end; reflexivity.
Qed.

(** In a run of [getSource] that returns, the only calls that were rejected
    are the ones the file guards: the construction of the gateway in a run
    without [lfs], the deletion of the two lock files, and the operations of
    the reuse attempt.  No other failure is passed over in silence. *)
Theorem returned_run_guards_its_rejections settings w :
  let r := getSource env settings w in
  res r = Ok tt ->
  forall c m,
    In (Ev c (Raised m)) (events r) ->
    (c = CreateCommandManager (repositoryPath settings) false /\ lfs settings = false) \/
    reuseCall c = true \/
    exists p, c = RmRF p /\ In p (lockPaths env (repositoryPath settings)).
Proof.
  cbv zeta. intros Rok c m I.
  destruct (getSource_ok settings w Rok) as (ex & w1 & git & gw & Re & Rp & Rx & E & Hg).
  cbv zeta in Re, Rp, Rx, E, Hg. rewrite E in I. clear E.
  assert (Ce : calm (enterDirectory env settings)) by (unfold enterDirectory; quieten).
  destruct I as [I|I]; [discriminate|].
  rewrite !in_app_iff in I. destruct I as [I|[I|[I|I]]].
  - destruct (quiet_no_rejection _ _ _ (Ce w ex Re) I).
  - destruct git as [g|].
    + subst gw. destruct I as [I|[I|[]]]; discriminate.
    + destruct Hg as (L & m' & ->). destruct I as [I|[I|[]]]; [discriminate|].
      inversion I; subst. left. auto.
  - right. destruct ex.
    + exact (prepare_ok_rejections _ _ _ _ _ Rp c m I).
    + destruct I.
  - exfalso. destruct git as [g|].
    + destruct (synchronize_ok g settings _ Rx) as (Rs & Rb & Rf & X).
      rewrite X in I. clear X.
      assert (Cs : calm (setUp env g settings)) by (unfold setUp, removeGitConfig; quieten).
      assert (Cb : calm (fetchAndCheckout env g settings)).
      { unfold fetchAndCheckout, checkoutResolved, configureAuthToken. quieten. }
      assert (Cf : calm (releaseCredential g settings)).
      { unfold releaseCredential, removeGitConfig. quieten. }
      rewrite !in_app_iff in I. destruct I as [I|[I|I]].
      * exact (quiet_no_rejection _ _ _ (Cs _ _ Rs) I).
      * exact (quiet_no_rejection _ _ _ (Cb _ _ Rb) I).
      * exact (quiet_no_rejection _ _ _ (Cf _ _ Rf) I).
    + assert (Cd : calm (downloadFallback env settings)).
      { unfold downloadFallback. quieten. }
      exact (quiet_no_rejection _ _ _ (Cd _ _ Rx) I).
Qed.

(** How [configureAuthToken] fails: by the rejection of its last call, or by
    its own error, right after it has read a content in which the placeholder
    does not occur once. *)
Lemma configureAuthToken_error (g : IGitCommandManager W) token w e :
  let x := configureAuthToken env g token w in
  res x = Err e ->
  (e = placeholderError /\
   exists pre p content,
     events x = pre ++ [Ev (ReadFile p) (Returned (VString content))] /\
     JS.occurrences placeholder content <> 1) \/
  (exists pre c m,
      events x = pre ++ [Ev c (Raised m)] /\ e = Rejected m /\ reuseCall c = false).
Proof.
  cbv zeta. unfold configureAuthToken. unfold_calls.
  rewrite bind_call. answer; tidy.
  { intros X; inversion X; subst. right. exists [], (Config authConfigKey placeholder), m.
    repeat split. }
  rewrite bind_core, bind_call. tidy. answer; tidy.
  { intros X; inversion X; subst. right. eexists [_; _], _, m. repeat split. }
  match goal with
  | |- context [if ?c then _ else _] => destruct c eqn:C
  end; tidy.
  - intros X; inversion X; subst. left. split; [reflexivity|].
    apply JSFacts.ambiguous_iff in C. eexists [_; _], _, a0. split; [reflexivity | exact C].
  - rewrite call_run. answer; tidy; intros X; inversion X; subst.
    right. eexists [_; _; _], _, m. repeat split.
Qed.

Lemma fetchAndCheckout_error (g : IGitCommandManager W) settings w e :
  let b := fetchAndCheckout env g settings w in
  res b = Err e ->
  (e = placeholderError /\
   exists pre p content,
     events b = pre ++ [Ev (ReadFile p) (Returned (VString content))] /\
     JS.occurrences placeholder content <> 1) \/
  (exists pre c m,
      events b = pre ++ [Ev c (Raised m)] /\ e = Rejected m /\ reuseCall c = false).
Proof.
  cbv zeta. unfold fetchAndCheckout. rewrite bind_run.
  destruct (res (configureAuthToken env g (authToken settings) w)) as [[]|e'] eqn:Rc;
    cbn [prepend res final events].
  - match goal with
    | |- res (?k ?w') = _ -> _ =>
        assert (B : blames (fun c => negb (reuseCall c)) k)
    end.
    { unfold checkoutResolved. blame. }
    intros R. destruct (B _ _ R) as (pre & c & m & E1 & E2 & E3).
    right. exists (events (configureAuthToken env g (authToken settings) w) ++ pre), c, m.
    rewrite E1, app_assoc. apply negb_true_iff in E3. auto.
  - intros X; inversion X; subst. exact (configureAuthToken_error g _ w e Rc).
Qed.

(** How [getSource] fails.  The error is the rejection of a call that the
    file does not guard, or the error of [configureAuthToken] on a
    configuration in which the placeholder does not occur once; and nothing
    follows the failure but the removal of the credential. *)
Theorem failure_is_a_rejection_or_the_placeholder settings w :
  let r := getSource env settings w in
  forall e,
    res r = Err e ->
    exists pre last post,
      events r = pre ++ last :: post /\
      forallb removalEvent post = true /\
      ((e = placeholderError /\
        exists p content,
          last = Ev (ReadFile p) (Returned (VString content)) /\
          JS.occurrences placeholder content <> 1) \/
       (exists c m, last = Ev c (Raised m) /\ e = Rejected m /\ reuseCall c = false)).
Proof.
  cbv zeta. intros e.
  assert (K : forall lead A (x : Run W A),
             (exists pre c m,
                 events x = pre ++ [Ev c (Raised m)] /\ e = Rejected m /\ reuseCall c = false) ->
             exists pre last post,
               lead ++ events x = pre ++ last :: post /\
               forallb removalEvent post = true /\
               ((e = placeholderError /\
                 exists p content,
                   last = Ev (ReadFile p) (Returned (VString content)) /\
                   JS.occurrences placeholder content <> 1) \/
                (exists c m, last = Ev c (Raised m) /\ e = Rejected m /\ reuseCall c = false))).
  { intros lead A x (pre & c & m & -> & -> & N).
    exists (lead ++ pre), (Ev c (Raised m)), []. split; [rewrite app_assoc; reflexivity|].
    split; [reflexivity|]. right. eauto. }
  assert (Be : blames (fun c => negb (reuseCall c)) (enterDirectory env settings))
    by (unfold enterDirectory; blame).
  destruct (getSource_cases env settings w)
    as [(e0 & R & E)|[(ex & m' & w' & R & C & L & E)|[(ex & m' & w' & R & C & L & E)
       |(ex & g & w' & R & C & E)]]];
    cbv zeta in E; rewrite E; clear E; cbn [prepend res final events].
  - intros X; inversion X; subst.
    destruct (Be _ _ R) as (pre & c & m & E1 & E2 & E3). apply negb_true_iff in E3.
    apply (K [Core Info (syncingText settings)] _ (enterDirectory env settings w)).
    eauto 6.
  - intros X; inversion X; subst.
    eexists (_ :: _ ++ [_]), _, []. split; [cbn [app]; rewrite <- app_assoc; reflexivity|].
    split; [reflexivity|]. right. eexists _, _. repeat split.
  - intros X.
    assert (B : blames (fun c => negb (reuseCall c)) (afterGateway env None ex settings)).
    { unfold afterGateway, synchronize, downloadFallback, prepareExistingDirectory. blame. }
    destruct (B _ _ X) as (pre & c & m & E1 & E2 & E3). apply negb_true_iff in E3.
    apply (K _ _ (afterGateway env None ex settings w')). eauto 6.
  - unfold afterGateway, synchronize. rewrite bind_run.
    set (lead := (Core Info (syncingText settings) :: events (enterDirectory env settings w))
                 ++ [Core Info (workingDirectoryText settings);
                     Ev (CreateCommandManager (repositoryPath settings) (lfs settings))
                       (Returned VGit)]).
    set (p := (if ex
               then prepareExistingDirectory env (Some g) (repositoryPath settings)
                      (repositoryUrlOf env settings) (clean settings)
               else ret tt) w').
    assert (Bp : forall e', res p = Err e' ->
                   exists pre c m, events p = pre ++ [Ev c (Raised m)] /\ e' = Rejected m /\
                                   reuseCall c = false).
    { subst p. destruct ex.
      - intros e' X. destruct (prepare_blames env g _ _ _ _ _ X) as (pre & c & m & E1 & E2 & E3).
        apply negb_true_iff in E3. eauto 6.
      - discriminate. }
    destruct (res p) as [[]|e0] eqn:Rp; cbn [prepend res final events].
    2:{ intros X; inversion X; subst. apply (K lead _ p). apply Bp. reflexivity. }
    rewrite bind_run.
    set (s := setUp env g settings (final p)).
    assert (Bs : blames (fun c => negb (reuseCall c)) (setUp env g settings))
      by (unfold setUp, removeGitConfig; blame).
    destruct (res s) as [[]|e0] eqn:Rs; cbn [prepend res final events].
    2:{ intros X; inversion X; subst.
        destruct (Bs _ _ Rs) as (pre & c & m & E1 & E2 & E3). apply negb_true_iff in E3.
        rewrite (app_assoc lead). apply (K (lead ++ events p) _ s). eauto 6. }
    destruct (bracket_run env g settings (final s)) as (E1 & _ & E3). cbv zeta in E1, E3.
    rewrite E1, E3. clear E1 E3.
    set (b := fetchAndCheckout env g settings (final s)).
    set (f := releaseCredential g settings (final b)).
    assert (Bf : blames (fun c => negb (reuseCall c)) (releaseCredential g settings))
      by (unfold releaseCredential, removeGitConfig; blame).
    assert (Ff : emits removalEvent (releaseCredential g settings))
      by (unfold releaseCredential, removeGitConfig; footprint).
    destruct (res f) as [[]|e0] eqn:Rf.
    + intros X.
      destruct (fetchAndCheckout_error g settings (final s) e X)
        as [(-> & pre & q & content & E1 & O)|(pre & c & m & E1 & -> & N)]; fold b in E1;
        rewrite E1.
      * exists (lead ++ events p ++ events s ++ pre),
          (Ev (ReadFile q) (Returned (VString content))), (events f).
        split; [rewrite <- !app_assoc; reflexivity|].
        split; [apply Ff|]. left. split; [reflexivity|]. eauto.
      * exists (lead ++ events p ++ events s ++ pre), (Ev c (Raised m)), (events f).
        split; [rewrite <- !app_assoc; reflexivity|].
        split; [apply Ff|]. right. eauto.
    + intros X; inversion X; subst.
      destruct (Bf _ _ Rf) as (pre & c & m & E1 & E2 & E3). apply negb_true_iff in E3.
      rewrite !app_assoc. apply (K _ _ f). eauto 6.
Qed.

(** What [cleanup] leaves.  Given a configuration whose probe tells the truth
    and in which an entry that git has unset is gone, a [cleanup] that has
    constructed the gateway and returns leaves no entry under
    [authConfigKey], unless git has answered that it could not unset it, which
    the warning reports. *)
Theorem cleanup_leaves_no_credential (hasEntry : W -> bool) path w :
  (forall w0 g w1,
      createCommandManager env path false w0 = (inr g, w1) ->
      (forall wa b wb, configExists g authConfigKey wa = (inr b, wb) -> hasEntry wb = b) /\
      (forall wa wb, tryConfigUnset g authConfigKey wa = (inr true, wb) ->
                     hasEntry wb = false)) ->
  let r := cleanup env path w in
  forall pre post,
    events r = pre ++ Ev (CreateCommandManager path false) (Returned VGit) :: post ->
    res r = Ok tt ->
    hasEntry (final r) = true ->
    post = [Ev (ConfigExists authConfigKey) (Returned (VBool true));
            Ev (TryConfigUnset authConfigKey) (Returned (VBool false));
            Core Warning removalWarning].
Proof.
  cbv zeta. intros K pre post. unfold cleanup.
  destruct (String.eqb path EmptyString).
  { rewrite ret_run. cbn [events]. intros H. destruct pre; discriminate H. }
  unfold_calls. rewrite bind_call. answer; tidy.
  { intros H. locate. }
  destruct a; cbn [negb]; cbv iota.
  2:{ rewrite ret_run. cbn [prepend events app]. intros H. locate. }
  rewrite attempt_run. answer; tidy.
  { intros H. locate. }
  destruct (K _ _ _ E0) as [K1 K2].
  destruct (removeGitConfig_cases a w1)
    as [(m & wa & X & ->)|[(wa & X & ->)|[(wa & m & wb & X & Y & ->)
       |[(wa & wb & X & Y & ->)|(wa & wb & X & Y & ->)]]]];
    cbn [res final events app]; intros H R T; try discriminate R.
  - rewrite (K1 _ _ _ X) in T. discriminate.
  - rewrite (K2 _ _ Y) in T. discriminate.
  - locate. reflexivity.
Qed.

End Outcomes.

Section MoreReconcilerFacts.

Context {W : Type}.
Variable env : Env W.

(** [cleanup] touches nothing but the credential: it probes the
    configuration file of the path, constructs the gateway without LFS, and
    probes and unsets [authConfigKey]; it lists, deletes and writes
    nothing. *)
Theorem cleanup_touches_only_the_credential path w :
  forallb (cleanupEvent env path) (events (cleanup env path w)) = true.
Proof.
  revert w. change (emits (cleanupEvent env path) (cleanup env path)).
  unfold cleanup, removeGitConfig, path_join. unfold_calls.
  repeat first
    [ apply emits_ret
    | apply emits_core; apply String.eqb_refl
    | apply emits_call; intros ?; cbn [cleanupEvent negb];
      rewrite ?String.eqb_refl; reflexivity
    | apply emits_bind; [|intros ?]
    | apply emits_tryCatch; [|intros ?]
    | apply emits_if
    | match goal with |- emits _ (match ?x with _ => _ end) => destruct x end ].
Qed.

Lemma deleteLocks_shape path w :
  exists l1 l2,
    events (deleteLocks env path w) = l1 ++ l2 /\
    lockAttempt (path_join env [path; ".git"; "index.lock"]%string) l1 /\
    lockAttempt (path_join env [path; ".git"; "shallow.lock"]%string) l2.
Proof.
  unfold deleteLocks, lockPaths, io_rmRF, core_debug.
  rewrite !forEach_cons, forEach_nil.
  rewrite bind_run, tryCatch_run, call_run.
  destruct (rmRF env (path_join env [path; ".git"; "index.lock"]%string) w)
    as [[m1|[]] w1]; tidy;
    rewrite bind_run, tryCatch_run, call_run;
    match goal with
    | |- context [rmRF env ?p ?w2] => destruct (rmRF env p w2) as [[m2|[]] w3]
    end; tidy;
    first
      [ solve [ eexists [_], _; (split; [reflexivity|]); split;
                first [left; reflexivity | right; eexists; reflexivity] ]
      | solve [ eexists [_; _], _; (split; [reflexivity|]); split;
                first [left; reflexivity | right; eexists; reflexivity] ] ].
Qed.

Lemma attempt_starts (g : IGitCommandManager W) path clean w :
  let t := tryCatch (reuse g path clean)
             (fun _ => bind (core_warning prepareFailedWarning) (fun _ => ret true)) w in
  (exists a, res t = Ok a) /\ exists o rest, events t = Ev IsDetached o :: rest.
Proof.
  cbv zeta. rewrite tryCatch_run.
  unfold reuse, detachAndPrune, git_isDetached, core_warning. rewrite bind_call.
  destruct (isDetached g w) as [[m|d] w3]; cbn [res events prepend app final].
  - rewrite bind_core. tidy. split; [eexists; reflexivity | eexists _, _; reflexivity].
  - match goal with
    | |- context [match res ?x with _ => _ end] => destruct (res x) eqn:R
    end; cbn [prepend res events app]; try rewrite bind_core; tidy; rewrite ?R;
      (split; [eexists; reflexivity | eexists _, _; reflexivity]).
Qed.

(** The two lock files are deleted on a best effort, one after the other and
    whatever happens to the first, before the reuse of the repository is
    attempted: the failure to delete one is reported for debugging only. *)
Theorem lock_files_deleted_best_effort (g : IGitCommandManager W) path url clean w :
  let r := prepareExistingDirectory env (Some g) path url clean w in
  forall rest,
    events r = Ev (DirectoryExistsSync (path_join env [path; ".git"%string]))
                 (Returned (VBool true))
               :: Ev TryGetFetchUrl (Returned (VString url)) :: rest ->
    exists l1 l2 o rest',
      rest = l1 ++ l2 ++ Ev IsDetached o :: rest' /\
      lockAttempt (path_join env [path; ".git"; "index.lock"]%string) l1 /\
      lockAttempt (path_join env [path; ".git"; "shallow.lock"]%string) l2.
Proof.
  cbv zeta. intros rest H.
  destruct (prepare_cases env g path url clean w)
    as [(m' & E & _)|[(w' & E)|[(m' & E & _)|[(u & w' & N & E)|(w' & E)]]]];
    rewrite E in H; clear E; cbn [prepend events app] in H; try discriminate H.
  { inversion H. congruence. }
  apply cons_eq_inv in H. destruct H as [_ H].
  apply cons_eq_inv in H. destruct H as [_ H]. subst rest.
  unfold reconcile. rewrite bind_assoc, bind_run, deleteLocks_ok.
  destruct (deleteLocks_shape path w') as (l1 & l2 & -> & L1 & L2).
  cbn [prepend events]. rewrite bind_run.
  match goal with
  | |- context [tryCatch (reuse g path clean) ?h ?w2] =>
      destruct (attempt_starts g path clean w2) as ((a & Ra) & o & tl & Et)
  end.
  cbv zeta in Ra, Et. rewrite Ra. cbn [prepend events]. rewrite Et.
  exists l1, l2, o. eexists. rewrite <- app_assoc. cbn [app].
  split; [reflexivity|]. split; assumption.
Qed.

(** With [clean], a repository whose recorded URL is the expected one is
    kept when nothing goes wrong: as long as no operation of the reuse
    attempt raises and neither the clean nor the reset answers no, the call
    returns after the lock files, the pruning, a clean and a reset, and the
    entries of the directory are neither listed nor removed. *)
Theorem clean_reuse_keeps_the_directory (g : IGitCommandManager W) path url w :
  let r := prepareExistingDirectory env (Some g) path url true w in
  forall lead,
    events r = Ev (DirectoryExistsSync (path_join env [path; ".git"%string]))
                 (Returned (VBool true))
               :: Ev TryGetFetchUrl (Returned (VString url)) :: lead ->
    forallb (fun e => negb (reuseRejected e) && negb (cleanRefused e)) lead = true ->
    res r = Ok tt /\
    exists locks detached locals remotes,
      forallb (lockEvent env path) locks = true /\
      lead = locks ++ pruned detached locals remotes
             ++ [Ev TryClean (Returned (VBool true)); Ev TryReset (Returned (VBool true))].
Proof.
  cbv zeta. intros lead H F.
  destruct (prepare_cases env g path url true w)
    as [(m' & E & _)|[(w' & E)|[(m' & E & _)|[(u & w' & N & E)|(w' & E)]]]];
    try (rewrite E in H; discriminate H);
    rewrite E in H |- *; clear E; tidy.
  { inversion H. congruence. }
  apply cons_eq_inv in H. destruct H as [_ H].
  apply cons_eq_inv in H. destruct H as [_ H]. subst lead.
  destruct (reconcile_events env g path true w') as (locks & d & tail & E & Hl & Hp & Hc).
  cbv zeta in E, Hc. rewrite E in F |- *. clear E.
  rewrite !forallb_app in F. apply andb_true_iff in F. destruct F as [_ F].
  apply andb_true_iff in F. destruct F as [Fd Ft].
  destruct Hc as [(dpre & c & m & w'' & -> & _ & _ & _)|(_ & Hk & Hc)].
  - exfalso. rewrite forallb_app in Fd, Hp. cbn [forallb] in Fd, Hp.
    apply andb_true_iff in Fd. destruct Fd as [_ Fd].
    apply andb_true_iff in Hp. destruct Hp as [_ Hp].
    unfold pruneEvent in Hp. unfold reuseRejected in Fd. cbn in Fd, Hp.
    destruct (reuseCall c); cbn in *; discriminate.
  - destruct Hk as (dd & locals & remotes & ->).
    destruct Hc as [(C & _)|[(_ & -> & R)|(_ & w'' & head & -> & _ & Hh)]].
    + discriminate.
    + split; [exact R|]. exists locks, dd, locals, remotes. auto.
    + exfalso. rewrite forallb_app in Ft. apply andb_true_iff in Ft. destruct Ft as [Ft _].
      destruct Hh as [(m' & ->) | [ -> | [(m' & ->) | -> ]]]; cbn in Ft; discriminate.
Qed.

Lemma deletion_targets path names evs r p o :
  deletion (join env) path names evs r ->
  In (Ev (RmRF p) o) evs ->
  exists name, In name names /\ p = join env [path; name].
Proof.
  revert evs. induction names as [|name names IH]; intros evs D I; cbn [deletion] in D.
  - destruct D as [-> _]. destruct I.
  - destruct D as (o' & evs' & -> & D). destruct I as [I|I].
    + inversion I; subst. exists name. split; [left; reflexivity | reflexivity].
    + destruct o' as [v|m].
      * destruct (IH _ D I) as (n & In' & ->). exists n. split; [right; exact In' | reflexivity].
      * destruct D as [-> _]. destruct I.
Qed.

Lemma clearDirectory_targets path w p o :
  In (Ev (RmRF p) o) (events (clearDirectory env true path w)) ->
  exists names name,
    In (Ev (Readdir path) (Returned (VStrings names))) (events (clearDirectory env true path w)) /\
    In name names /\ p = path_join env [path; name].
Proof.
  destruct (clearDirectory_run env path w) as (o' & evs & E & D). cbv zeta in E, D.
  rewrite E. intros [I|[I|I]]; try discriminate.
  destruct o' as [[| | |names| |]|m]; try destruct D.
  - destruct (deletion_targets _ _ _ _ _ _ D I) as (name & In' & ->).
    exists names, name. split; [right; left; reflexivity|]. split; [exact In' | reflexivity].
  - subst evs. destruct I.
Qed.

(** An event of the last part of a list is an event of the list. *)
Ltac last_part H :=
  solve [ exact H
        | apply in_cons; last_part H
        | apply in_or_app; right; last_part H ].

(** [prepareExistingDirectory] deletes nothing but the two lock files and
    entries of the path that it has listed. *)
Lemma prepare_deletes_only git path url clean w :
  let r := prepareExistingDirectory env git path url clean w in
  forall p o,
    In (Ev (RmRF p) o) (events r) ->
    In p (lockPaths env path) \/
    exists names name,
      In (Ev (Readdir path) (Returned (VStrings names))) (events r) /\
      In name names /\ p = path_join env [path; name].
Proof.
  cbv zeta. intros p o.
  assert (K : forall all w',
             (forall e, In e (events (clearDirectory env true path w')) -> In e all) ->
             In (Ev (RmRF p) o) (events (clearDirectory env true path w')) ->
             exists names name,
               In (Ev (Readdir path) (Returned (VStrings names))) all /\
               In name names /\ p = path_join env [path; name]).
  { intros all w' Sub I.
    destruct (clearDirectory_targets _ _ _ _ I) as (names & name & I1 & I2).
    exists names, name. split; [apply Sub; exact I1 | exact I2]. }
  destruct git as [g|].
  2:{ rewrite prepare_parts. unfold prepareByParts, decideRemoval. rewrite bind_ret.
      intros I. right. apply (K _ w); [auto | exact I]. }
  destruct (prepare_cases env g path url clean w)
    as [(m' & E & R)|[(w' & E)|[(m' & E & R)|[(u & w' & N & E)|(w' & E)]]]];
    rewrite E; clear E; cbn [prepend res events].
  - intros [I|[]]; discriminate.
  - intros I. apply in_app_or in I. destruct I as [[I|[]]|I]; [discriminate|].
    right. apply (K _ w'); [intros e Ie; last_part Ie | exact I].
  - intros [I|[I|[]]]; discriminate.
  - intros I. apply in_app_or in I. destruct I as [[I|[I|[]]]|I]; try discriminate.
    right. apply (K _ w'); [intros e Ie; last_part Ie | exact I].
  - destruct (reconcile_events env g path clean w') as (locks & d & tail & E & Hl & Hp & Hc).
    cbv zeta in E, Hc. rewrite E. clear E.
    intros I. apply in_app_or in I. destruct I as [[I|[I|[]]]|I]; try discriminate.
    rewrite !in_app_iff in I. destruct I as [I|[I|I]].
    { left. rewrite forallb_forall in Hl. specialize (Hl _ I). cbn [lockEvent] in Hl.
      apply existsb_exists in Hl. destruct Hl as (q & Iq & Eq).
      apply String.eqb_eq in Eq. subst q. exact Iq. }
    { exfalso. rewrite forallb_forall in Hp. specialize (Hp _ I). discriminate. }
    right.
    destruct Hc as [(dpre & c' & m' & w'' & _ & _ & -> & _)|(_ & _ & Hc)].
    + destruct I as [I|I]; [discriminate|].
      apply (K _ w''); [intros e Ie; last_part Ie | exact I].
    + destruct Hc as [(_ & -> & _)|[(_ & -> & _)|(_ & w'' & head & -> & _ & Hh)]].
      * destruct I.
      * destruct I as [I|[I|[]]]; discriminate.
      * apply in_app_or in I. destruct I as [I|I].
        { exfalso.
          destruct Hh as [(m' & ->) | [ -> | [(m' & ->) | -> ]]]; cbn [In] in I;
            repeat match goal with
                   | H : _ \/ _ |- _ => destruct H as [H|H]
                   | H : False |- _ => destruct H
                   end; discriminate. }
        apply (K _ w''); [intros e Ie; last_part Ie | exact I].
Qed.

(** [getSource] deletes nothing but the file that stands where the directory
    should be, the two lock files, and entries of the directory that it has
    listed: every [rmRF] is on the path itself, on a lock file, or on an
    entry of a listing that [readdir] of the path has returned. *)
Theorem only_listed_entries_are_deleted settings w :
  let r := getSource env settings w in
  let path := repositoryPath settings in
  forall p o,
    In (Ev (RmRF p) o) (events r) ->
    p = path \/
    In p (lockPaths env path) \/
    exists names name,
      In (Ev (Readdir path) (Returned (VStrings names))) (events r) /\
      In name names /\ p = path_join env [path; name].
Proof.
  cbv zeta. intros p o.
  set (P := fun e => match e with
                     | Ev (RmRF q) _ => String.eqb q (repositoryPath settings)
                     | _ => true
                     end).
  assert (Ge : emits P (enterDirectory env settings)).
  { unfold enterDirectory. unfold_calls.
    repeat first
      [ apply emits_ret
      | apply emits_call; intros ?; cbn [P]; rewrite ?String.eqb_refl; reflexivity
      | apply emits_bind; [|intros ?]
      | apply emits_if ]. }
  assert (Le : forall w0 l,
             In (Ev (RmRF p) o)
                ((Core Info (syncingText settings) :: events (enterDirectory env settings w0))
                 ++ l) ->
             p = repositoryPath settings \/ In (Ev (RmRF p) o) l).
  { intros w0 l I. apply in_app_or in I. destruct I as [[I|I]|I]; [discriminate| |auto].
    left. specialize (Ge w0). rewrite forallb_forall in Ge. specialize (Ge _ I).
    apply String.eqb_eq in Ge. exact Ge. }
  assert (Ns : forall git, emits (fun e => negb (calls isRmRF e)) (synchronize env git settings)).
  { intros git.
    unfold synchronize, credentialBracket, downloadFallback, setUp, fetchAndCheckout,
      checkoutResolved, releaseCredential, configureAuthToken, removeGitConfig.
    footprint. }
  assert (A : forall git ex w0 all,
             (forall e, In e (events (afterGateway env git ex settings w0)) -> In e all) ->
             In (Ev (RmRF p) o) (events (afterGateway env git ex settings w0)) ->
             In p (lockPaths env (repositoryPath settings)) \/
             exists names name,
               In (Ev (Readdir (repositoryPath settings)) (Returned (VStrings names))) all /\
               In name names /\ p = path_join env [repositoryPath settings; name]).
  { intros git ex w0 all Sub. unfold afterGateway in *. rewrite bind_run in *.
    set (x := (if ex
               then prepareExistingDirectory env git (repositoryPath settings)
                      (repositoryUrlOf env settings) (clean settings)
               else ret tt) w0) in *.
    assert (Ip : In (Ev (RmRF p) o) (events x) ->
                 (forall e, In e (events x) -> In e all) ->
                 In p (lockPaths env (repositoryPath settings)) \/
                 exists names name,
                   In (Ev (Readdir (repositoryPath settings)) (Returned (VStrings names))) all /\
                   In name names /\ p = path_join env [repositoryPath settings; name]).
    { subst x. destruct ex; [|intros []].
      intros I Sx. destruct (prepare_deletes_only _ _ _ _ _ _ _ I) as [L|(names & name & I1 & I2)].
      - left. exact L.
      - right. exists names, name. split; [apply Sx, I1 | exact I2]. }
    destruct (res x) as [[]|e]; cbn [prepend events] in *.
    - intros I. apply in_app_or in I. destruct I as [I|I].
      + apply Ip; [exact I|]. intros e Ie. apply Sub, in_or_app. left. exact Ie.
      + exfalso. specialize (Ns git (final x)). rewrite forallb_forall in Ns.
        specialize (Ns _ I). discriminate.
    - intros I. apply Ip; [exact I | exact Sub]. }
  destruct (getSource_cases env settings w)
    as [(e & R & E)|[(ex & m' & w' & R & C & L & E)|[(ex & m' & w' & R & C & L & E)
       |(ex & g & w' & R & C & E)]]];
    cbv zeta in E; rewrite E; clear E; cbn [prepend res final events].
  - intros I. left.
    destruct (Le w [] ltac:(rewrite app_nil_r; exact I)) as [X|[]]. exact X.
  - intros I. destruct (Le _ _ I) as [X|[X|[X|[]]]]; [left; exact X | discriminate..].
  - rewrite <- app_assoc. intros I. destruct (Le _ _ I) as [X|[X|[X|X]]];
      [left; exact X | discriminate | discriminate |].
    right. apply (A None ex w'); [|exact X].
    intros e Ie. apply in_or_app. right. right. right. exact Ie.
  - rewrite <- app_assoc. intros I. destruct (Le _ _ I) as [X|[X|[X|X]]];
      [left; exact X | discriminate | discriminate |].
    right. apply (A (Some g) ex w'); [|exact X].
    intros e Ie. apply in_or_app. right. right. right. exact Ie.
Qed.

(** ** The branches that are deleted *)

Lemma app_split {A} (l1 l2 pre : list A) e post :
  l1 ++ l2 = pre ++ e :: post ->
  (exists post1, l1 = pre ++ e :: post1 /\ post = post1 ++ l2) \/
  (exists pre2, pre = l1 ++ pre2 /\ l2 = pre2 ++ e :: post).
Proof.
  revert pre. induction l1 as [|a l1 IH]; intros pre H; cbn [app] in H.
  - right. exists pre. auto.
  - destruct pre as [|b pre]; cbn [app] in H; inversion H; subst.
    + left. exists l1. auto.
    + destruct (IH _ H2) as [(post1 & -> & ->)|(pre2 & -> & ->)].
      * left. exists post1. auto.
      * right. exists pre2. auto.
Qed.

Lemma deleted_branches (g : IGitCommandManager W) remote l w pre r' b o post :
  events (forEach l (fun branch => git_branchDelete g remote branch) w)
  = pre ++ Ev (BranchDelete r' b) o :: post ->
  r' = remote /\ In b l.
Proof.
  unfold git_branchDelete. revert w pre.
  induction l as [|x l IH]; intros w pre; rewrite ?forEach_nil, ?forEach_cons.
  - rewrite ret_run. cbn [events]. intros H. destruct pre; discriminate H.
  - rewrite bind_call. destruct (branchDelete g remote x w) as [[m|[]] w']; tidy.
    + intros H. destruct pre as [|y pre]; cbn [app] in H; inversion H; subst.
      * split; [reflexivity | left; reflexivity].
      * destruct pre; discriminate.
    + intros H. destruct pre as [|y pre]; cbn [app] in H; inversion H; subst.
      * split; [reflexivity | left; reflexivity].
      * destruct (IH _ _ H2) as [-> I]. split; [reflexivity | right; exact I].
Qed.

Lemma list_then_delete (g : IGitCommandManager W) {A} r (k : M W A) :
  (forall w pre remote b o post,
      events (k w) = pre ++ Ev (BranchDelete remote b) o :: post ->
      exists l, In (Ev (BranchList remote) (Returned (VStrings l))) pre /\ In b l) ->
  forall w pre remote b o post,
    events (bind (git_branchList g r)
              (fun branches =>
                 bind (forEach branches (fun branch => git_branchDelete g r branch))
                   (fun _ => k)) w)
    = pre ++ Ev (BranchDelete remote b) o :: post ->
    exists l, In (Ev (BranchList remote) (Returned (VStrings l))) pre /\ In b l.
Proof.
  intros Hk w pre remote b o post. unfold git_branchList. rewrite bind_call.
  destruct (branchList g r w) as [[m|l] w']; tidy.
  { intros H. destruct pre as [|y pre]; cbn [app] in H; inversion H. destruct pre; discriminate. }
  intros H. destruct pre as [|y pre]; cbn [app] in H; inversion H; subst. clear H.
  rewrite bind_run in H2.
  destruct (res (forEach l (fun branch => git_branchDelete g r branch) w')) as [[]|e];
    cbn [prepend events] in H2.
  - apply app_split in H2. destruct H2 as [(post1 & H2 & _)|(pre2 & -> & H2)].
    + destruct (deleted_branches _ _ _ _ _ _ _ _ _ H2) as [-> I].
      exists l. split; [left; reflexivity | exact I].
    + destruct (Hk _ _ _ _ _ _ H2) as (l' & I1 & I2).
      exists l'. split; [right; apply in_or_app; right; exact I1 | exact I2].
  - destruct (deleted_branches _ _ _ _ _ _ _ _ _ H2) as [-> I].
    exists l. split; [left; reflexivity | exact I].
Qed.

Lemma reuse_deletes_listed (g : IGitCommandManager W) path clean w pre remote b o post :
  events (reuse g path clean w) = pre ++ Ev (BranchDelete remote b) o :: post ->
  exists l, In (Ev (BranchList remote) (Returned (VStrings l))) pre /\ In b l.
Proof.
  assert (K : forall w pre remote b o post,
             events (cleanTree g path clean w) = pre ++ Ev (BranchDelete remote b) o :: post ->
             exists l, In (Ev (BranchList remote) (Returned (VStrings l))) pre /\ In b l).
  { intros w0 pre0 remote0 b0 o0 post0 H. exfalso.
    assert (F : emits (fun e => negb (calls isBranchDelete e)) (cleanTree g path clean))
      by (unfold cleanTree; footprint).
    eapply forallb_absent; [apply F | | exact H]. reflexivity. }
  pose proof (list_then_delete g false _ (list_then_delete g true _ K)) as P.
  unfold reuse, detachAndPrune, git_isDetached, git_checkoutDetach.
  rewrite bind_call. destruct (isDetached g w) as [[m|d] w1]; tidy.
  { intros H. destruct pre as [|y pre]; cbn [app] in H; inversion H. destruct pre; discriminate. }
  intros H. destruct pre as [|y pre]; cbn [app] in H; inversion H; subst. clear H.
  destruct d; cbn [negb] in H2; cbv iota in H2.
  - rewrite bind_ret in H2. destruct (P _ _ _ _ _ _ H2) as (l & I1 & I2).
    exists l. split; [right; exact I1 | exact I2].
  - rewrite bind_call in H2. destruct (checkoutDetach g w1) as [[m|[]] w2]; tidy.
    { destruct pre as [|y pre]; cbn [app] in H2; inversion H2. destruct pre; discriminate. }
    destruct pre as [|y pre]; cbn [app] in H2; inversion H2; subst. clear H2.
    destruct (P _ _ _ _ _ _ H1) as (l & I1 & I2).
    exists l. split; [right; right; exact I1 | exact I2].
Qed.

(** [prepareExistingDirectory] deletes no branch that it has not listed: a
    branch is deleted, as a local or as a remote-tracking one, after
    [branchList] has returned it in the listing of the same kind. *)
Theorem only_listed_branches_are_deleted (g : IGitCommandManager W) path url clean w :
  let r := prepareExistingDirectory env (Some g) path url clean w in
  forall pre remote b o post,
    events r = pre ++ Ev (BranchDelete remote b) o :: post ->
    exists l, In (Ev (BranchList remote) (Returned (VStrings l))) pre /\ In b l.
Proof.
  cbv zeta. intros pre remote b o post H.
  set (Q := calls isBranchDelete).
  assert (Qe : Q (Ev (BranchDelete remote b) o) = true) by reflexivity.
  assert (HQ : forall e, Q e = true -> calls reuseCall e = true).
  { intros [[] o'|ch t]; cbn; intros; congruence. }
  destruct (prepare_cases env g path url clean w)
    as [(m' & E & _)|[(w' & E)|[(m' & E & _)|[(u & w' & N & E)|(w' & E)]]]];
    rewrite E in H; clear E; tidy.
  - locate.
  - locate. exfalso.
    eapply forallb_absent; [apply (clearDirectory_free env Q), HQ | exact Qe | eassumption].
  - locate.
  - locate. exfalso.
    eapply forallb_absent; [apply (clearDirectory_free env Q), HQ | exact Qe | eassumption].
  - destruct (reconcile_cases env g path clean w') as (locks & w1 & Hl & Hm).
    cbv zeta in Hm.
    assert (X : exists rest,
               events (reconcile env g path clean w')
               = locks ++ events (reuse g path clean w1) ++ rest /\
               forallb (fun e => negb (Q e)) rest = true).
    { destruct (res (reuse g path clean w1)) as [remove|e]; rewrite Hm; cbn [prepend events].
      - eexists. rewrite <- app_assoc. split; [reflexivity|].
        apply (clearDirectory_free env Q), HQ.
      - eexists. rewrite <- !app_assoc. split; [reflexivity|].
        cbn [app forallb]. apply (clearDirectory_free env Q), HQ. }
    destruct X as (rest & E & Fr). rewrite E in H. clear E Hm.
    locate.
    destruct (skip_free Q _ _ (locks_free env Q path locks HQ Hl) _ _ _ Qe H)
      as (pre1 & -> & H1). clear H.
    apply app_split in H1. destruct H1 as [(post1 & H1 & _)|(pre2 & _ & H1)].
    + destruct (reuse_deletes_listed _ _ _ _ _ _ _ _ _ H1) as (l & I1 & I2).
      exists l. split; [|exact I2]. right. right. apply in_or_app. right. exact I1.
    + exfalso. eapply forallb_absent; [exact Fr | exact Qe | exact H1].
Qed.

(** The steps of the reconciliation are taken on condition: the recorded URL
    is asked only once the [.git] directory is found, HEAD is detached only
    right after [isDetached] has answered no, and the reset is tried only
    right after the clean has answered yes; when HEAD is detached already,
    the listing of the local branches is the next call. *)
Theorem reconciliation_steps_are_conditional (g : IGitCommandManager W) path url clean w :
  let r := prepareExistingDirectory env (Some g) path url clean w in
  (forall pre o post,
      events r = pre ++ Ev TryGetFetchUrl o :: post ->
      pre = [Ev (DirectoryExistsSync (path_join env [path; ".git"%string]))
               (Returned (VBool true))]) /\
  (forall pre o post,
      events r = pre ++ Ev CheckoutDetach o :: post ->
      exists pre', pre = pre' ++ [Ev IsDetached (Returned (VBool false))]) /\
  (forall pre o post,
      events r = pre ++ Ev TryReset o :: post ->
      clean = true /\ exists pre', pre = pre' ++ [Ev TryClean (Returned (VBool true))]) /\
  (forall pre post,
      events r = pre ++ Ev IsDetached (Returned (VBool true)) :: post ->
      exists o rest, post = Ev (BranchList false) o :: rest).
Proof.
  cbv zeta.
  set (Q := fun e => match e with
                     | Ev TryGetFetchUrl _ | Ev CheckoutDetach _ | Ev TryReset _ => true
                     | _ => false
                     end).
  set (R := fun p e : Event =>
              match e with
              | Ev TryGetFetchUrl _ =>
                  p = Ev (DirectoryExistsSync (path_join env [path; ".git"%string]))
                        (Returned (VBool true))
              | Ev CheckoutDetach _ => p = Ev IsDetached (Returned (VBool false))
              | _ => clean = true /\ p = Ev TryClean (Returned (VBool true))
              end).
  assert (L : links (comesAfter Q R) anyEnd None
                (prepareExistingDirectory env (Some g) path url clean)).
  { unfold prepareExistingDirectory.
    destruct clean; link (comesAfter_weak Q R) I ltac:(try idle).
    all: intros _; cbn; auto. }
  set (Q' := fun e => match e with
                      | Ev IsDetached (Returned (VBool true)) => true
                      | _ => false
                      end).
  set (S := fun p e : Event => exists o, e = Ev (BranchList false) o).
  assert (L' : links (goesOn Q' S) (notLast Q') None
                 (prepareExistingDirectory env (Some g) path url clean)).
  { unfold prepareExistingDirectory.
    link (goesOn_weak Q' S) I ltac:(try idle).
    all: intros _; eexists; reflexivity. }
  split; [|split; [|split]].
  - intros pre o post H.
    destruct (comesAfter_split Q R _ _ _ _ (L w) H eq_refl) as (pre' & p & -> & X).
    cbn in X. subst p. revert H.
    destruct (prepare_cases env g path url clean w)
      as [(m' & E & _)|[(w' & E)|[(m' & E & _)|[(u & w' & N & E)|(w' & E)]]]];
      rewrite E; clear E; tidy; intros H;
      destruct pre' as [|x pre']; try reflexivity; exfalso;
      cbn [app] in H; apply cons_eq_inv in H; destruct H as [_ H].
    + destruct pre'; discriminate H.
    + assert (F : forallb (fun e => negb (calls isProbeOfRepository e))
                    (events (clearDirectory env true path w')) = true).
      { apply clearDirectory_emits; intros; reflexivity. }
      eapply forallb_absent; [exact F | | exact H]. reflexivity.
    + destruct pre' as [|y pre']; cbn [app] in H; [discriminate H|].
      apply cons_eq_inv in H. destruct H as [_ H]. destruct pre'; discriminate H.
    + destruct pre' as [|y pre']; cbn [app] in H; [discriminate H|].
      apply cons_eq_inv in H. destruct H as [_ H].
      assert (F : forallb (fun e => negb (calls isProbeOfRepository e))
                    (events (clearDirectory env true path w')) = true).
      { apply clearDirectory_emits; intros; reflexivity. }
      eapply forallb_absent; [exact F | | exact H]. reflexivity.
    + destruct pre' as [|y pre']; cbn [app] in H; [discriminate H|].
      apply cons_eq_inv in H. destruct H as [_ H].
      assert (F : forallb (fun e => negb (calls isProbeOfRepository e))
                    (events (reconcile env g path clean w')) = true).
      { apply reconcile_emits; intros; try reflexivity.
        destruct c; try discriminate; reflexivity. }
      eapply forallb_absent; [exact F | | exact H]. reflexivity.
  - intros pre o post H.
    destruct (comesAfter_split Q R _ _ _ _ (L w) H eq_refl) as (pre' & p & -> & X).
    cbn in X. subst p. eauto.
  - intros pre o post H.
    destruct (comesAfter_split Q R _ _ _ _ (L w) H eq_refl) as (pre' & p & -> & X).
    cbn in X. destruct X as [C ->]. eauto.
  - intros pre post H.
    destruct (goesOn_split Q' S _ _ _ _ (L' w) H eq_refl) as (e' & post' & -> & o & ->).
    eauto.
Qed.

End MoreReconcilerFacts.

(* ===================================================================== *)
(** * The properties above on runs in the simulated environment *)
(* ===================================================================== *)

(** The fetch of the run in an empty directory. *)
Lemma fetch_witness :
  (1%Z = fetchDepth Sim.settings /\
   exists pre',
     firstn 19 (events freshRun)
     = pre' ++ [Ev (GetRefSpec (ref Sim.settings) (commit Sim.settings))
                  (Returned (VStrings mainSpec))]) /\
  (exists o rest,
      skipn 19 (events freshRun) = Ev (Fetch (fetchDepth Sim.settings) mainSpec) o :: rest).
Proof.
  split.
  - apply (proj1 (fetch_uses_depth_and_refspec Sim.env Sim.settings Sim.fresh)
             (firstn 19 (events freshRun)) 1%Z mainSpec (Returned VUnit)
             (skipn 20 (events freshRun))).
    vm_compute. reflexivity.
  - apply (proj2 (fetch_uses_depth_and_refspec Sim.env Sim.settings Sim.fresh)
             (firstn 18 (events freshRun)) "refs/heads/main"%string EmptyString mainSpec
             (skipn 19 (events freshRun))).
    vm_compute. reflexivity.
Defined.

(** The initialisation of the repository in an empty directory. *)
Lemma initialisation_witness :
  (exists pre',
      firstn 10 (events freshRun)
      = pre' ++ [Ev (DirectoryExistsSync (path_join Sim.env ["/w"; ".git"]%string))
                   (Returned (VBool false))]) /\
  ("origin"%string = "origin"%string /\
   Sim.url = repositoryUrlOf Sim.env Sim.settings /\
   exists pre', firstn 11 (events freshRun) = pre' ++ [Ev Init (Returned VUnit)]).
Proof.
  split.
  - apply (proj1 (repository_initialised_only_without_metadata Sim.env Sim.settings Sim.fresh)
             (firstn 10 (events freshRun)) (Returned VUnit) (skipn 11 (events freshRun))).
    vm_compute. reflexivity.
  - apply (proj2 (repository_initialised_only_without_metadata Sim.env Sim.settings Sim.fresh)
             (firstn 11 (events freshRun)) "origin"%string Sim.url (Returned VUnit)
             (skipn 12 (events freshRun))).
    vm_compute. reflexivity.
Defined.

(** The unsetting of the credential at the end of [getSource] and in
    [cleanup]. *)
Lemma unset_witness :
  (authConfigKey = authConfigKey /\
   exists pre',
     firstn 24 (events freshRun)
     = pre' ++ [Ev (ConfigExists authConfigKey) (Returned (VBool true))]) /\
  (exists o rest, skipn 3 (events cleanedRun) = Ev (TryConfigUnset authConfigKey) o :: rest).
Proof.
  split.
  - apply (proj1 (unset_only_after_probe Sim.env Sim.settings "/w" Sim.fresh)
             (firstn 24 (events freshRun)) authConfigKey (Returned (VBool true))
             (skipn 25 (events freshRun))).
    vm_compute. reflexivity.
  - apply (proj2 (proj2 (proj2 (unset_only_after_probe Sim.env Sim.settings "/w"
                                  (Sim.withCredential [] []))))
             (firstn 2 (events cleanedRun)) authConfigKey (skipn 3 (events cleanedRun))).
    vm_compute. reflexivity.
Defined.

(** The checkout and the log of the run in an empty directory. *)
Lemma checkout_then_log_witness :
  (exists o rest, skipn 22 (events freshRun) = Ev Log1 o :: rest) /\
  (exists pre' a b, firstn 22 (events freshRun) = pre' ++ [Ev (Checkout a b) (Returned VUnit)]).
Proof.
  split.
  - apply (proj1 (checkout_is_followed_by_log Sim.env Sim.settings Sim.fresh)
             (firstn 21 (events freshRun)) "main"%string
             (Some "refs/remotes/origin/main"%string) VUnit (skipn 22 (events freshRun))).
    vm_compute. reflexivity.
  - apply (proj2 (checkout_is_followed_by_log Sim.env Sim.settings Sim.fresh)
             (firstn 22 (events freshRun)) (Returned VUnit) (skipn 23 (events freshRun))).
    vm_compute. reflexivity.
Defined.

(** The checkout of the run without LFS. *)
Lemma checkout_without_lfs_witness :
  exists o rest,
    skipn 21 (events freshRun)
    = Ev (Checkout (ICheckoutInfo.ref Sim.mainInfo) (ICheckoutInfo.startPoint Sim.mainInfo)) o
      :: rest.
Proof.
  apply (checkout_follows_resolution_without_lfs Sim.env Sim.settings Sim.fresh eq_refl
           (firstn 20 (events freshRun)) "refs/heads/main"%string EmptyString Sim.mainInfo
           (skipn 21 (events freshRun))).
  vm_compute. reflexivity.
Defined.

(** A git that cannot turn off the garbage collection, and one that can. *)
Lemma gc_witness :
  (exists o rest,
      skipn 20 (events gcRun)
      = Core Warning gcWarning :: Ev (ConfigExists authConfigKey) o :: rest) /\
  (exists o rest, skipn 20 (events cloneRun) = Ev (ConfigExists authConfigKey) o :: rest).
Proof.
  split.
  - apply (proj1 (gc_failure_only_warns Sim.env Sim.settings
                    (Sim.clone [] [TryDisableAutomaticGarbageCollection]))
             (firstn 19 (events gcRun)) (skipn 20 (events gcRun))).
    vm_compute. reflexivity.
  - apply (proj2 (gc_failure_only_warns Sim.env Sim.settings (Sim.clone [] []))
             (firstn 19 (events cloneRun)) (skipn 20 (events cloneRun))).
    vm_compute. reflexivity.
Defined.

(** The configuration of the placeholder in an empty directory. *)
Lemma placeholder_witness :
  authConfigKey = authConfigKey /\ placeholder = placeholder /\
  exists pre' last,
    firstn 14 (events freshRun) = pre' ++ [last] /\
    (last = Ev (ConfigExists authConfigKey) (Returned (VBool false)) \/
     last = Ev (TryConfigUnset authConfigKey) (Returned (VBool true)) \/
     last = Core Warning removalWarning).
Proof.
  apply (placeholder_configured_after_removal Sim.env Sim.settings Sim.fresh
           (firstn 14 (events freshRun)) authConfigKey placeholder (Returned VUnit)
           (skipn 15 (events freshRun))).
  vm_compute. reflexivity.
Defined.

(** The making of the directory where a file was. *)
Lemma directory_made_witness :
  "/w"%string = repositoryPath Sim.settings /\
  (exists pre',
      firstn 4 (events replacedRun)
      = pre' ++ [Ev (DirectoryExistsSync (repositoryPath Sim.settings))
                   (Returned (VBool false))]) /\
  forallb (fun e => negb (calls reconcilerCall e) && negb (calls isRmRF e))
    (skipn 5 (events replacedRun)) = true.
Proof.
  apply (directory_made_only_when_missing Sim.env Sim.settings Sim.fileInTheWay
           (firstn 4 (events replacedRun)) "/w"%string (Returned VUnit)).
  vm_compute. reflexivity.
Defined.

(** The run without LFS makes no LFS call. *)
Lemma no_lfs_witness :
  forallb (fun e => negb (calls lfsCall e)) (events freshRun) = true.
Proof.
  apply (no_lfs_call_without_lfs Sim.env Sim.settings Sim.fresh). reflexivity.
Defined.

(** The installation of LFS in the run with LFS. *)
Lemma lfs_installed_witness :
  (exists pre' p content,
      firstn 18 (events lfsRun) = pre' ++ [Ev (WriteFile p content) (Returned VUnit)]) /\
  (exists pre', firstn 19 (events lfsRun) = pre' ++ [Ev LfsInstall (Returned VUnit)]).
Proof.
  split.
  - apply (proj1 (lfs_installed_before_fetch Sim.env Sim.lfsSettings Sim.fresh eq_refl)
             (firstn 18 (events lfsRun)) (Returned VUnit) (skipn 19 (events lfsRun))).
    vm_compute. reflexivity.
  - apply (proj2 (lfs_installed_before_fetch Sim.env Sim.lfsSettings Sim.fresh eq_refl)
             (firstn 19 (events lfsRun)) "refs/heads/main"%string EmptyString
             (Returned (VStrings mainSpec)) (skipn 20 (events lfsRun))).
    vm_compute. reflexivity.
Defined.

(** The path is recorded before the placeholder is configured. *)
Lemma path_recorded_witness :
  In (Ev (SetRepositoryPath (repositoryPath Sim.settings)) (Returned VUnit))
     (firstn 14 (events freshRun)).
Proof.
  apply (path_recorded_before_credential Sim.env Sim.settings Sim.fresh
           (firstn 14 (events freshRun)) (Config authConfigKey placeholder) (Returned VUnit)
           (skipn 15 (events freshRun))).
  - vm_compute. reflexivity.
  - reflexivity.
Defined.

(** The run with [persistCredentials] does not come back to the
    configuration. *)
Lemma persisted_credential_witness :
  forallb (fun e => negb (calls removalCall e)) (skipn 15 (events persistingRun)) = true.
Proof.
  apply (persisted_credential_is_kept Sim.env persistingSettings Sim.fresh eq_refl
           (firstn 14 (events persistingRun)) authConfigKey placeholder (Returned VUnit)
           (skipn 15 (events persistingRun))).
  vm_compute. reflexivity.
Defined.

(** The download on a machine without git. *)
Lemma download_witness :
  skipn 10 (events fallbackRun) = [] /\
  lfs Sim.settings = false /\
  (exists m,
      In (Ev (CreateCommandManager (repositoryPath Sim.settings) false) (Raised m))
         (firstn 9 (events fallbackRun))) /\
  res fallbackRun = Ok tt.
Proof.
  apply (download_only_without_gateway Sim.env Sim.settings Sim.noGit
           (firstn 9 (events fallbackRun)) "tok"%string "acme"%string "widgets"%string
           "refs/heads/main"%string EmptyString "/w"%string (Returned VUnit)
           (skipn 10 (events fallbackRun))).
  vm_compute. reflexivity.
Defined.

(** The construction of the gateway in an empty directory. *)
Lemma gateway_witness :
  "/w"%string = repositoryPath Sim.settings /\ false = lfs Sim.settings /\
  (exists pre',
      firstn 4 (events freshRun) = pre' ++ [Core Info (workingDirectoryText Sim.settings)]) /\
  forallb (fun e => negb (calls isCreate e)) (firstn 4 (events freshRun)) = true /\
  forallb (fun e => negb (calls isCreate e)) (skipn 5 (events freshRun)) = true.
Proof.
  apply (gateway_constructed_once Sim.env Sim.settings Sim.fresh
           (firstn 4 (events freshRun)) "/w"%string false (Returned VGit)).
  vm_compute. reflexivity.
Defined.

(** The run in an empty directory returns, and has fetched. *)
Lemma returned_run_witness :
  (exists pre, events freshRun = pre ++ [Ev (downloadCall Sim.settings) (Returned VUnit)]) \/
  (exists spec info,
      In (Ev (SetRepositoryPath (repositoryPath Sim.settings)) (Returned VUnit))
         (events freshRun) /\
      In (Ev (Fetch (fetchDepth Sim.settings) spec) (Returned VUnit)) (events freshRun) /\
      In (Ev (GetCheckoutInfo (ref Sim.settings) (commit Sim.settings))
            (Returned (VCheckoutInfo info))) (events freshRun) /\
      In (Ev (Checkout (ICheckoutInfo.ref info) (ICheckoutInfo.startPoint info))
            (Returned VUnit)) (events freshRun) /\
      In (Ev Log1 (Returned VUnit)) (events freshRun)).
Proof.
  apply (returned_run_has_synchronised Sim.env Sim.settings Sim.fresh).
  vm_compute. reflexivity.
Defined.

(** The only rejection of the run on a machine without git is the one of the
    construction of the gateway. *)
Lemma guarded_rejection_witness :
  (CreateCommandManager "/w" false = CreateCommandManager (repositoryPath Sim.settings) false
   /\ lfs Sim.settings = false) \/
  reuseCall (CreateCommandManager "/w" false) = true \/
  exists p, CreateCommandManager "/w" false = RmRF p /\
            In p (lockPaths Sim.env (repositoryPath Sim.settings)).
Proof.
  apply (returned_run_guards_its_rejections Sim.env Sim.settings Sim.noGit
           ltac:(vm_compute; reflexivity) (CreateCommandManager "/w" false)
           "Unable to locate executable file: git"%string).
  vm_compute. do 4 right. left. reflexivity.
Defined.

(** The run whose fetch is rejected fails with that rejection, and removes
    the credential. *)
Lemma failure_witness :
  exists pre last post,
    events rejectedFetchRun = pre ++ last :: post /\
    forallb removalEvent post = true /\
    ((Rejected "simulated failure" = placeholderError /\
      exists p content,
        last = Ev (ReadFile p) (Returned (VString content)) /\
        JS.occurrences placeholder content <> 1) \/
     (exists c m, last = Ev c (Raised m) /\ Rejected "simulated failure" = Rejected m /\
                  reuseCall c = false)).
Proof.
  apply (failure_is_a_rejection_or_the_placeholder Sim.env Sim.settings
           (Sim.clone [Fetch 1 mainSpec] []) (Rejected "simulated failure")).
  vm_compute. reflexivity.
Defined.

(** What [cleanup] leaves when git does not manage to unset the entry. *)
Lemma cleanup_leaves_witness :
  skipn 2 (events uncleanedRun)
  = [Ev (ConfigExists authConfigKey) (Returned (VBool true));
     Ev (TryConfigUnset authConfigKey) (Returned (VBool false));
     Core Warning removalWarning].
Proof.
  apply (cleanup_leaves_no_credential Sim.env (Sim.hasKey "/w" authConfigKey) "/w"
           (Sim.withCredential [] [TryConfigUnset authConfigKey])
           (SimFacts.config_contract "/w" false authConfigKey)
           (firstn 1 (events uncleanedRun))).
  - vm_compute. reflexivity.
  - vm_compute. reflexivity.
  - vm_compute. reflexivity.
Defined.

(** The lock files of the clone. *)
Lemma lock_files_witness :
  exists l1 l2 o rest',
    skipn 2 (events reconciledRun) = l1 ++ l2 ++ Ev IsDetached o :: rest' /\
    lockAttempt (path_join Sim.env ["/w"; ".git"; "index.lock"]%string) l1 /\
    lockAttempt (path_join Sim.env ["/w"; ".git"; "shallow.lock"]%string) l2.
Proof.
  apply (lock_files_deleted_best_effort Sim.env (Sim.git "/w") "/w" Sim.url true
           (Sim.clone [] [])).
  vm_compute. reflexivity.
Defined.

(** The clone is kept by a reconciliation with [clean]. *)
Lemma clean_reuse_witness :
  res reconciledRun = Ok tt /\
  exists locks detached locals remotes,
    forallb (lockEvent Sim.env "/w") locks = true /\
    skipn 2 (events reconciledRun)
    = locks ++ pruned detached locals remotes
      ++ [Ev TryClean (Returned (VBool true)); Ev TryReset (Returned (VBool true))].
Proof.
  apply (clean_reuse_keeps_the_directory Sim.env (Sim.git "/w") "/w" Sim.url
           (Sim.clone [] [])).
  - vm_compute. reflexivity.
  - vm_compute. reflexivity.
Defined.

(** The entry that the run on a machine without git tries to delete was
    listed. *)
Lemma listed_entry_witness :
  "/w/a"%string = repositoryPath Sim.settings \/
  In "/w/a"%string (lockPaths Sim.env (repositoryPath Sim.settings)) \/
  exists names name,
    In (Ev (Readdir (repositoryPath Sim.settings)) (Returned (VStrings names)))
       (events stubbornRun) /\
    In name names /\ "/w/a"%string = path_join Sim.env [repositoryPath Sim.settings; name].
Proof.
  apply (only_listed_entries_are_deleted Sim.env Sim.settings Sim.stubborn "/w/a"%string
           (Raised "simulated failure")).
  vm_compute. do 7 right. left. reflexivity.
Defined.

(** The local branch of the clone is deleted after it is listed. *)
Lemma listed_branch_witness :
  exists l,
    In (Ev (BranchList false) (Returned (VStrings l))) (firstn 7 (events reconciledRun)) /\
    In "main"%string l.
Proof.
  apply (only_listed_branches_are_deleted Sim.env (Sim.git "/w") "/w" Sim.url true
           (Sim.clone [] []) (firstn 7 (events reconciledRun)) false "main"%string
           (Returned VUnit) (skipn 8 (events reconciledRun))).
  vm_compute. reflexivity.
Defined.

(** The steps of the reconciliation of the clone, on a branch and with a
    detached HEAD. *)
Lemma reconciliation_steps_witness :
  firstn 1 (events reconciledRun)
  = [Ev (DirectoryExistsSync (path_join Sim.env ["/w"; ".git"]%string))
       (Returned (VBool true))] /\
  (exists pre', firstn 5 (events reconciledRun)
                = pre' ++ [Ev IsDetached (Returned (VBool false))]) /\
  (true = true /\
   exists pre', firstn 11 (events reconciledRun)
                = pre' ++ [Ev TryClean (Returned (VBool true))]) /\
  (exists o rest, skipn 5 (events detachedRun) = Ev (BranchList false) o :: rest).
Proof.
  split; [|split; [|split]].
  - apply (proj1 (reconciliation_steps_are_conditional Sim.env (Sim.git "/w") "/w" Sim.url
                    true (Sim.clone [] []))
             (firstn 1 (events reconciledRun)) (Returned (VString Sim.url))
             (skipn 2 (events reconciledRun))).
    vm_compute. reflexivity.
  - apply (proj1 (proj2 (reconciliation_steps_are_conditional Sim.env (Sim.git "/w") "/w"
                           Sim.url true (Sim.clone [] [])))
             (firstn 5 (events reconciledRun)) (Returned VUnit)
             (skipn 6 (events reconciledRun))).
    vm_compute. reflexivity.
  - apply (proj1 (proj2 (proj2 (reconciliation_steps_are_conditional Sim.env (Sim.git "/w")
                                  "/w" Sim.url true (Sim.clone [] []))))
             (firstn 11 (events reconciledRun)) (Returned (VBool true))
             (skipn 12 (events reconciledRun))).
    vm_compute. reflexivity.
  - apply (proj2 (proj2 (proj2 (reconciliation_steps_are_conditional Sim.env (Sim.git "/w")
                                  "/w" Sim.url true
                                  (Sim.withDetached (Sim.clone [] []) true))))
             (firstn 4 (events detachedRun)) (skipn 5 (events detachedRun))).
    vm_compute. reflexivity.
Defined.
